(** * controller-runtime [pkg/log/zap]: options, defaulting, construction, flags

    A shallow embedding of [zap.go].  The helper is pointer-based Go: option
    setters and the defaulting pass mutate an [Options] struct through a
    pointer, and [ZapOpts] is a slice that [append] may extend in place.  The
    embedding therefore runs in a small state monad over a heap of [Options]
    structs and of slice backing arrays.

    The imported packages ([io], [os], [time], [zapcore], [zap], [zapr],
    [flag]) are modelled by the constructors the helper calls; what those
    calls do inside the library is left uninterpreted, except where a call
    panics.  What a caller hands to the helper may be nil wherever Go lets it
    be: an [Opts], a [zap.Option], the encoder a [NewEncoderFunc] returns, the
    inside of a level enabler.  The helper checks none of these, and the
    calls it makes on them panic here as they do in Go. *)

From Stdlib Require Import ZArith String List Lia.
From stdpp Require Import base option list gmap.

Local Open Scope nat_scope.

(** ** Imported packages *)

Module io.
(** [io.Writer]: a destination, identified by the descriptor it writes to. *)
Inductive Writer := Fd (fd : nat).
End io.

Module os.
Definition Stderr : io.Writer := io.Fd 2.
End os.

Module time.
(** [time.Duration] counts nanoseconds. *)
Definition Duration := Z.
Definition Second : Duration := 1000000000%Z.
End time.

Module zapcore.
(** [zapcore.Level] is an [int8]; lower is more verbose. *)
Definition Level := Z.
Definition DebugLevel : Level := (-1)%Z.
Definition InfoLevel : Level := 0%Z.
Definition WarnLevel : Level := 1%Z.
Definition ErrorLevel : Level := 2%Z.

(** [Level(int8(n))] for an [int] [n]: the conversion to [int8] wraps. *)
Definition ofInt (n : Z) : Level := ((n + 128) mod 256 - 128)%Z.

(** Implementations of the [LevelEnabler] interface: a plain [Level]; a
    [zap.AtomicLevel] or a pointer to one, which holds a level unless it is
    the zero [AtomicLevel] or a nil pointer; and a [zap.LevelEnablerFunc],
    which may be the nil function.  These are non-nil interface values
    whatever is inside them: [o.Level == nil] is false for each. *)
Inductive LevelEnabler :=
| OfLevel (l : Level)
| OfAtomicLevel (l : option Level)
| LevelEnablerFunc (f : option (Level -> bool)).

(** [e.Enabled(lvl)]; the call panics ([None]) on an [AtomicLevel] that holds
    no level and on a nil function. *)
Definition Enabled (e : LevelEnabler) (lvl : Level) : option bool :=
  match e with
  | OfLevel l => Some (l <=? lvl)%Z
  | OfAtomicLevel l => (fun l => (l <=? lvl)%Z) <$> l
  | LevelEnablerFunc f => (fun f => f lvl) <$> f
  end.

Inductive LevelEncoder := LowercaseLevelEncoder | CapitalLevelEncoder.
Inductive TimeEncoder := EpochTimeEncoder | ISO8601TimeEncoder.
Inductive DurationEncoder := SecondsDurationEncoder | StringDurationEncoder.
Inductive CallerEncoder := ShortCallerEncoder | FullCallerEncoder.

Record EncoderConfig := {
  MessageKey : string;
  LevelKey : string;
  TimeKey : string;
  NameKey : string;
  CallerKey : string;
  StacktraceKey : string;
  LineEnding : string;
  EncodeLevel : LevelEncoder;
  EncodeTime : TimeEncoder;
  EncodeDuration : DurationEncoder;
  EncodeCaller : CallerEncoder
}.

Definition DefaultLineEnding : string := String (Ascii.ascii_of_nat 10) EmptyString.

(** Implementations of the [Encoder] interface: the two encoders of the
    library and this package's [KubeAwareEncoder] decorator, a struct with
    the fields [Encoder] and [Verbose].  An interface value may be nil. *)
#[warnings="-register-all"] Inductive Encoder :=
| NewJSONEncoder (cfg : EncoderConfig)
| NewConsoleEncoder (cfg : EncoderConfig)
| KubeAwareEncoder (Encoder : option Encoder) (Verbose : bool).

Inductive WriteSyncer := AddSync (w : option io.Writer).

Inductive Core :=
| NewCore (enc : option Encoder) (ws : WriteSyncer) (enab : option LevelEnabler)
| NewSampler (core : Core) (tick : time.Duration) (first thereafter : Z).
End zapcore.

Module zap.
Definition DebugLevel := zapcore.DebugLevel.
Definition InfoLevel := zapcore.InfoLevel.
Definition WarnLevel := zapcore.WarnLevel.
Definition ErrorLevel := zapcore.ErrorLevel.

Definition NewAtomicLevelAt (l : zapcore.Level) : zapcore.LevelEnabler :=
  zapcore.OfAtomicLevel (Some l).

Definition NewProductionEncoderConfig : zapcore.EncoderConfig :=
  {| zapcore.TimeKey := "ts";
     zapcore.LevelKey := "level";
     zapcore.NameKey := "logger";
     zapcore.CallerKey := "caller";
     zapcore.MessageKey := "msg";
     zapcore.StacktraceKey := "stacktrace";
     zapcore.LineEnding := zapcore.DefaultLineEnding;
     zapcore.EncodeLevel := zapcore.LowercaseLevelEncoder;
     zapcore.EncodeTime := zapcore.EpochTimeEncoder;
     zapcore.EncodeDuration := zapcore.SecondsDurationEncoder;
     zapcore.EncodeCaller := zapcore.ShortCallerEncoder |}.

Definition NewDevelopmentEncoderConfig : zapcore.EncoderConfig :=
  {| zapcore.TimeKey := "T";
     zapcore.LevelKey := "L";
     zapcore.NameKey := "N";
     zapcore.CallerKey := "C";
     zapcore.MessageKey := "M";
     zapcore.StacktraceKey := "S";
     zapcore.LineEnding := zapcore.DefaultLineEnding;
     zapcore.EncodeLevel := zapcore.CapitalLevelEncoder;
     zapcore.EncodeTime := zapcore.ISO8601TimeEncoder;
     zapcore.EncodeDuration := zapcore.StringDurationEncoder;
     zapcore.EncodeCaller := zapcore.ShortCallerEncoder |}.

(** Values of the interface type [zap.Option]: the options the helper
    creates, and nil. *)
Inductive Option :=
| Development
| WrapCore (f : zapcore.Core -> zapcore.Core)
| AddStacktrace (lvl : option zapcore.LevelEnabler)
| AddCallerSkip (skip : Z)
| ErrorOutput (w : zapcore.WriteSyncer)
| Nil.

Definition isNil (opt : Option) : bool :=
  match opt with Nil => true | _ => false end.

(** A logger: a new one on a core, or a logger with options applied. *)
Inductive Logger :=
| New (core : zapcore.Core)
| WithOptions (log : Logger) (opts : list Option).

(** [log.WithOptions(opts...)] clones the logger and calls [apply] on each
    option in turn; on a nil option that call panics ([None]). *)
Definition Logger_WithOptions (log : Logger) (opts : list Option) : option Logger :=
  if existsb isNil opts then None else Some (WithOptions log opts).
End zap.

Module logr.
(** [logr.Logger], as [zapr.NewLogger] makes it. *)
Inductive Logger := OfZap (l : zap.Logger).
End logr.

Module zapr.
Definition NewLogger (l : zap.Logger) : logr.Logger := logr.OfZap l.
End zapr.

Abbreviation KubeAwareEncoder := zapcore.KubeAwareEncoder.

(** ** Function types of the package *)

(** [type EncoderConfigOption func(cfg)], with [cfg] a pointer to a
    [zapcore.EncoderConfig] that the function may update. *)
Definition EncoderConfigOption := zapcore.EncoderConfig -> zapcore.EncoderConfig.

(** Calls of function values that callers supply are recorded, so that "is
    never invoked" can be stated. *)
Inductive Event :=
| InvokeNewEncoder
| ApplyEncoderConfigOption (opt : EncoderConfigOption).

(** [type NewEncoderFunc func(...EncoderConfigOption) zapcore.Encoder]: the
    encoder it returns, an interface value that may be nil, and the calls it
    made.  A function value is a function of its arguments here: it reads the
    slice it is given and writes nothing that the package can see. *)
Definition NewEncoderFunc := list EncoderConfigOption -> option zapcore.Encoder * list Event.

(** ** Slices and their backing arrays *)

Abbreviation loc := nat.

(** A [[]zap.Option] slice header: backing array, offset into it, length and
    capacity.  [ZapOpts] is the one slice the package appends to; the slices
    it only reads ([EncoderConfigOptions], variadic arguments) are lists. *)
Record Slice := { arr : loc; off : nat; len : nat; cap : nat }.

Definition nilSlice : Slice := {| arr := 0; off := 0; len := 0; cap := 0 |}.

(** A backing array: the cells that have been written and its size. *)
Record Array := { cells : list zap.Option; capacity : nat }.

(** ** Options *)

Module Options.
Record t := mk {
  Development : bool;
  Encoder : option zapcore.Encoder;
  EncoderConfigOptions : list EncoderConfigOption;
  NewEncoder : option NewEncoderFunc;
  DestWritter : option io.Writer;
  Level : option zapcore.LevelEnabler;
  StacktraceLevel : option zapcore.LevelEnabler;
  ZapOpts : Slice
}.

(** [Options{}] *)
Definition zero : t :=
  mk false None [] None None None None nilSlice.

Definition set_Development (v : bool) (r : t) : t :=
  mk v (Encoder r) (EncoderConfigOptions r) (NewEncoder r) (DestWritter r)
     (Level r) (StacktraceLevel r) (ZapOpts r).
Definition set_Encoder (v : option zapcore.Encoder) (r : t) : t :=
  mk (Development r) v (EncoderConfigOptions r) (NewEncoder r) (DestWritter r)
     (Level r) (StacktraceLevel r) (ZapOpts r).
Definition set_NewEncoder (v : option NewEncoderFunc) (r : t) : t :=
  mk (Development r) (Encoder r) (EncoderConfigOptions r) v (DestWritter r)
     (Level r) (StacktraceLevel r) (ZapOpts r).
Definition set_DestWritter (v : option io.Writer) (r : t) : t :=
  mk (Development r) (Encoder r) (EncoderConfigOptions r) (NewEncoder r) v
     (Level r) (StacktraceLevel r) (ZapOpts r).
Definition set_Level (v : option zapcore.LevelEnabler) (r : t) : t :=
  mk (Development r) (Encoder r) (EncoderConfigOptions r) (NewEncoder r)
     (DestWritter r) v (StacktraceLevel r) (ZapOpts r).
Definition set_StacktraceLevel (v : option zapcore.LevelEnabler) (r : t) : t :=
  mk (Development r) (Encoder r) (EncoderConfigOptions r) (NewEncoder r)
     (DestWritter r) (Level r) v (ZapOpts r).
Definition set_ZapOpts (v : Slice) (r : t) : t :=
  mk (Development r) (Encoder r) (EncoderConfigOptions r) (NewEncoder r)
     (DestWritter r) (Level r) (StacktraceLevel r) v.
End Options.

(** ** Memory and the monad of the package *)

Record Mem := {
  structs : gmap loc Options.t;        (* the [Options] structs, by address *)
  arrays : gmap loc Array;             (* the backing arrays of [[]zap.Option] slices *)
  calls : list Event;                  (* calls of caller-supplied function values so far *)
  growth : nat -> nat                  (* spare capacity the runtime adds when a slice of
                                          the given length is reallocated *)
}.

Definition set_structs (f : gmap loc Options.t -> gmap loc Options.t) (m : Mem) : Mem :=
  {| structs := f (structs m); arrays := arrays m; calls := calls m; growth := growth m |}.
Definition set_arrays (f : gmap loc Array -> gmap loc Array) (m : Mem) : Mem :=
  {| structs := structs m; arrays := f (arrays m); calls := calls m; growth := growth m |}.
Definition set_calls (f : list Event -> list Event) (m : Mem) : Mem :=
  {| structs := structs m; arrays := arrays m; calls := f (calls m); growth := growth m |}.

(** A computation either panics ([None]) or returns a value and a memory. *)
Definition M (A : Type) : Type := Mem -> option (A * Mem).

Definition ret {A} (a : A) : M A := fun m => Some (a, m).
Definition bind {A B} (c : M A) (k : A -> M B) : M B :=
  fun m => match c m with
           | Some (a, m') => k a m'
           | None => None
           end.
Definition panic {A} : M A := fun _ => None.

(** A call into a library that returns or panics. *)
Definition lift {A} (x : option A) : M A :=
  fun m => match x with
           | Some a => Some (a, m)
           | None => None
           end.

Notation "'let*' x ':=' c 'in' k" := (bind c (fun x => k))
  (at level 10, x pattern, c at level 100, k at level 200).
Notation "c1 ';;;' c2" := (bind c1 (fun _ => c2))
  (at level 100, c2 at level 200, right associativity).

(** Reading through a pointer to an [Options]; a nil or dangling pointer panics. *)
Definition load (p : loc) : M Options.t :=
  fun m => match structs m !! p with
           | Some r => Some (r, m)
           | None => None
           end.

(** [p.f = v], written as the update of the struct. *)
Definition modify (p : loc) (f : Options.t -> Options.t) : M unit :=
  fun m => match structs m !! p with
           | Some r => Some (tt, set_structs (insert p (f r)) m)
           | None => None
           end.

(** [&Options{...}] *)
Definition new (r : Options.t) : M loc :=
  fun m => let p := fresh (dom (structs m)) in
           Some (p, set_structs (insert p r) m).

Definition record (evs : list Event) : M unit :=
  fun m => Some (tt, set_calls (fun l => l ++ evs) m).

Definition when (b : bool) (c : M unit) : M unit := if b then c else ret tt.

Fixpoint forEach {A} (l : list A) (body : A -> M unit) : M unit :=
  match l with
  | [] => ret tt
  | x :: l' => body x ;;; forEach l' body
  end.

Definition isNil {A} (x : option A) : bool :=
  match x with None => true | Some _ => false end.

(** The elements a slice shows. *)
Definition view (m : Mem) (s : Slice) : list zap.Option :=
  match arrays m !! arr s with
  | Some a => take (len s) (drop (off s) (cells a))
  | None => []
  end.

(** [s...], the elements of [s] as variadic arguments. *)
Definition elements (s : Slice) : M (list zap.Option) :=
  fun m => Some (view m s, m).

Definition overwrite {A} (i : nat) (xs l : list A) : list A :=
  take i l ++ xs ++ drop (i + length xs) l.

(** Go's [append(s, xs...)]: within capacity the new elements are written
    into the backing array just past the slice; otherwise a new array is
    allocated, with as much spare capacity as the runtime decides. *)
Definition append (s : Slice) (xs : list zap.Option) : M Slice :=
  fun m =>
    let n := len s + length xs in
    if decide (n <= cap s) then
      Some ({| arr := arr s; off := off s; len := n; cap := cap s |},
            set_arrays (alter (fun a => {| cells := overwrite (off s + len s) xs (cells a);
                                           capacity := capacity a |}) (arr s)) m)
    else
      let a := fresh (dom (arrays m)) in
      let c := n + growth m n in
      Some ({| arr := a; off := 0; len := n; cap := c |},
            set_arrays (insert a {| cells := view m s ++ xs; capacity := c |}) m).

(** [o.ZapOpts = append(o.ZapOpts, xs...)] *)
Definition appendZapOpts (o : loc) (xs : list zap.Option) : M unit :=
  let* r := load o in
  let* s := append (Options.ZapOpts r) xs in
  modify o (Options.set_ZapOpts s).

(** ** Encoder constructors *)

Definition newJSONEncoder : NewEncoderFunc := fun opts =>
  let encoderConfig :=
    fold_left (fun cfg (opt : EncoderConfigOption) => opt cfg) opts
              zap.NewProductionEncoderConfig in
  (Some (zapcore.NewJSONEncoder encoderConfig), map ApplyEncoderConfigOption opts).

Definition newConsoleEncoder : NewEncoderFunc := fun opts =>
  let encoderConfig :=
    fold_left (fun cfg (opt : EncoderConfigOption) => opt cfg) opts
              zap.NewDevelopmentEncoderConfig in
  (Some (zapcore.NewConsoleEncoder encoderConfig), map ApplyEncoderConfigOption opts).

(** ** Option setters: [Opts], functions that take a pointer to an [Options] *)

(** [type Opts func(o)], with [o] a pointer to an [Options]: the closures
    the package returns, by the function that builds them; any other
    function, which a caller may write; and the nil function. *)
Inductive Opts :=
| UseDevMode (enabled : bool)
| WriteTo (out : option io.Writer)
| Encoder (encoder : option zapcore.Encoder)
| JSONEncoder (opts : list EncoderConfigOption)
| ConsoleEncoder (opts : list EncoderConfigOption)
| Level (level : option zapcore.LevelEnabler)
| StacktraceLevel (stacktraceLevel : option zapcore.LevelEnabler)
| RawZapOpts (zapOpts : list zap.Option)
| UseFlagOptions (in_ : loc)
| Closure (f : loc -> M unit)
| NilOpts.

(** Calling the function on [o]; calling the nil function panics. *)
Definition call (opt : Opts) (o : loc) : M unit :=
  match opt with
  | UseDevMode enabled => modify o (Options.set_Development enabled)
  | WriteTo out => modify o (Options.set_DestWritter out)
  | Encoder encoder => modify o (Options.set_Encoder encoder)
  | JSONEncoder opts =>
      let made := newJSONEncoder opts in
      record (snd made) ;;; modify o (Options.set_Encoder (fst made))
  | ConsoleEncoder opts =>
      let made := newConsoleEncoder opts in
      record (snd made) ;;; modify o (Options.set_Encoder (fst made))
  | Level level => modify o (Options.set_Level level)
  | StacktraceLevel stacktraceLevel => modify o (Options.set_StacktraceLevel stacktraceLevel)
  | RawZapOpts zapOpts => appendZapOpts o zapOpts
  | UseFlagOptions in_ =>
      let* r := load in_ in
      modify o (fun _ => r)
  | Closure f => f o
  | NilOpts => panic
  end.

(** ** The defaulting pass *)

Definition sampler : zap.Option :=
  zap.WrapCore (fun core => zapcore.NewSampler core time.Second 100 100).

Definition addDefaults (o : loc) : M unit :=
  (let* r := load o in
   when (isNil (Options.DestWritter r))
        (modify o (Options.set_DestWritter (Some os.Stderr)))) ;;;
  (let* r := load o in
   if Options.Development r then
     (let* r := load o in
      when (isNil (Options.NewEncoder r))
           (modify o (Options.set_NewEncoder (Some newConsoleEncoder)))) ;;;
     (let* r := load o in
      when (isNil (Options.Level r))
           (let lvl := zap.NewAtomicLevelAt zap.DebugLevel in
            modify o (Options.set_Level (Some lvl)))) ;;;
     (let* r := load o in
      when (isNil (Options.StacktraceLevel r))
           (let lvl := zap.NewAtomicLevelAt zap.WarnLevel in
            modify o (Options.set_StacktraceLevel (Some lvl)))) ;;;
     appendZapOpts o [zap.Development]
   else
     (let* r := load o in
      when (isNil (Options.NewEncoder r))
           (modify o (Options.set_NewEncoder (Some newJSONEncoder)))) ;;;
     (let* r := load o in
      when (isNil (Options.Level r))
           (let lvl := zap.NewAtomicLevelAt zap.InfoLevel in
            modify o (Options.set_Level (Some lvl)))) ;;;
     (let* r := load o in
      when (isNil (Options.StacktraceLevel r))
           (let lvl := zap.NewAtomicLevelAt zap.ErrorLevel in
            modify o (Options.set_StacktraceLevel (Some lvl)))) ;;;
     (let* r := load o in
      match Options.Level r with
      | None => panic
      | Some l =>
          let* enabled := lift (zapcore.Enabled l (-2)%Z) in
          when (negb enabled) (appendZapOpts o [sampler])
      end)) ;;;
  (let* r := load o in
   when (isNil (Options.Encoder r))
        (match Options.NewEncoder r with
         | None => panic
         | Some f =>
             let made := f (Options.EncoderConfigOptions r) in
             record (InvokeNewEncoder :: snd made) ;;;
             modify o (Options.set_Encoder (fst made))
         end)) ;;;
  (let* r := load o in
   appendZapOpts o [zap.AddStacktrace (Options.StacktraceLevel r)]).

(** ** Logger construction *)

Definition NewRaw (opts : list Opts) : M zap.Logger :=
  let* o := new Options.zero in
  forEach opts (fun opt => call opt o) ;;;
  addDefaults o ;;;
  let* r := load o in
  let sink := zapcore.AddSync (Options.DestWritter r) in
  appendZapOpts o [zap.AddCallerSkip 1; zap.ErrorOutput sink] ;;;
  let* r := load o in
  let log := zap.New (zapcore.NewCore
                        (Some (KubeAwareEncoder (Options.Encoder r) (Options.Development r)))
                        sink (Options.Level r)) in
  let* zs := elements (Options.ZapOpts r) in
  lift (zap.Logger_WithOptions log zs).

Definition New (opts : list Opts) : M logr.Logger :=
  let* log := NewRaw opts in
  ret (zapr.NewLogger log).


(** ** Command-line flags *)

(** Go's [error]; the nil error is [None]. *)
Inductive error :=
| errParse
| errNoSuchFlag (name : string)
| errInvalid (flagValue : string).

(** The [flag.Value]s that [BindFlags] registers: the flag package's
    [boolValue], here a pointer to the [Development] field of the struct at
    [p], and this package's [encoderFlag], [levelFlag] and [stackTraceFlag],
    each with the [setFunc] closure stored in it. *)
Inductive Value :=
| boolValue (p : loc)
| encoderFlag (setFunc : option NewEncoderFunc -> M unit)
| levelFlag (setFunc : option zapcore.LevelEnabler -> M unit)
| stackTraceFlag (setFunc : option zapcore.LevelEnabler -> M unit).

(** [flag.Flag] and the [formal] flags of a [flag.FlagSet], in the order of
    their registration. *)
Record Flag := { Name : string; Usage : string; value : Value }.

Definition FlagSet := list Flag.

Definition defined (fs : FlagSet) (name : string) : bool :=
  existsb (fun f => String.eqb (Name f) name) fs.

(** [fs.Var(value, name, usage)]; defining a name twice panics. *)
Definition Var (fs : FlagSet) (v : Value) (name usage : string) : M FlagSet :=
  if defined fs name then panic
  else ret (fs ++ [{| Name := name; Usage := usage; value := v |}]).

(** [fs.BoolVar(p, name, value, usage)] with [p] the address of the
    [Development] field of the struct at [o]: stores the default through the
    pointer and registers the flag. *)
Definition BoolVar (fs : FlagSet) (o : loc) (name : string) (dflt : bool) (usage : string)
  : M FlagSet :=
  modify o (Options.set_Development dflt) ;;;
  Var fs (boolValue o) name usage.

(** [strconv.ParseBool] *)
Definition ParseBool (str : string) : option bool :=
  if existsb (String.eqb str) ["1"; "t"; "T"; "TRUE"; "true"; "True"]%string then Some true
  else if existsb (String.eqb str) ["0"; "f"; "F"; "FALSE"; "false"; "False"]%string
       then Some false
       else None.

(** [boolValue.Set]: the pointee is assigned also when the value does not
    parse (to false), and the error reported. *)
Definition boolValue_Set (p : loc) (s : string) : M (option error) :=
  match ParseBool s with
  | Some v => modify p (Options.set_Development v) ;;; ret None
  | None => modify p (Options.set_Development false) ;;; ret (Some errParse)
  end.

(** Decimal digits and numerals. *)
Definition digit (c : Ascii.ascii) : option Z :=
  let n := Ascii.nat_of_ascii c in
  if (48 <=? n) && (n <=? 57) then Some (Z.of_nat (n - 48)) else None.

Fixpoint digits (s : string) (acc : Z) : option Z :=
  match s with
  | EmptyString => Some acc
  | String c s' =>
      match digit c with
      | Some d => digits s' (10 * acc + d)%Z
      | None => None
      end
  end.

(** Modelled from the spec: how flags.go reads the "positive integer" of
    [-zap-log-level] is not among the sources; here it is a non-empty string
    of decimal digits. *)
Definition numeral (s : string) : option Z :=
  match s with
  | EmptyString => None
  | _ => digits s 0%Z
  end.

(** Modelled from the spec: the [Set] method of [encoderFlag] is in flags.go,
    which is not among the sources.  The spec has "an encoder-name flag
    (json|console) resolved to an encoder constructor" and, for any flag,
    "parsing failures surface as flag-set errors (not exceptions), leaving
    unset fields to the defaulting pass". *)
Definition encoderFlag_Set (setFunc : option NewEncoderFunc -> M unit) (flagValue : string)
  : M (option error) :=
  if String.eqb flagValue "json" then setFunc (Some newJSONEncoder) ;;; ret None
  else if String.eqb flagValue "console" then setFunc (Some newConsoleEncoder) ;;; ret None
  else ret (Some (errInvalid flagValue)).

(** Modelled from the spec: the level names of flags.go, which is not among
    the sources.  The spec gives [-zap-log-level] the names debug, info and
    error, "or a positive integer for custom verbosity". *)
Definition levelStrings (name : string) : option zapcore.Level :=
  if String.eqb name "debug" then Some zap.DebugLevel
  else if String.eqb name "info" then Some zap.InfoLevel
  else if String.eqb name "error" then Some zap.ErrorLevel
  else None.

(** Modelled from the spec: the [Set] method of [levelFlag] is in flags.go,
    which is not among the sources.  The spec has "a level flag accepting
    named levels or arbitrary positive integers for custom verbosity tiers";
    tier [n] is the zap level [-n], below [zap.DebugLevel], converted to the
    [int8] that a [zapcore.Level] is. *)
Definition levelFlag_Set (setFunc : option zapcore.LevelEnabler -> M unit) (flagValue : string)
  : M (option error) :=
  match levelStrings flagValue with
  | Some level => setFunc (Some (zap.NewAtomicLevelAt level)) ;;; ret None
  | None =>
      match numeral flagValue with
      | Some logLevel =>
          if (0 <? logLevel)%Z
          then setFunc (Some (zap.NewAtomicLevelAt (zapcore.ofInt (- logLevel)))) ;;; ret None
          else ret (Some (errInvalid flagValue))
      | None => ret (Some (errInvalid flagValue))
      end
  end.

(** Modelled from the spec: the stack-trace level names of flags.go, which is
    not among the sources.  The spec gives [-zap-stacktrace-level] the names
    info and error. *)
Definition stackLevelStrings (name : string) : option zapcore.Level :=
  if String.eqb name "info" then Some zap.InfoLevel
  else if String.eqb name "error" then Some zap.ErrorLevel
  else None.

(** Modelled from the spec: the [Set] method of [stackTraceFlag] is in
    flags.go, which is not among the sources.  The spec has "a
    stack-trace-level flag accepting named levels". *)
Definition stackTraceFlag_Set (setFunc : option zapcore.LevelEnabler -> M unit)
           (flagValue : string) : M (option error) :=
  match stackLevelStrings flagValue with
  | Some level => setFunc (Some (zap.NewAtomicLevelAt level)) ;;; ret None
  | None => ret (Some (errInvalid flagValue))
  end.

(** [Value.Set] *)
Definition Value_Set (v : Value) (s : string) : M (option error) :=
  match v with
  | boolValue p => boolValue_Set p s
  | encoderFlag setFunc => encoderFlag_Set setFunc s
  | levelFlag setFunc => levelFlag_Set setFunc s
  | stackTraceFlag setFunc => stackTraceFlag_Set setFunc s
  end.

(** [fs.Set(name, value)], which [fs.Parse] performs for an argument
    [-name=value]. *)
Definition FlagSet_Set (fs : FlagSet) (name val : string) : M (option error) :=
  match find (fun f => String.eqb (Name f) name) fs with
  | Some f => Value_Set (value f) val
  | None => ret (Some (errNoSuchFlag name))
  end.

Definition BindFlags (o : loc) (fs : FlagSet) : M FlagSet :=
  let* r := load o in
  let* fs := BoolVar fs o "zap-devel" (Options.Development r)
               (String.append
                  "Development Mode defaults(encoder=consoleEncoder,logLevel=Debug,stackTraceLevel=Warn). "
                  "Production Mode defaults(encoder=jsonEncoder,logLevel=Info,stackTraceLevel=Error)") in
  let encVal := encoderFlag (fun fromFlag => modify o (Options.set_NewEncoder fromFlag)) in
  let* fs := Var fs encVal "zap-encoder" "Zap log encoding (one of 'json' or 'console')" in
  let levelVal := levelFlag (fun fromFlag => modify o (Options.set_Level fromFlag)) in
  let* fs := Var fs levelVal "zap-log-level"
               (String.append
                  "Zap Level to configure the verbosity of logging. Can be one of 'debug', 'info', 'error', "
                  "or any integer value > 0 which corresponds to custom debug levels of increasing verbosity") in
  let stackVal := stackTraceFlag (fun fromFlag => modify o (Options.set_StacktraceLevel fromFlag)) in
  Var fs stackVal "zap-stacktrace-level"
      "Zap Level at and above which stacktraces are captured (one of 'info', 'error').".

(** ** Fields, for statements about what a setter writes *)

Inductive Field :=
| FDevelopment | FEncoder | FEncoderConfigOptions | FNewEncoder
| FDestWritter | FLevel | FStacktraceLevel | FZapOpts.

(** The two structs agree on the field. *)
Definition same (f : Field) (r r' : Options.t) : Prop :=
  match f with
  | FDevelopment => Options.Development r = Options.Development r'
  | FEncoder => Options.Encoder r = Options.Encoder r'
  | FEncoderConfigOptions => Options.EncoderConfigOptions r = Options.EncoderConfigOptions r'
  | FNewEncoder => Options.NewEncoder r = Options.NewEncoder r'
  | FDestWritter => Options.DestWritter r = Options.DestWritter r'
  | FLevel => Options.Level r = Options.Level r'
  | FStacktraceLevel => Options.StacktraceLevel r = Options.StacktraceLevel r'
  | FZapOpts => Options.ZapOpts r = Options.ZapOpts r'
  end.

(** Calling [opt] changes no field of its struct other than [f]. *)
Definition writes_only (opt : Opts) (f : Field) : Prop :=
  forall m o m' r r',
    call opt o m = Some (tt, m') ->
    structs m !! o = Some r -> structs m' !! o = Some r' ->
    forall g, g <> f -> same g r r'.

(** The field a setter of the package assigns; [UseFlagOptions] assigns the
    whole struct. *)
Definition target (opt : Opts) : option Field :=
  match opt with
  | UseDevMode _ => Some FDevelopment
  | WriteTo _ => Some FDestWritter
  | Encoder _ | JSONEncoder _ | ConsoleEncoder _ => Some FEncoder
  | Level _ => Some FLevel
  | StacktraceLevel _ => Some FStacktraceLevel
  | RawZapOpts _ => Some FZapOpts
  | UseFlagOptions _ | Closure _ | NilOpts => None
  end.
(** ** Well-formed slices *)

(** A slice is usable in [m]: its length is within its capacity, and when it
    has capacity its backing array exists and covers it. *)
Definition slice_ok (m : Mem) (s : Slice) : Prop :=
  len s <= cap s /\
  (0 < cap s ->
   exists a, arrays m !! arr s = Some a /\
             off s + len s <= length (cells a) /\
             off s + cap s <= capacity a).

(** [t] shows nothing past the place where an append to [s] would write. *)
Definition behind (t s : Slice) : Prop :=
  arr s = arr t -> 0 < len t -> off t + len t <= off s + len s.

(** Every struct in memory holds a usable [ZapOpts] slice. *)
Definition mem_ok (m : Mem) : Prop :=
  forall p r, structs m !! p = Some r -> slice_ok m (Options.ZapOpts r).

(** [m'] comes from [m] by writes to the struct at [o] alone: the struct goes
    from [r] to [r'], its [ZapOpts] gains [zs], the calls [evs] were made,
    every usable slice stays usable, and a slice that showed nothing past the
    end of [ZapOpts] shows what it showed. *)
Record updates (o : loc) (m : Mem) (r : Options.t) (m' : Mem) (r' : Options.t)
       (zs : list zap.Option) (evs : list Event) : Prop := {
  upd_structs : structs m' = <[o := r']> (structs m);
  upd_calls : calls m' = calls m ++ evs;
  upd_growth : growth m' = growth m;
  upd_ok : slice_ok m' (Options.ZapOpts r');
  upd_view : view m' (Options.ZapOpts r') = view m (Options.ZapOpts r) ++ zs;
  upd_slices : forall t, slice_ok m t -> slice_ok m' t;
  upd_frame : forall t, slice_ok m t -> behind t (Options.ZapOpts r) ->
                        view m' t = view m t /\ behind t (Options.ZapOpts r')
}.

(** Started on a struct that is [r] up to its [ZapOpts] slice, [c] returns
    and leaves the struct as [r'] up to its [ZapOpts] slice. *)
Definition does (c : M unit) (o : loc) (r r' : Options.t)
           (zs : list zap.Option) (evs : list Event) : Prop :=
  forall m s,
    structs m !! o = Some (Options.set_ZapOpts s r) -> slice_ok m s ->
    exists m' s',
      c m = Some (tt, m') /\
      updates o m (Options.set_ZapOpts s r) m' (Options.set_ZapOpts s' r') zs evs.

(** [x], or [y] when [x] is nil. *)
Definition orElse {A} (x y : option A) : option A :=
  match x with
  | Some _ => x
  | None => y
  end.

(** The level enabler, when there is one, answers [Enabled(-2)]: the call
    returns. *)
Definition answers (e : option zapcore.LevelEnabler) : Prop :=
  forall l, e = Some l -> is_Some (zapcore.Enabled l (-2)%Z).

(** [addDefaults] asks [Level] in production mode only; [r] is ready for it
    when the [Level] it holds then answers. *)
Definition ready (r : Options.t) : Prop :=
  Options.Development r = false -> answers (Options.Level r).

(** A logger can be built from the struct [r] in [m]: it is ready for
    [addDefaults], and none of the options its [ZapOpts] shows is nil. *)
Definition buildable (m : Mem) (r : Options.t) : Prop :=
  ready r /\ zap.Nil ∉ view m (Options.ZapOpts r).

(** What [addDefaults] leaves, in terms of the struct [r] it found:
    the struct [r'], the options [zs] appended to [ZapOpts], and the calls
    [evs] made.  In production mode [b] is the answer of the level to
    [Enabled(-2)]. *)
Definition defaulted (r r' : Options.t) (zs : list zap.Option) (evs : list Event) : Prop :=
  let dev := Options.Development r in
  Options.Development r' = dev /\
  Options.EncoderConfigOptions r' = Options.EncoderConfigOptions r /\
  Options.DestWritter r' = Some (default os.Stderr (Options.DestWritter r)) /\
  Options.StacktraceLevel r' =
    Some (default (zap.NewAtomicLevelAt (if dev then zap.WarnLevel else zap.ErrorLevel))
                  (Options.StacktraceLevel r)) /\
  (exists f,
      f = default (if dev then newConsoleEncoder else newJSONEncoder) (Options.NewEncoder r) /\
      Options.NewEncoder r' = Some f /\
      Options.Encoder r' =
        orElse (Options.Encoder r) (fst (f (Options.EncoderConfigOptions r))) /\
      evs = if isNil (Options.Encoder r)
            then InvokeNewEncoder :: snd (f (Options.EncoderConfigOptions r))
            else []) /\
  (exists l b,
      l = default (zap.NewAtomicLevelAt (if dev then zap.DebugLevel else zap.InfoLevel))
                  (Options.Level r) /\
      Options.Level r' = Some l /\
      (dev = false -> zapcore.Enabled l (-2)%Z = Some b) /\
      zs = (if dev then [zap.Development] else if b then [] else [sampler])
             ++ [zap.AddStacktrace (Options.StacktraceLevel r')]).

(** [opt] is a setter of the package that can run in [m]: the record
    [UseFlagOptions] copies exists.  Nothing is known of what another
    function does, and the nil function panics. *)
Definition valid (m : Mem) (opt : Opts) : Prop :=
  match opt with
  | UseFlagOptions in_ => is_Some (structs m !! in_)
  | Closure _ | NilOpts => False
  | _ => True
  end.

(** The arguments of a setter are fit for building a logger: a level that
    answers, options that are not nil. *)
Definition honours (opt : Opts) : Prop :=
  match opt with
  | Level level => answers level
  | RawZapOpts zapOpts => zap.Nil ∉ zapOpts
  | _ => True
  end.

(** What any run of setters on [o] guarantees about memory. *)
Record configured (o : loc) (m m' : Mem) : Prop := {
  cfg_ok : mem_ok m';
  cfg_here : is_Some (structs m' !! o);
  cfg_others : forall p, p <> o -> structs m' !! p = structs m !! p;
  cfg_growth : growth m' = growth m
}.


(** The struct [NewRaw opts] has built when its setters are done: the first
    statements of [NewRaw], returning the address and the value of the
    struct. *)
Definition configure (opts : list Opts) : M (loc * Options.t) :=
  let* o := new Options.zero in
  forEach opts (fun opt => call opt o) ;;;
  let* r := load o in
  ret (o, r).

(** ** What a sequence of setters chooses *)

(** The options a setter appends to [ZapOpts]. *)
Definition rawOpts (opt : Opts) : list zap.Option :=
  match opt with
  | RawZapOpts zapOpts => zapOpts
  | _ => []
  end.

(** The value a setter gives to a field, if it is a setter of that field. *)
Definition picksDevelopment (opt : Opts) : option bool :=
  match opt with
  | UseDevMode enabled => Some enabled
  | _ => None
  end.

Definition picksDestWritter (opt : Opts) : option (option io.Writer) :=
  match opt with
  | WriteTo out => Some out
  | _ => None
  end.

Definition picksEncoder (opt : Opts) : option (option zapcore.Encoder) :=
  match opt with
  | Encoder encoder => Some encoder
  | JSONEncoder opts => Some (fst (newJSONEncoder opts))
  | ConsoleEncoder opts => Some (fst (newConsoleEncoder opts))
  | _ => None
  end.

Definition picksLevel (opt : Opts) : option (option zapcore.LevelEnabler) :=
  match opt with
  | Level level => Some level
  | _ => None
  end.

Definition picksStacktraceLevel (opt : Opts) : option (option zapcore.LevelEnabler) :=
  match opt with
  | StacktraceLevel stacktraceLevel => Some stacktraceLevel
  | _ => None
  end.

(** What the sequence [opts] chooses for a field that holds [found]: the
    pick of the last setter of that field, or [found] when there is none. *)
Definition chosen {A} (pick : Opts -> option A) (opts : list Opts) (found : A) : A :=
  fold_left (fun a opt => default a (pick opt)) opts found.

(** The struct [r] with each field as [opts] choose it. *)
Definition settled (opts : list Opts) (r : Options.t) : Options.t :=
  {| Options.Development := chosen picksDevelopment opts (Options.Development r);
     Options.Encoder := chosen picksEncoder opts (Options.Encoder r);
     Options.EncoderConfigOptions := Options.EncoderConfigOptions r;
     Options.NewEncoder := Options.NewEncoder r;
     Options.DestWritter := chosen picksDestWritter opts (Options.DestWritter r);
     Options.Level := chosen picksLevel opts (Options.Level r);
     Options.StacktraceLevel := chosen picksStacktraceLevel opts (Options.StacktraceLevel r);
     Options.ZapOpts := Options.ZapOpts r |}.

(** The structs other than the one at [o] are in [m'] what they are in [m]. *)
Definition others_kept (m m' : Mem) (o : loc) : Prop :=
  forall p, p <> o -> structs m' !! p = structs m !! p.

(** ** Memories to run the package on *)

(** A process that has allocated nothing; its runtime doubles a slice that
    has to grow. *)
Definition startup : Mem :=
  {| structs := ∅; arrays := ∅; calls := []; growth := fun n => n |}.

(** The caller holds one [Options] struct, at address 1. *)
Definition holding (r : Options.t) : Mem :=
  set_structs (insert 1 r) startup.

(** The caller holds one [Options] struct at address 1 whose [ZapOpts] is
    [make([]zap.Option, 0, 4)] with [zap.AddCallerSkip(2)] appended. *)
Definition withRoom (r : Options.t) : Mem :=
  set_arrays (insert 1 {| cells := [zap.AddCallerSkip 2]; capacity := 4 |})
    (holding (Options.set_ZapOpts {| arr := 1; off := 0; len := 1; cap := 4 |} r)).

(** The caller holds two structs whose [ZapOpts] are slices of one array of
    capacity 4 that holds three options: the struct at address 1 shows the
    first of them, the struct at address 2 all three. *)
Definition sharing : Mem :=
  {| structs :=
       <[2 := Options.set_ZapOpts {| arr := 1; off := 0; len := 3; cap := 4 |} Options.zero]>
         (<[1 := Options.set_ZapOpts {| arr := 1; off := 0; len := 1; cap := 4 |} Options.zero]>
            ∅);
     arrays := <[1 := {| cells := [zap.AddCallerSkip 2; zap.AddCallerSkip 7;
                                   zap.AddCallerSkip 8];
                         capacity := 4 |}]> ∅;
     calls := [];
     growth := fun n => n |}.

(** A struct whose every field is set by the caller. *)
Definition allSet : Options.t :=
  {| Options.Development := true;
     Options.Encoder := Some (zapcore.NewJSONEncoder zap.NewDevelopmentEncoderConfig);
     Options.EncoderConfigOptions := [fun cfg => cfg];
     Options.NewEncoder := Some newJSONEncoder;
     Options.DestWritter := Some (io.Fd 1);
     Options.Level := Some (zapcore.OfLevel zap.WarnLevel);
     Options.StacktraceLevel := Some (zap.NewAtomicLevelAt zap.InfoLevel);
     Options.ZapOpts := nilSlice |}.

(** ** Further definitions for statements about the package *)

(** The struct a setter that assigns a field leaves: the pure reading of
    [call], which [call_assigns] proves it to be. *)
Definition assigned (opt : Opts) (r : Options.t) : Options.t :=
  match opt with
  | UseDevMode enabled => Options.set_Development enabled r
  | WriteTo out => Options.set_DestWritter out r
  | Encoder encoder => Options.set_Encoder encoder r
  | JSONEncoder opts => Options.set_Encoder (fst (newJSONEncoder opts)) r
  | ConsoleEncoder opts => Options.set_Encoder (fst (newConsoleEncoder opts)) r
  | Level level => Options.set_Level level r
  | StacktraceLevel stacktraceLevel => Options.set_StacktraceLevel stacktraceLevel r
  | _ => r
  end.

(** The calls of customizers a setter makes. *)
Definition announced (opt : Opts) : list Event :=
  match opt with
  | JSONEncoder opts => snd (newJSONEncoder opts)
  | ConsoleEncoder opts => snd (newConsoleEncoder opts)
  | _ => []
  end.

(** The two setters record their calls in either order alike. *)
Definition calls_commute (opt1 opt2 : Opts) : Prop :=
  forall l : list Event,
    (l ++ announced opt1) ++ announced opt2 = (l ++ announced opt2) ++ announced opt1.

#[global] Instance Field_eq_dec : EqDecision Field.
Proof. solve_decision. Defined.

(** When [k] more elements fit in the capacity of [s], [s'] is [s] made
    longer by [k] over the same backing array. *)
Definition grown_in_place (s s' : Slice) (k : nat) : Prop :=
  len s + k <= cap s ->
  s' = {| arr := arr s; off := off s; len := len s + k; cap := cap s |}.

(** [does], with a relation [R] kept between the memory and [ZapOpts] slice
    before and after: [R k m s m' s'] for a computation that appends [k]
    elements. *)
Definition tracked (R : nat -> Mem -> Slice -> Mem -> Slice -> Prop)
           (c : M unit) (o : loc) (r r' : Options.t)
           (zs : list zap.Option) (evs : list Event) : Prop :=
  forall m s,
    structs m !! o = Some (Options.set_ZapOpts s r) -> slice_ok m s ->
    exists m' s',
      c m = Some (tt, m') /\
      updates o m (Options.set_ZapOpts s r) m' (Options.set_ZapOpts s' r') zs evs /\
      R (length zs) m s m' s'.

(** The slice has grown in place when there was room. *)
Definition in_place (k : nat) (m : Mem) (s : Slice) (m' : Mem) (s' : Slice) : Prop :=
  grown_in_place s s' k.

(** The slice [s] has no capacity or its backing array is not one of [A]. *)
Definition apart (A : gmap loc Array) (s : Slice) : Prop :=
  cap s = 0 \/ A !! arr s = None.

(** The arrays of [A] are in [m], as they are in [A]. *)
Definition holds_arrays (A : gmap loc Array) (m : Mem) : Prop :=
  forall a x, A !! a = Some x -> arrays m !! a = Some x.

(** A slice apart from a set of arrays stays apart from them, and they stay
    as they are. *)
Definition keeps_apart (k : nat) (m : Mem) (s : Slice) (m' : Mem) (s' : Slice) : Prop :=
  forall A, apart A s -> holds_arrays A m -> apart A s' /\ holds_arrays A m'.
(** ** Lists: overwriting a segment *)

Lemma length_overwrite {A} (i : nat) (xs l : list A) :
  length l <= length (overwrite i xs l) /\
  (i <= length l -> i + length xs <= length (overwrite i xs l)).
Proof.
  unfold overwrite. rewrite !length_app, length_take, length_drop. lia.
Qed.

Lemma overwrite_nil {A} (i : nat) (l : list A) : overwrite i [] l = l.
Proof.
  unfold overwrite. simpl. rewrite Nat.add_0_r. apply take_drop.
Qed.

Lemma window_overwrite_before {A} (i j k : nat) (xs l : list A) :
  j + k <= i -> i <= length l ->
  take k (drop j (overwrite i xs l)) = take k (drop j l).
Proof.
  intros Hjk Hi. unfold overwrite. apply list_eq. intros n.
  destruct (decide (n < k)) as [Hn|Hn].
  - rewrite !lookup_take_lt, !lookup_drop by lia.
    rewrite lookup_app_l by (rewrite length_take; lia).
    apply lookup_take_lt. lia.
  - rewrite !lookup_take_ge by lia. reflexivity.
Qed.

Lemma window_overwrite_at {A} (j k : nat) (xs l : list A) :
  j + k <= length l ->
  take (k + length xs) (drop j (overwrite (j + k) xs l)) = take k (drop j l) ++ xs.
Proof.
  intros Hl. unfold overwrite.
  rewrite drop_app_le by (rewrite length_take; lia).
  rewrite <- take_drop_commute.
  rewrite take_app_ge by (rewrite length_take, length_drop; lia).
  rewrite length_take, length_drop.
  replace (k + length xs - (k `min` (length l - j))) with (length xs) by lia.
  rewrite take_app_length. reflexivity.
Qed.

(** ** What [append] does to memory *)

Lemma view_empty (m : Mem) (t : Slice) : len t = 0 -> view m t = [].
Proof.
  intros Ht. unfold view. rewrite Ht. destruct (arrays m !! arr t); reflexivity.
Qed.

Lemma length_view (m : Mem) (s : Slice) : slice_ok m s -> length (view m s) = len s.
Proof.
  intros [Hlen Harr]. destruct (decide (len s = 0)) as [H0|H0].
  - rewrite view_empty by assumption. simpl. lia.
  - destruct Harr as (a & Ha & Hcells & _); [lia|].
    unfold view. rewrite Ha, length_take, length_drop. lia.
Qed.

Lemma append_spec (m : Mem) (s : Slice) (xs : list zap.Option) :
  slice_ok m s ->
  exists s' m',
    append s xs m = Some (s', m') /\
    structs m' = structs m /\ calls m' = calls m /\ growth m' = growth m /\
    slice_ok m' s' /\
    view m' s' = view m s ++ xs /\
    (forall t, slice_ok m t -> slice_ok m' t) /\
    (forall t, slice_ok m t -> behind t s -> view m' t = view m t /\ behind t s').
Proof.
  intros Hs. pose proof (length_view m s Hs) as Hlv.
  destruct Hs as [Hlen Harr]. unfold append.
  destruct (decide (len s + length xs <= cap s)) as [Hfit|Hgrow].
  - (* within capacity: written in place *)
    eexists _, _. split; [reflexivity|]. simpl.
    split; [reflexivity|]. split; [reflexivity|]. split; [reflexivity|].
    destruct (decide (0 < cap s)) as [Hcap|Hcap].
    + destruct Harr as (a & Ha & Hcells & Hcapa); [assumption|].
      pose proof (length_overwrite (off s + len s) xs (cells a)) as [Hlo1 Hlo2].
      split; [|split; [|split]].
      * split; simpl; [assumption|]. intros _.
        exists {| cells := overwrite (off s + len s) xs (cells a); capacity := capacity a |}.
        rewrite lookup_alter_eq, Ha. simpl.
        split; [reflexivity|]. simpl. split; [lia|assumption].
      * unfold view. simpl. rewrite lookup_alter_eq, Ha. simpl.
        apply window_overwrite_at. assumption.
      * intros t [Htlen Htarr]. split; [assumption|]. intros Htcap.
        destruct (Htarr Htcap) as (b & Hb & Hbc & Hbcap).
        destruct (decide (arr s = arr t)) as [Heq|Hne].
        -- rewrite <- Heq in *. rewrite Ha in Hb. injection Hb as <-.
           exists {| cells := overwrite (off s + len s) xs (cells a); capacity := capacity a |}.
           simpl. rewrite lookup_alter_eq, Ha. simpl.
           split; [reflexivity|]. simpl. split; [lia|assumption].
        -- exists b. simpl. rewrite lookup_alter_ne by assumption. auto.
      * intros t [Htlen Htarr] Hbeh. split.
        -- destruct (decide (len t = 0)) as [H0|H0].
           { rewrite !view_empty by assumption. reflexivity. }
           destruct (decide (arr s = arr t)) as [Heq|Hne].
           ++ unfold view. simpl. rewrite <- Heq, lookup_alter_eq, Ha. simpl.
              apply window_overwrite_before; [|assumption].
              apply Hbeh; [assumption|lia].
           ++ unfold view. simpl. rewrite lookup_alter_ne by assumption. reflexivity.
        -- unfold behind in *. simpl. intros Heq Hpos.
           specialize (Hbeh Heq Hpos). lia.
    + (* no capacity at all: nothing is written *)
      assert (len s = 0) by lia. assert (xs = []) as ->.
      { destruct xs; [reflexivity|]. simpl in Hfit. lia. }
      assert (Hid : forall k,
                 alter (fun a => {| cells := overwrite (off s + len s) [] (cells a);
                                    capacity := capacity a |}) (arr s) (arrays m) !! k
                 = arrays m !! k).
      { intros k. rewrite lookup_alter. case_decide; [|reflexivity].
        subst k. destruct (arrays m !! arr s) as [[c n]|]; simpl; [|reflexivity].
        rewrite overwrite_nil. reflexivity. }
      split; [|split; [|split]].
      * split; simpl; lia.
      * rewrite app_nil_r. rewrite !view_empty; simpl; auto with lia.
      * intros t [Htlen Htarr]. split; [assumption|]. intros Htcap.
        destruct (Htarr Htcap) as (b & Hb & Hbc). exists b. simpl. rewrite Hid. auto.
      * intros t _ Hbeh. split.
        -- unfold view. simpl. rewrite Hid. reflexivity.
        -- unfold behind in *. simpl. intros Heq Hpos.
           specialize (Hbeh Heq Hpos). lia.
  - (* beyond capacity: a new backing array *)
    set (a' := fresh (dom (arrays m))).
    assert (Hfresh : arrays m !! a' = None).
    { apply not_elem_of_dom. apply is_fresh. }
    eexists _, _. split; [reflexivity|]. simpl.
    split; [reflexivity|]. split; [reflexivity|]. split; [reflexivity|].
    split; [|split; [|split]].
    + split; simpl; [lia|]. intros _.
      exists {| cells := view m s ++ xs; capacity := len s + length xs + growth m (len s + length xs) |}.
      rewrite lookup_insert_eq. split; [reflexivity|]. simpl.
      rewrite length_app. lia.
    + unfold view at 1. simpl. rewrite lookup_insert_eq. simpl.
      rewrite drop_0. apply take_ge. rewrite length_app. lia.
    + intros t [Htlen Htarr]. split; [assumption|]. intros Htcap.
      destruct (Htarr Htcap) as (b & Hb & Hbc). exists b.
      simpl. rewrite lookup_insert_ne by congruence. auto.
    + intros t [Htlen Htarr] Hbeh.
      destruct (decide (len t = 0)) as [H0|H0].
      * rewrite !view_empty by assumption. split; [reflexivity|].
        unfold behind. simpl. lia.
      * destruct Htarr as (b & Hb & Hbc); [lia|].
        assert (a' <> arr t) by congruence. split.
        -- unfold view. simpl. rewrite lookup_insert_ne by assumption. reflexivity.
        -- unfold behind. simpl. intros Heq. fold a' in Heq. congruence.
Qed.

(** ** Running the primitives on the struct at [o] *)

Lemma updates_refl (o : loc) (m : Mem) (r : Options.t) :
  structs m !! o = Some r -> slice_ok m (Options.ZapOpts r) ->
  updates o m r m r [] [].
Proof.
  intros Hr Hok. split; auto.
  - symmetry. apply insert_id. assumption.
  - symmetry. apply app_nil_r.
  - symmetry. apply app_nil_r.
Qed.

Lemma updates_trans (o : loc) (m m1 m2 : Mem) (r r1 r2 : Options.t)
      (zs1 zs2 : list zap.Option) (e1 e2 : list Event) :
  updates o m r m1 r1 zs1 e1 -> updates o m1 r1 m2 r2 zs2 e2 ->
  updates o m r m2 r2 (zs1 ++ zs2) (e1 ++ e2).
Proof.
  intros [A1 A2 A3 A4 A5 A6 A7] [B1 B2 B3 B4 B5 B6 B7]. split.
  - rewrite B1, A1. apply insert_insert_eq.
  - rewrite B2, A2. symmetry. apply app_assoc.
  - congruence.
  - assumption.
  - rewrite B5, A5. symmetry. apply app_assoc.
  - auto.
  - intros t Ht Hb. destruct (A7 t Ht Hb) as [V1 Hb1].
    destruct (B7 t (A6 t Ht) Hb1) as [V2 Hb2]. split; [congruence|assumption].
Qed.

Lemma does_ret (o : loc) (r : Options.t) : does (ret tt) o r r [] [].
Proof.
  intros m s Hr Hs. exists m, s. split; [reflexivity|].
  apply updates_refl; assumption.
Qed.

Lemma does_seq (c1 c2 : M unit) (o : loc) (r r1 r2 : Options.t)
      (zs1 zs2 : list zap.Option) (e1 e2 : list Event) :
  does c1 o r r1 zs1 e1 -> does c2 o r1 r2 zs2 e2 ->
  does (c1 ;;; c2) o r r2 (zs1 ++ zs2) (e1 ++ e2).
Proof.
  intros H1 H2 m s Hr Hs.
  destruct (H1 m s Hr Hs) as (m1 & s1 & Hc1 & U1).
  destruct (H2 m1 s1) as (m2 & s2 & Hc2 & U2).
  { rewrite (upd_structs _ _ _ _ _ _ _ U1). apply lookup_insert_eq. }
  { apply (upd_ok _ _ _ _ _ _ _ U1). }
  exists m2, s2. split.
  - unfold bind. rewrite Hc1. assumption.
  - eapply updates_trans; eassumption.
Qed.

Lemma does_load (k : Options.t -> M unit) (o : loc) (r r' : Options.t)
      (zs : list zap.Option) (evs : list Event) :
  (forall s, does (k (Options.set_ZapOpts s r)) o r r' zs evs) ->
  does (let* x := load o in k x) o r r' zs evs.
Proof.
  intros Hk m s Hr Hs. unfold bind, load. rewrite Hr. apply (Hk s m s Hr Hs).
Qed.

Lemma does_modify (f : Options.t -> Options.t) (o : loc) (r r' : Options.t) :
  (forall s, f (Options.set_ZapOpts s r) = Options.set_ZapOpts s r') ->
  does (modify o f) o r r' [] [].
Proof.
  intros Hf m s Hr Hs. exists (set_structs (insert o (f (Options.set_ZapOpts s r))) m), s.
  split; [unfold modify; rewrite Hr; reflexivity|].
  rewrite Hf. split; simpl; auto.
  - symmetry. apply app_nil_r.
  - symmetry. apply app_nil_r.
Qed.

Lemma does_record (o : loc) (r : Options.t) (evs : list Event) :
  does (record evs) o r r [] evs.
Proof.
  intros m s Hr Hs. exists (set_calls (fun l => l ++ evs) m), s.
  split; [reflexivity|]. split; simpl; auto.
  - symmetry. apply insert_id. assumption.
  - symmetry. apply app_nil_r.
Qed.

Lemma does_appendZapOpts (o : loc) (r : Options.t) (xs : list zap.Option) :
  does (appendZapOpts o xs) o r r xs [].
Proof.
  intros m s Hr Hs.
  destruct (append_spec m s xs Hs) as (s' & m1 & Happ & E1 & E2 & E3 & Hok & Hv & Hsl & Hfr).
  exists (set_structs (insert o (Options.set_ZapOpts s' r)) m1), s'. split.
  - unfold appendZapOpts, bind, load, modify. rewrite Hr. simpl.
    rewrite Happ. rewrite E1, Hr. reflexivity.
  - split; simpl; auto.
    + congruence.
    + rewrite E2. symmetry. apply app_nil_r.
Qed.

Lemma does_update (f : Options.t -> Options.t) (o : loc) (r : Options.t) :
  (forall s x, f (Options.set_ZapOpts s x) = Options.set_ZapOpts s (f x)) ->
  does (modify o f) o r (f r) [] [].
Proof.
  intros Hf. apply does_modify. intros s. apply Hf.
Qed.

(** A library call that returns goes on with what it returned. *)
Lemma does_lift {A} (a : A) (k : A -> M unit) (o : loc) (r r' : Options.t)
      (zs : list zap.Option) (evs : list Event) :
  does (k a) o r r' zs evs -> does (let* x := lift (Some a) in k x) o r r' zs evs.
Proof. intros H. exact H. Qed.

#[local] Arguments bind : simpl never.
#[local] Arguments lift : simpl never.
#[local] Arguments load : simpl never.
#[local] Arguments modify : simpl never.
#[local] Arguments record : simpl never.
#[local] Arguments appendZapOpts : simpl never.
#[local] Arguments ret : simpl never.
#[local] Arguments panic : simpl never.

(** Symbolic execution of straight-line code on the struct at [o]. *)
Ltac run_step :=
  first
    [ apply does_ret
    | apply does_appendZapOpts
    | apply does_record
    | (apply does_update; intros ? ?; reflexivity)
    | (apply does_load; intros ?; simpl)
    | (apply does_lift; simpl)
    | eapply does_seq ].
Ltac run := repeat run_step.

(** ** The defaulting pass, field by field *)

Lemma addDefaults_does (o : loc) (r : Options.t) :
  ready r ->
  exists r' zs evs, does (addDefaults o) o r r' zs evs /\ defaulted r r' zs evs.
Proof.
  intros Hready. destruct r as [dev enc ecos ne dw lvl st s0].
  destruct dev, enc as [e|], ne as [f|], dw as [w|], lvl as [l|], st as [t|];
    try (destruct (Hready eq_refl l eq_refl) as [[|] El]);
    (eexists _, _, _; split;
     [ unfold addDefaults; run; simpl; try rewrite El; run
     | unfold defaulted; simpl;
       do 4 (split; [reflexivity|]);
       split; [eexists; do 3 (split; [reflexivity|]); simpl; rewrite ?app_nil_r; reflexivity|];
       lazymatch goal with
       | El : zapcore.Enabled _ _ = Some ?b |- _ => eexists _, b
       | _ => eexists _, false
       end;
       split; [reflexivity|]; split; [reflexivity|];
       split; [first [discriminate | intros _; assumption | intros _; reflexivity]|];
       simpl; rewrite ?app_nil_r; reflexivity ]).
Qed.

Lemma set_ZapOpts_same (r : Options.t) : Options.set_ZapOpts (Options.ZapOpts r) r = r.
Proof. destruct r. reflexivity. Qed.

Lemma does_run (c : M unit) (o : loc) (r r' : Options.t)
      (zs : list zap.Option) (evs : list Event) (m : Mem) :
  does c o r r' zs evs ->
  structs m !! o = Some r -> slice_ok m (Options.ZapOpts r) ->
  exists m' s', c m = Some (tt, m') /\ updates o m r m' (Options.set_ZapOpts s' r') zs evs.
Proof.
  intros Hc Hr Hs. specialize (Hc m (Options.ZapOpts r)).
  rewrite set_ZapOpts_same in Hc. auto.
Qed.

Lemma defaulted_slice (r r' : Options.t) (zs : list zap.Option) (evs : list Event) (s : Slice) :
  defaulted r r' zs evs -> defaulted r (Options.set_ZapOpts s r') zs evs.
Proof. intros H. exact H. Qed.

(** [addDefaults] returns, and leaves what [defaulted] says. *)
Lemma addDefaults_run (m : Mem) (o : loc) (r : Options.t) :
  structs m !! o = Some r -> slice_ok m (Options.ZapOpts r) -> ready r ->
  exists m' r' zs evs,
    addDefaults o m = Some (tt, m') /\
    updates o m r m' r' zs evs /\ defaulted r r' zs evs.
Proof.
  intros Hr Hs Hready.
  destruct (addDefaults_does o r Hready) as (r' & zs & evs & Hd & Hf).
  destruct (does_run _ _ _ _ _ _ m Hd Hr Hs) as (m' & s' & Hrun & Hu).
  exists m', (Options.set_ZapOpts s' r'), zs, evs.
  split; [assumption|]. split; [assumption|]. apply defaulted_slice. assumption.
Qed.

Lemma appendZapOpts_run (m : Mem) (o : loc) (r : Options.t) (xs : list zap.Option) :
  structs m !! o = Some r -> slice_ok m (Options.ZapOpts r) ->
  exists m' s',
    appendZapOpts o xs m = Some (tt, m') /\
    updates o m r m' (Options.set_ZapOpts s' r) xs [].
Proof. apply does_run. apply does_appendZapOpts. Qed.

Lemma updates_lookup (o : loc) (m m' : Mem) (r r' : Options.t)
      (zs : list zap.Option) (evs : list Event) :
  updates o m r m' r' zs evs -> structs m' !! o = Some r'.
Proof. intros U. rewrite (upd_structs _ _ _ _ _ _ _ U). apply lookup_insert_eq. Qed.

Lemma updates_others (o : loc) (m m' : Mem) (r r' : Options.t)
      (zs : list zap.Option) (evs : list Event) (p : loc) :
  updates o m r m' r' zs evs -> p <> o -> structs m' !! p = structs m !! p.
Proof.
  intros U Hp. rewrite (upd_structs _ _ _ _ _ _ _ U). apply lookup_insert_ne. congruence.
Qed.

Lemma updates_mem_ok (o : loc) (m m' : Mem) (r r' : Options.t)
      (zs : list zap.Option) (evs : list Event) :
  updates o m r m' r' zs evs -> mem_ok m -> mem_ok m'.
Proof.
  intros U Hm p x Hx. destruct (decide (p = o)) as [->|Hp].
  - rewrite (updates_lookup _ _ _ _ _ _ _ U) in Hx. injection Hx as <-.
    apply (upd_ok _ _ _ _ _ _ _ U).
  - rewrite (updates_others _ _ _ _ _ _ _ p U Hp) in Hx.
    apply (upd_slices _ _ _ _ _ _ _ U). eapply Hm. eassumption.
Qed.

(** ** Running the setters *)

Lemma configured_refl (o : loc) (m : Mem) :
  mem_ok m -> is_Some (structs m !! o) -> configured o m m.
Proof. intros Hm Ho. split; auto. Qed.

Lemma configured_trans (o : loc) (m m1 m2 : Mem) :
  configured o m m1 -> configured o m1 m2 -> configured o m m2.
Proof.
  intros [A1 A2 A3 A4] [B1 B2 B3 B4]. split; auto.
  - intros p Hp. rewrite B3, A3; auto.
  - congruence.
Qed.

Lemma updates_configured (o : loc) (m m' : Mem) (r r' : Options.t)
      (zs : list zap.Option) (evs : list Event) :
  mem_ok m -> updates o m r m' r' zs evs -> configured o m m'.
Proof.
  intros Hm U. split.
  - eapply updates_mem_ok; eassumption.
  - rewrite (updates_lookup _ _ _ _ _ _ _ U). eauto.
  - intros p Hp. eapply updates_others; eassumption.
  - apply (upd_growth _ _ _ _ _ _ _ U).
Qed.

Lemma valid_configured (o : loc) (m m' : Mem) (opt : Opts) :
  configured o m m' -> valid m opt -> valid m' opt.
Proof.
  intros C. destruct opt; simpl; auto. intros Hin.
  destruct (decide (in_ = o)) as [->|Hp].
  - apply (cfg_here _ _ _ C).
  - rewrite (cfg_others _ _ _ C) by assumption. assumption.
Qed.

Lemma call_run (m : Mem) (o : loc) (opt : Opts) :
  mem_ok m -> is_Some (structs m !! o) -> valid m opt ->
  exists m', call opt o m = Some (tt, m') /\ configured o m m'.
Proof.
  intros Hm [r Hr] Hv. pose proof (Hm o r Hr) as Hs.
  assert (Hdoes : forall c r' zs evs,
             does c o r r' zs evs -> exists m', c m = Some (tt, m') /\ configured o m m').
  { intros c r' zs evs Hc.
    destruct (does_run _ _ _ _ _ _ m Hc Hr Hs) as (m' & s' & Hrun & U).
    exists m'. split; [assumption|]. eapply updates_configured; eassumption. }
  destruct opt; simpl in *; try contradiction;
    try (eapply Hdoes; run; fail).
  (* [*o = *in] replaces the whole struct *)
  destruct Hv as [rin Hin].
  exists (set_structs (insert o rin) m). split.
  - unfold bind, load, modify. rewrite Hin, Hr. reflexivity.
  - split; simpl.
    + intros p x Hx. simpl in Hx. destruct (decide (p = o)) as [->|Hp].
      * rewrite lookup_insert_eq in Hx. injection Hx as <-. exact (Hm _ _ Hin).
      * rewrite lookup_insert_ne in Hx by congruence. exact (Hm _ _ Hx).
    + rewrite lookup_insert_eq. eauto.
    + intros p Hp. apply lookup_insert_ne. congruence.
    + reflexivity.
Qed.

Lemma forEach_run (opts : list Opts) (m : Mem) (o : loc) :
  mem_ok m -> is_Some (structs m !! o) -> Forall (valid m) opts ->
  exists m', forEach opts (fun opt => call opt o) m = Some (tt, m') /\ configured o m m'.
Proof.
  revert m. induction opts as [|opt opts IH]; intros m Hm Ho Hv.
  - exists m. split; [reflexivity|]. apply configured_refl; assumption.
  - inversion Hv as [|? ? Hopt Hrest]; subst.
    destruct (call_run m o opt Hm Ho Hopt) as (m1 & Hc & C1).
    destruct (IH m1) as (m2 & Hf & C2).
    + apply (cfg_ok _ _ _ C1).
    + apply (cfg_here _ _ _ C1).
    + eapply Forall_impl; [eassumption|]. intros x. apply (valid_configured o). assumption.
    + exists m2. split.
      * simpl. unfold bind. rewrite Hc. assumption.
      * eapply configured_trans; eassumption.
Qed.

(** ** Running [NewRaw] *)

Lemma mem_ok_new (m : Mem) :
  mem_ok m ->
  let o := fresh (dom (structs m)) in
  structs m !! o = None /\
  mem_ok (set_structs (insert o Options.zero) m) /\
  (forall opt, valid m opt -> valid (set_structs (insert o Options.zero) m) opt).
Proof.
  intros Hm o.
  assert (Ho : structs m !! o = None) by (apply not_elem_of_dom, is_fresh).
  split; [assumption|]. split.
  - intros p x Hx. simpl in Hx. destruct (decide (p = o)) as [->|Hp].
    + rewrite lookup_insert_eq in Hx. injection Hx as <-.
      split; simpl; [lia|]. intros H. inversion H.
    + rewrite lookup_insert_ne in Hx by congruence. exact (Hm _ _ Hx).
  - intros opt. destruct opt; simpl; auto. intros Hin.
    rewrite lookup_insert_ne; [assumption|]. intros ->. rewrite Ho in Hin.
    destruct Hin as [? Hin]. discriminate Hin.
Qed.

(** The setters of [NewRaw] return, on the struct it has allocated. *)
Lemma setters_run (opts : list Opts) (m : Mem) :
  mem_ok m -> Forall (valid m) opts ->
  let o := fresh (dom (structs m)) in
  let m0 := set_structs (insert o Options.zero) m in
  exists m1 r1,
    forEach opts (fun opt => call opt o) m0 = Some (tt, m1) /\
    configured o m0 m1 /\
    structs m1 !! o = Some r1.
Proof.
  intros Hm Hv o m0.
  destruct (mem_ok_new m Hm) as (Hfresh & Hm0 & Hv0). fold o in Hfresh, Hm0, Hv0. fold m0 in Hm0, Hv0.
  assert (Ho0 : is_Some (structs m0 !! o)).
  { unfold m0. simpl. rewrite lookup_insert_eq. eauto. }
  destruct (forEach_run opts m0 o Hm0 Ho0) as (m1 & Hset & C).
  { eapply Forall_impl; [eassumption|]. exact Hv0. }
  destruct (cfg_here _ _ _ C) as [r1 Hr1].
  exists m1, r1. auto.
Qed.

(** ** Options that are not nil *)

Lemma WithOptions_run (log : zap.Logger) (zs : list zap.Option) :
  zap.Nil ∉ zs -> zap.Logger_WithOptions log zs = Some (zap.WithOptions log zs).
Proof.
  intros Hn. unfold zap.Logger_WithOptions.
  destruct (existsb zap.isNil zs) eqn:E; [|reflexivity].
  apply existsb_exists in E as (z & Hin & Hz).
  destruct z; try discriminate Hz. apply list_elem_of_In in Hin. contradiction.
Qed.

Lemma defaulted_no_nil (r r' : Options.t) (zs : list zap.Option) (evs : list Event) :
  defaulted r r' zs evs -> zap.Nil ∉ zs.
Proof.
  intros (_ & _ & _ & _ & _ & (l & b & _ & _ & _ & ->)).
  destruct (Options.Development r); [|destruct b]; simpl;
    rewrite ?not_elem_of_cons; repeat split; try discriminate; apply not_elem_of_nil.
Qed.

(** ** Levels that answer, options that are not nil *)

Lemma slice_ok_nil (m : Mem) : slice_ok m nilSlice.
Proof. split; simpl; [lia|]. intros H. inversion H. Qed.

Lemma answers_None : answers None.
Proof. intros l H. discriminate H. Qed.

Lemma answers_Level (l : zapcore.Level) : answers (Some (zapcore.OfLevel l)).
Proof. intros e H. injection H as <-. simpl. eauto. Qed.

Lemma answers_AtomicLevel (l : zapcore.Level) : answers (Some (zap.NewAtomicLevelAt l)).
Proof. intros e H. injection H as <-. simpl. eauto. Qed.

Lemma ready_production (r : Options.t) : answers (Options.Level r) -> ready r.
Proof. intros H _. exact H. Qed.

Lemma ready_development (r : Options.t) : Options.Development r = true -> ready r.
Proof. intros H E. rewrite H in E. discriminate E. Qed.

Lemma no_nil (zs : list zap.Option) : existsb zap.isNil zs = false -> zap.Nil ∉ zs.
Proof.
  intros E Hin. apply list_elem_of_In in Hin.
  assert (H : existsb zap.isNil zs = true).
  { apply existsb_exists. exists zap.Nil. split; [assumption|reflexivity]. }
  rewrite E in H. discriminate H.
Qed.

(** ** The claims about the defaulting pass *)

(** C1, as the spec words it, fails: with [Development] false and a
    [StacktraceLevel] already set to the info level, the defaulting pass
    leaves the info-level stack-trace threshold, not an error-level one. *)
Lemma production_keeps_preset_stacktrace_level :
  let r := Options.set_StacktraceLevel (Some (zap.NewAtomicLevelAt zap.InfoLevel))
             Options.zero in
  Options.Development r = false /\
  exists m' r',
    addDefaults 1 (holding r) = Some (tt, m') /\
    structs m' !! 1 = Some r' /\
    Options.StacktraceLevel r' = Some (zap.NewAtomicLevelAt zap.InfoLevel) /\
    Options.StacktraceLevel r' <> Some (zap.NewAtomicLevelAt zap.ErrorLevel).
Proof.
  split; [reflexivity|].
  eexists _, _. split; [vm_compute; reflexivity|].
  split; [vm_compute; reflexivity|].
  split; [reflexivity|]. simpl. discriminate.
Qed.

(** C1, amended: with [Development] false and a [Level] that, when set,
    answers [Enabled(-2)], the defaulting pass returns and gives each of
    [NewEncoder], [Level] and [StacktraceLevel] that is nil the JSON encoder
    constructor, the info level and the error level; it appends to [ZapOpts]
    a core wrapper that samples with a one-second tick, 100 first and 100
    thereafter, unless the level it leaves enables zap level -2, and then
    the stack-trace option, and nothing else. *)
Theorem addDefaults_production (m : Mem) (o : loc) (r : Options.t) :
  structs m !! o = Some r -> slice_ok m (Options.ZapOpts r) ->
  Options.Development r = false -> answers (Options.Level r) ->
  exists m' r',
    addDefaults o m = Some (tt, m') /\
    structs m' !! o = Some r' /\
    (Options.NewEncoder r = None -> Options.NewEncoder r' = Some newJSONEncoder) /\
    (Options.Level r = None ->
     Options.Level r' = Some (zap.NewAtomicLevelAt zap.InfoLevel)) /\
    (Options.StacktraceLevel r = None ->
     Options.StacktraceLevel r' = Some (zap.NewAtomicLevelAt zap.ErrorLevel)) /\
    exists l enabled,
      Options.Level r' = Some l /\
      zapcore.Enabled l (-2)%Z = Some enabled /\
      view m' (Options.ZapOpts r') =
        view m (Options.ZapOpts r)
          ++ (if enabled then []
              else [zap.WrapCore (fun core => zapcore.NewSampler core time.Second 100 100)])
          ++ [zap.AddStacktrace (Options.StacktraceLevel r')].
Proof.
  intros Hr Hs Hdev Hl0.
  destruct (addDefaults_run m o r Hr Hs (ready_production r Hl0))
    as (m' & r' & zs & evs & Hrun & U & D).
  exists m', r'. split; [assumption|].
  split; [eapply updates_lookup; eassumption|].
  destruct D as (D1 & D2 & D3 & D4 & (f & Hf & D5 & D6 & D7) & (l & b & Hl & D8 & Db & D9)).
  rewrite Hdev in *.
  split; [intros H; rewrite D5, Hf, H; reflexivity|].
  split; [intros H; rewrite D8, Hl, H; reflexivity|].
  split; [intros H; rewrite D4, H; reflexivity|].
  exists l, b. split; [assumption|]. split; [apply Db; reflexivity|].
  rewrite (upd_view _ _ _ _ _ _ _ U), D9. reflexivity.
Qed.

Lemma addDefaults_production_witness :
  exists m' r',
    addDefaults 1 (holding Options.zero) = Some (tt, m') /\
    structs m' !! 1 = Some r' /\
    (Options.NewEncoder Options.zero = None ->
     Options.NewEncoder r' = Some newJSONEncoder) /\
    (Options.Level Options.zero = None ->
     Options.Level r' = Some (zap.NewAtomicLevelAt zap.InfoLevel)) /\
    (Options.StacktraceLevel Options.zero = None ->
     Options.StacktraceLevel r' = Some (zap.NewAtomicLevelAt zap.ErrorLevel)) /\
    exists l enabled,
      Options.Level r' = Some l /\
      zapcore.Enabled l (-2)%Z = Some enabled /\
      view m' (Options.ZapOpts r') =
        view (holding Options.zero) (Options.ZapOpts Options.zero)
          ++ (if enabled then []
              else [zap.WrapCore (fun core => zapcore.NewSampler core time.Second 100 100)])
          ++ [zap.AddStacktrace (Options.StacktraceLevel r')].
Proof.
  apply (addDefaults_production (holding Options.zero) 1 Options.zero).
  - reflexivity.
  - apply slice_ok_nil.
  - reflexivity.
  - intros l H. discriminate H.
Defined.

(** C2, as the spec words it, fails: with [Development] true and a
    [StacktraceLevel] already set to the error level, the defaulting pass
    leaves the error-level stack-trace threshold, not a warn-level one. *)
Lemma development_keeps_preset_stacktrace_level :
  let r := Options.set_Development true
             (Options.set_StacktraceLevel (Some (zap.NewAtomicLevelAt zap.ErrorLevel))
                Options.zero) in
  Options.Development r = true /\
  exists m' r',
    addDefaults 1 (holding r) = Some (tt, m') /\
    structs m' !! 1 = Some r' /\
    Options.StacktraceLevel r' = Some (zap.NewAtomicLevelAt zap.ErrorLevel) /\
    Options.StacktraceLevel r' <> Some (zap.NewAtomicLevelAt zap.WarnLevel).
Proof.
  split; [reflexivity|].
  eexists _, _. split; [vm_compute; reflexivity|].
  split; [vm_compute; reflexivity|].
  split; [reflexivity|]. simpl. discriminate.
Qed.

(** C2, amended: with [Development] true, the defaulting pass returns and
    gives each of [NewEncoder], [Level] and [StacktraceLevel] that is nil the
    console encoder constructor, the debug level and the warn level; it
    appends to [ZapOpts] the [zap.Development()] option and then the
    stack-trace option, and nothing else: no sampling wrapper. *)
Theorem addDefaults_development (m : Mem) (o : loc) (r : Options.t) :
  structs m !! o = Some r -> slice_ok m (Options.ZapOpts r) ->
  Options.Development r = true ->
  exists m' r',
    addDefaults o m = Some (tt, m') /\
    structs m' !! o = Some r' /\
    (Options.NewEncoder r = None -> Options.NewEncoder r' = Some newConsoleEncoder) /\
    (Options.Level r = None ->
     Options.Level r' = Some (zap.NewAtomicLevelAt zap.DebugLevel)) /\
    (Options.StacktraceLevel r = None ->
     Options.StacktraceLevel r' = Some (zap.NewAtomicLevelAt zap.WarnLevel)) /\
    view m' (Options.ZapOpts r') =
      view m (Options.ZapOpts r)
        ++ [zap.Development; zap.AddStacktrace (Options.StacktraceLevel r')].
Proof.
  intros Hr Hs Hdev.
  destruct (addDefaults_run m o r Hr Hs (ready_development r Hdev))
    as (m' & r' & zs & evs & Hrun & U & D).
  exists m', r'. split; [assumption|].
  split; [eapply updates_lookup; eassumption|].
  destruct D as (D1 & D2 & D3 & D4 & (f & Hf & D5 & D6 & D7) & (l & b & Hl & D8 & Db & D9)).
  rewrite Hdev in *.
  split; [intros H; rewrite D5, Hf, H; reflexivity|].
  split; [intros H; rewrite D8, Hl, H; reflexivity|].
  split; [intros H; rewrite D4, H; reflexivity|].
  rewrite (upd_view _ _ _ _ _ _ _ U), D9. reflexivity.
Qed.

Lemma addDefaults_development_witness :
  let r := Options.set_Development true Options.zero in
  exists m' r',
    addDefaults 1 (holding r) = Some (tt, m') /\
    structs m' !! 1 = Some r' /\
    (Options.NewEncoder r = None -> Options.NewEncoder r' = Some newConsoleEncoder) /\
    (Options.Level r = None ->
     Options.Level r' = Some (zap.NewAtomicLevelAt zap.DebugLevel)) /\
    (Options.StacktraceLevel r = None ->
     Options.StacktraceLevel r' = Some (zap.NewAtomicLevelAt zap.WarnLevel)) /\
    view m' (Options.ZapOpts r') =
      view (holding r) (Options.ZapOpts r)
        ++ [zap.Development; zap.AddStacktrace (Options.StacktraceLevel r')].
Proof.
  apply (addDefaults_development
           (holding (Options.set_Development true Options.zero)) 1
           (Options.set_Development true Options.zero)).
  - reflexivity.
  - apply slice_ok_nil.
  - reflexivity.
Defined.

(** C8: on a struct that is ready for it (in production mode a [Level] that
    is set answers [Enabled(-2)]), the defaulting pass returns, and each of
    [DestWritter], [NewEncoder], [Level], [StacktraceLevel] and [Encoder]
    that is non-nil on entry has the same value afterwards, whatever
    [Development] is. *)
Theorem addDefaults_keeps_set_fields (m : Mem) (o : loc) (r : Options.t) :
  structs m !! o = Some r -> slice_ok m (Options.ZapOpts r) -> ready r ->
  exists m' r',
    addDefaults o m = Some (tt, m') /\
    structs m' !! o = Some r' /\
    (forall w, Options.DestWritter r = Some w -> Options.DestWritter r' = Some w) /\
    (forall f, Options.NewEncoder r = Some f -> Options.NewEncoder r' = Some f) /\
    (forall l, Options.Level r = Some l -> Options.Level r' = Some l) /\
    (forall l, Options.StacktraceLevel r = Some l -> Options.StacktraceLevel r' = Some l) /\
    (forall e, Options.Encoder r = Some e -> Options.Encoder r' = Some e).
Proof.
  intros Hr Hs Hready.
  destruct (addDefaults_run m o r Hr Hs Hready) as (m' & r' & zs & evs & Hrun & U & D).
  exists m', r'. split; [assumption|].
  split; [eapply updates_lookup; eassumption|].
  destruct D as (D1 & D2 & D3 & D4 & (f & Hf & D5 & D6 & D7) & (l & b & Hl & D8 & Db & D9)).
  split; [intros w H; rewrite D3, H; reflexivity|].
  split; [intros g H; rewrite D5, Hf, H; reflexivity|].
  split; [intros k H; rewrite D8, Hl, H; reflexivity|].
  split; [intros k H; rewrite D4, H; reflexivity|].
  intros e H. rewrite D6, H. reflexivity.
Qed.

Lemma addDefaults_keeps_set_fields_witness :
  let r := Options.set_Development false allSet in
  exists m' r',
    addDefaults 1 (holding r) = Some (tt, m') /\
    structs m' !! 1 = Some r' /\
    (forall w, Options.DestWritter r = Some w -> Options.DestWritter r' = Some w) /\
    (forall f, Options.NewEncoder r = Some f -> Options.NewEncoder r' = Some f) /\
    (forall l, Options.Level r = Some l -> Options.Level r' = Some l) /\
    (forall l, Options.StacktraceLevel r = Some l -> Options.StacktraceLevel r' = Some l) /\
    (forall e, Options.Encoder r = Some e -> Options.Encoder r' = Some e).
Proof.
  intros r. apply (addDefaults_keeps_set_fields (holding r) 1 r).
  - reflexivity.
  - apply slice_ok_nil.
  - apply ready_production. apply answers_Level.
Defined.

(** ** Running [NewRaw] *)

Lemma mem_ok_startup : mem_ok startup.
Proof. intros p r H. simpl in H. rewrite lookup_empty in H. discriminate H. Qed.

Lemma mem_ok_holding (r : Options.t) : Options.ZapOpts r = nilSlice -> mem_ok (holding r).
Proof.
  intros Hz p x Hx. unfold holding in Hx. simpl in Hx.
  destruct (decide (p = 1)) as [->|Hp].
  - rewrite lookup_insert_eq in Hx. injection Hx as <-. rewrite Hz. apply slice_ok_nil.
  - rewrite lookup_insert_ne, lookup_empty in Hx by congruence. discriminate Hx.
Qed.

Lemma mem_ok_withRoom (r : Options.t) : mem_ok (withRoom r).
Proof.
  intros p x Hx. unfold withRoom, holding in Hx. simpl in Hx.
  destruct (decide (p = 1)) as [->|Hp].
  - rewrite lookup_insert_eq in Hx. injection Hx as <-.
    split; simpl; [lia|]. intros _.
    exists {| cells := [zap.AddCallerSkip 2]; capacity := 4 |}.
    split; [reflexivity|]. simpl. lia.
  - rewrite lookup_insert_ne, lookup_empty in Hx by congruence. discriminate Hx.
Qed.

Lemma bind_Some {A B} (c : M A) (k : A -> M B) (m m' : Mem) (a : A) :
  c m = Some (a, m') -> bind c k m = k a m'.
Proof. intros H. unfold bind. rewrite H. reflexivity. Qed.

Lemma bind_inv {A B} (c : M A) (k : A -> M B) (m m' : Mem) (b : B) :
  bind c k m = Some (b, m') -> exists a m1, c m = Some (a, m1) /\ k a m1 = Some (b, m').
Proof.
  unfold bind. destruct (c m) as [[a m1]|]; [|discriminate]. eauto.
Qed.

Lemma load_run (m : Mem) (o : loc) (r : Options.t) :
  structs m !! o = Some r -> load o m = Some (r, m).
Proof. intros H. unfold load. rewrite H. reflexivity. Qed.

Lemma modify_run (m : Mem) (o : loc) (r : Options.t) (f : Options.t -> Options.t) :
  structs m !! o = Some r -> modify o f m = Some (tt, set_structs (insert o (f r)) m).
Proof. intros H. unfold modify. rewrite H. reflexivity. Qed.

Lemma forEach_app {A} (l1 l2 : list A) (body : A -> M unit) (m : Mem) :
  forEach (l1 ++ l2) body m = (forEach l1 body ;;; forEach l2 body) m.
Proof.
  revert m. induction l1 as [|x l1 IH]; intros m; simpl.
  - reflexivity.
  - unfold bind. destruct (body x m) as [[[] m1]|]; [|reflexivity].
    rewrite IH. reflexivity.
Qed.

(** What [configure] returns: the address is the fresh one, the setters have
    run on the zero struct there, and the struct is the one they left. *)
Lemma configure_inv (opts : list Opts) (m : Mem) (o : loc) (r1 : Options.t) (m1 : Mem) :
  configure opts m = Some ((o, r1), m1) ->
  o = fresh (dom (structs m)) /\
  forEach opts (fun opt => call opt o) (set_structs (insert o Options.zero) m) = Some (tt, m1) /\
  structs m1 !! o = Some r1.
Proof.
  intros H. unfold configure in H.
  apply bind_inv in H as (o0 & m0 & Hnew & H).
  apply bind_inv in H as ([] & m1' & Hfor & H).
  apply bind_inv in H as (r & m1'' & Hload & H).
  unfold ret in H. injection H as <- <- <-.
  unfold new in Hnew. injection Hnew as <- <-.
  unfold load in Hload. destruct (structs m1' !! _) eqn:E; [|discriminate Hload].
  injection Hload as <- <-. auto.
Qed.

Lemma configure_eq (opts : list Opts) (m : Mem) (r1 : Options.t) (m1 : Mem) :
  let o := fresh (dom (structs m)) in
  forEach opts (fun opt => call opt o) (set_structs (insert o Options.zero) m) = Some (tt, m1) ->
  structs m1 !! o = Some r1 ->
  configure opts m = Some ((o, r1), m1).
Proof.
  intros o Hfor Hr1. unfold configure, bind, new. fold o. rewrite Hfor.
  unfold load. rewrite Hr1. reflexivity.
Qed.

(** [configure] is where [NewRaw] stands when its setters are done: from
    there [NewRaw] runs the defaulting pass and builds the logger. *)
Lemma NewRaw_after_configure (opts : list Opts) (m : Mem) (o : loc) (r1 : Options.t)
      (m1 : Mem) :
  configure opts m = Some ((o, r1), m1) ->
  NewRaw opts m =
    (addDefaults o ;;;
     let* r := load o in
     let sink := zapcore.AddSync (Options.DestWritter r) in
     appendZapOpts o [zap.AddCallerSkip 1; zap.ErrorOutput sink] ;;;
     let* r := load o in
     let log := zap.New (zapcore.NewCore
                           (Some (KubeAwareEncoder (Options.Encoder r) (Options.Development r)))
                           sink (Options.Level r)) in
     let* zs := elements (Options.ZapOpts r) in
     lift (zap.Logger_WithOptions log zs)) m1.
Proof.
  intros H. apply configure_inv in H as (-> & Hfor & _).
  unfold NewRaw. erewrite bind_Some by reflexivity.
  erewrite bind_Some by exact Hfor. reflexivity.
Qed.

(** The setters of the package return. *)
Lemma configure_run (opts : list Opts) (m : Mem) :
  mem_ok m -> Forall (valid m) opts ->
  exists o r1 m1, configure opts m = Some ((o, r1), m1).
Proof.
  intros Hm Hv. destruct (setters_run opts m Hm Hv) as (m1 & r1 & Hset & _ & Hr1).
  exists (fresh (dom (structs m))), r1, m1. apply configure_eq; assumption.
Qed.

(** The memory in which the setters of the package leave their struct. *)
Lemma configure_ok (opts : list Opts) (m : Mem) (o : loc) (r1 : Options.t) (m1 : Mem) :
  mem_ok m -> Forall (valid m) opts ->
  configure opts m = Some ((o, r1), m1) ->
  o = fresh (dom (structs m)) /\ structs m !! o = None /\
  structs m1 !! o = Some r1 /\ mem_ok m1 /\ others_kept m m1 o.
Proof.
  intros Hm Hv Hcfg. destruct (configure_inv _ _ _ _ _ Hcfg) as (-> & Hfor & Hr1).
  destruct (setters_run opts m Hm Hv) as (m1' & r1' & Hset & C & _).
  rewrite Hset in Hfor. injection Hfor as ->.
  destruct (mem_ok_new m Hm) as (Hfresh & _ & _).
  split; [reflexivity|]. split; [assumption|]. split; [assumption|].
  split; [apply (cfg_ok _ _ _ C)|].
  intros p Hp. rewrite (cfg_others _ _ _ C) by assumption. simpl.
  apply lookup_insert_ne. congruence.
Qed.

(** From the struct its setters leave, when it is ready for the defaulting
    pass, [NewRaw] comes to its last statement, the call of [WithOptions]:
    [m2] and [r2] are the memory and the struct when the defaults are in,
    [m3] is the memory at the end. *)
Lemma NewRaw_reaches (opts : list Opts) (m : Mem) (o : loc) (r1 : Options.t) (m1 : Mem) :
  configure opts m = Some ((o, r1), m1) ->
  slice_ok m1 (Options.ZapOpts r1) -> ready r1 ->
  exists m2 r2 zs evs m3 s3,
    addDefaults o m1 = Some (tt, m2) /\
    updates o m1 r1 m2 r2 zs evs /\
    defaulted r1 r2 zs evs /\
    updates o m2 r2 m3 (Options.set_ZapOpts s3 r2)
            [zap.AddCallerSkip 1;
             zap.ErrorOutput (zapcore.AddSync (Options.DestWritter r2))] [] /\
    NewRaw opts m =
      lift (zap.Logger_WithOptions
              (zap.New (zapcore.NewCore
                          (Some (KubeAwareEncoder (Options.Encoder r2) (Options.Development r2)))
                          (zapcore.AddSync (Options.DestWritter r2)) (Options.Level r2)))
              (view m1 (Options.ZapOpts r1) ++ zs
                 ++ [zap.AddCallerSkip 1;
                     zap.ErrorOutput (zapcore.AddSync (Options.DestWritter r2))]))
           m3.
Proof.
  intros Hcfg Hs1 Hready.
  destruct (configure_inv _ _ _ _ _ Hcfg) as (_ & _ & Hr1).
  destruct (addDefaults_run m1 o r1 Hr1 Hs1 Hready) as (m2 & r2 & zs & evs & Hadd & U2 & D).
  pose proof (updates_lookup _ _ _ _ _ _ _ U2) as Hr2.
  destruct (appendZapOpts_run m2 o r2
              [zap.AddCallerSkip 1; zap.ErrorOutput (zapcore.AddSync (Options.DestWritter r2))]
              Hr2 (upd_ok _ _ _ _ _ _ _ U2)) as (m3 & s3 & Happ & U3).
  pose proof (updates_lookup _ _ _ _ _ _ _ U3) as Hr3.
  exists m2, r2, zs, evs, m3, s3.
  do 4 (split; [assumption|]).
  rewrite (NewRaw_after_configure _ _ _ _ _ Hcfg).
  erewrite bind_Some by exact Hadd.
  erewrite bind_Some by (apply load_run; exact Hr2).
  erewrite bind_Some by exact Happ.
  erewrite bind_Some by (apply load_run; exact Hr3).
  erewrite bind_Some by reflexivity.
  pose proof (upd_view _ _ _ _ _ _ _ U3) as V3.
  pose proof (upd_view _ _ _ _ _ _ _ U2) as V2.
  rewrite V3, V2, <- app_assoc. reflexivity.
Qed.

(** When moreover none of the options is nil, [NewRaw] returns. *)
Lemma NewRaw_tail (opts : list Opts) (m : Mem) (o : loc) (r1 : Options.t) (m1 : Mem) :
  configure opts m = Some ((o, r1), m1) ->
  slice_ok m1 (Options.ZapOpts r1) -> buildable m1 r1 ->
  exists m2 r2 zs evs m3 s3,
    addDefaults o m1 = Some (tt, m2) /\
    updates o m1 r1 m2 r2 zs evs /\
    defaulted r1 r2 zs evs /\
    updates o m2 r2 m3 (Options.set_ZapOpts s3 r2)
            [zap.AddCallerSkip 1;
             zap.ErrorOutput (zapcore.AddSync (Options.DestWritter r2))] [] /\
    NewRaw opts m =
      Some (zap.WithOptions
              (zap.New (zapcore.NewCore
                          (Some (KubeAwareEncoder (Options.Encoder r2) (Options.Development r2)))
                          (zapcore.AddSync (Options.DestWritter r2)) (Options.Level r2)))
              (view m1 (Options.ZapOpts r1) ++ zs
                 ++ [zap.AddCallerSkip 1;
                     zap.ErrorOutput (zapcore.AddSync (Options.DestWritter r2))]),
            m3).
Proof.
  intros Hcfg Hs1 [Hready Hnil].
  destruct (NewRaw_reaches opts m o r1 m1 Hcfg Hs1 Hready)
    as (m2 & r2 & zs & evs & m3 & s3 & Hadd & U2 & D & U3 & Hnew).
  exists m2, r2, zs, evs, m3, s3.
  do 4 (split; [assumption|]).
  rewrite Hnew. unfold lift. rewrite WithOptions_run; [reflexivity|].
  rewrite !not_elem_of_app. split; [assumption|]. split.
  - eapply defaulted_no_nil. eassumption.
  - rewrite !not_elem_of_cons. repeat split; try discriminate. apply not_elem_of_nil.
Qed.

(** The same, for setters of the package. *)
Lemma NewRaw_from (opts : list Opts) (m : Mem) (o : loc) (r1 : Options.t) (m1 : Mem) :
  mem_ok m -> Forall (valid m) opts ->
  configure opts m = Some ((o, r1), m1) -> buildable m1 r1 ->
  (o = fresh (dom (structs m)) /\ structs m !! o = None /\
   structs m1 !! o = Some r1 /\ mem_ok m1 /\ others_kept m m1 o) /\
  exists m2 r2 zs evs m3 s3,
    addDefaults o m1 = Some (tt, m2) /\
    updates o m1 r1 m2 r2 zs evs /\
    defaulted r1 r2 zs evs /\
    updates o m2 r2 m3 (Options.set_ZapOpts s3 r2)
            [zap.AddCallerSkip 1;
             zap.ErrorOutput (zapcore.AddSync (Options.DestWritter r2))] [] /\
    NewRaw opts m =
      Some (zap.WithOptions
              (zap.New (zapcore.NewCore
                          (Some (KubeAwareEncoder (Options.Encoder r2) (Options.Development r2)))
                          (zapcore.AddSync (Options.DestWritter r2)) (Options.Level r2)))
              (view m1 (Options.ZapOpts r1) ++ zs
                 ++ [zap.AddCallerSkip 1;
                     zap.ErrorOutput (zapcore.AddSync (Options.DestWritter r2))]),
            m3).
Proof.
  intros Hm Hv Hcfg Hb.
  pose proof (configure_ok opts m o r1 m1 Hm Hv Hcfg) as Hok.
  split; [exact Hok|].
  destruct Hok as (_ & _ & Hr1 & Hm1 & _).
  apply NewRaw_tail; [assumption| |assumption]. exact (Hm1 o r1 Hr1).
Qed.

(** ** What the setters choose *)

Lemma valid_field_setters (m : Mem) (opts : list Opts) :
  Forall (fun opt => target opt <> None) opts -> Forall (valid m) opts.
Proof.
  intros H. eapply Forall_impl; [exact H|].
  intros opt Ht. destruct opt; simpl in *; auto; contradiction.
Qed.

Lemma does_eq (c : M unit) (o : loc) (r r' : Options.t)
      (zs zs' : list zap.Option) (evs : list Event) :
  does c o r r' zs evs -> zs = zs' -> does c o r r' zs' evs.
Proof. intros H <-. exact H. Qed.

(** A setter of a field leaves the struct that [assigned] says, and appends
    the options that [rawOpts] says. *)
Lemma call_does (opt : Opts) (o : loc) (r : Options.t) :
  target opt <> None ->
  exists evs, does (call opt o) o r (assigned opt r) (rawOpts opt) evs.
Proof.
  intros Ht. destruct opt; simpl in Ht; try contradiction;
    eexists; (eapply does_eq; [simpl; run|reflexivity]).
Qed.

Lemma settled_cons (opt : Opts) (opts : list Opts) (r : Options.t) :
  settled (opt :: opts) r = settled opts (assigned opt r).
Proof. destruct opt; reflexivity. Qed.

(** Setters of fields, run in order, leave each field as the last setter of
    that field has it, and [ZapOpts] with the options of all [RawZapOpts]. *)
Lemma forEach_settles (opts : list Opts) (o : loc) :
  Forall (fun opt => target opt <> None) opts ->
  forall r, exists evs,
      does (forEach opts (fun opt => call opt o)) o r (settled opts r)
           (flat_map rawOpts opts) evs.
Proof.
  induction 1 as [|opt opts Hopt _ IH]; intros r.
  - exists []. destruct r. apply does_ret.
  - destruct (call_does opt o r Hopt) as (e1 & H1).
    destruct (IH (assigned opt r)) as (e2 & H2).
    exists (e1 ++ e2). rewrite settled_cons. simpl.
    eapply does_seq; eassumption.
Qed.

(** Setters of fields that come after other setters go on from the struct
    those have left. *)
Lemma configure_app (pre post : list Opts) (m : Mem) (o : loc) (rb : Options.t) (mb : Mem) :
  configure pre m = Some ((o, rb), mb) -> slice_ok mb (Options.ZapOpts rb) ->
  Forall (fun opt => target opt <> None) post ->
  exists s1 m1 evs,
    configure (pre ++ post) m = Some ((o, Options.set_ZapOpts s1 (settled post rb)), m1) /\
    updates o mb rb m1 (Options.set_ZapOpts s1 (settled post rb)) (flat_map rawOpts post) evs.
Proof.
  intros Hcfg Hs Hf. destruct (configure_inv _ _ _ _ _ Hcfg) as (-> & Hfor & Hrb).
  destruct (forEach_settles post (fresh (dom (structs m))) Hf rb) as (evs & Hd).
  destruct (does_run _ _ _ _ _ _ mb Hd Hrb Hs) as (m1 & s1 & Hrun & U).
  exists s1, m1, evs. split; [|exact U].
  apply configure_eq.
  - rewrite forEach_app. erewrite bind_Some by exact Hfor. exact Hrun.
  - eapply updates_lookup. eassumption.
Qed.

(** The options the setters have put in [ZapOpts] when none of them is
    [UseFlagOptions]: those of the [RawZapOpts] among them, in order. *)
Lemma configure_rawOpts (opts : list Opts) (m : Mem) (o : loc) (r1 : Options.t) (m1 : Mem) :
  Forall (fun opt => target opt <> None) opts ->
  configure opts m = Some ((o, r1), m1) ->
  r1 = Options.set_ZapOpts (Options.ZapOpts r1) (settled opts Options.zero) /\
  slice_ok m1 (Options.ZapOpts r1) /\
  view m1 (Options.ZapOpts r1) = flat_map rawOpts opts.
Proof.
  intros Hf Hcfg.
  assert (H0 : configure [] m
               = Some ((fresh (dom (structs m)), Options.zero),
                       set_structs (insert (fresh (dom (structs m))) Options.zero) m)).
  { apply configure_eq; [reflexivity|]. simpl. apply lookup_insert_eq. }
  destruct (configure_app [] opts m _ _ _ H0 (slice_ok_nil _) Hf) as (s1 & m1' & evs & Hc & U).
  simpl in Hc. rewrite Hc in Hcfg. injection Hcfg as <- <- <-.
  split; [reflexivity|]. split; [apply (upd_ok _ _ _ _ _ _ _ U)|].
  rewrite (upd_view _ _ _ _ _ _ _ U). rewrite view_empty by reflexivity. reflexivity.
Qed.

Lemma chosen_answers (opts : list Opts) (found : option zapcore.LevelEnabler) :
  Forall honours opts -> answers found -> answers (chosen picksLevel opts found).
Proof.
  intros H. revert found. induction H as [|opt opts Hopt _ IH]; intros found Hfound.
  - exact Hfound.
  - unfold chosen. simpl. apply IH. destruct opt; simpl; try exact Hfound. exact Hopt.
Qed.

Lemma rawOpts_no_nil (opts : list Opts) :
  Forall honours opts -> zap.Nil ∉ flat_map rawOpts opts.
Proof.
  induction 1 as [|opt opts Hopt _ IH]; simpl.
  - apply not_elem_of_nil.
  - rewrite not_elem_of_app. split; [|exact IH].
    destruct opt; simpl; try apply not_elem_of_nil. exact Hopt.
Qed.

(** Setters of fields whose arguments are fit leave a struct from which a
    logger can be built. *)
Lemma setters_buildable (opts : list Opts) (m : Mem) (o : loc) (r1 : Options.t) (m1 : Mem) :
  Forall (fun opt => target opt <> None) opts -> Forall honours opts ->
  configure opts m = Some ((o, r1), m1) ->
  buildable m1 r1.
Proof.
  intros Hf Hh Hcfg.
  destruct (configure_rawOpts opts m o r1 m1 Hf Hcfg) as (E & _ & V).
  split.
  - intros _. rewrite E. simpl. apply chosen_answers; [assumption|apply answers_None].
  - rewrite V. apply rawOpts_no_nil. assumption.
Qed.

(** ** The claims about [NewRaw] *)

(** C3: when the setters of [NewRaw] leave a struct whose [Encoder] is
    already set (and from which a logger can be built: a level that answers,
    no nil among the options), the defaulting pass leaves that [Encoder] and
    makes no call of [NewEncoder] or of an [EncoderConfigOptions]
    customizer, the rest of the construction makes none either, and the
    logger is built around that [Encoder]. *)
Theorem explicit_Encoder_is_used
        (opts : list Opts) (m : Mem) (o : loc) (r1 : Options.t) (m1 : Mem)
        (e : zapcore.Encoder) :
  mem_ok m -> Forall (valid m) opts ->
  configure opts m = Some ((o, r1), m1) -> buildable m1 r1 ->
  Options.Encoder r1 = Some e ->
  exists m2 r2 ws lvl zs m3 r3,
    addDefaults o m1 = Some (tt, m2) /\
    structs m2 !! o = Some r2 /\
    Options.Encoder r2 = Some e /\
    calls m2 = calls m1 /\
    NewRaw opts m =
      Some (zap.WithOptions
              (zap.New (zapcore.NewCore
                          (Some (KubeAwareEncoder (Some e) (Options.Development r1))) ws lvl))
              zs,
            m3) /\
    structs m3 !! o = Some r3 /\
    Options.Encoder r3 = Some e /\
    calls m3 = calls m1.
Proof.
  intros Hm Hv Hcfg Hb He.
  destruct (NewRaw_from opts m o r1 m1 Hm Hv Hcfg Hb)
    as (_ & m2 & r2 & zs & evs & m3 & s3 & Hadd & U2 & D & U3 & Hnew).
  destruct D as (D1 & D2 & D3 & D4 & (f & Hf & D5 & D6 & D7) & _).
  rewrite He in D6, D7. simpl in D6, D7. subst evs.
  pose proof (upd_calls _ _ _ _ _ _ _ U2) as C2. rewrite app_nil_r in C2.
  pose proof (upd_calls _ _ _ _ _ _ _ U3) as C3. rewrite app_nil_r in C3.
  rewrite D6, D1 in Hnew.
  eexists m2, r2, _, _, _, m3, _.
  split; [assumption|]. split; [eapply updates_lookup; eassumption|].
  split; [assumption|]. split; [assumption|].
  split; [exact Hnew|]. split; [eapply updates_lookup; eassumption|].
  split; [assumption|]. congruence.
Qed.

Lemma explicit_Encoder_is_used_witness :
  let e := zapcore.NewConsoleEncoder zap.NewProductionEncoderConfig in
  let rename : EncoderConfigOption := fun cfg => cfg in
  let opts := [UseFlagOptions 1; Encoder (Some e); UseDevMode false;
               RawZapOpts [zap.AddCallerSkip 3]] in
  exists o r1 m1,
    configure opts (holding allSet) = Some ((o, r1), m1) /\
    exists m2 r2 ws lvl zs m3 r3,
      addDefaults o m1 = Some (tt, m2) /\
      structs m2 !! o = Some r2 /\
      Options.Encoder r2 = Some e /\
      calls m2 = calls m1 /\
      NewRaw opts (holding allSet) =
        Some (zap.WithOptions
                (zap.New (zapcore.NewCore
                            (Some (KubeAwareEncoder (Some e) (Options.Development r1))) ws lvl))
                zs,
              m3) /\
      structs m3 !! o = Some r3 /\
      Options.Encoder r3 = Some e /\
      calls m3 = calls m1.
Proof.
  intros e rename opts. eexists _, _, _. split; [reflexivity|].
  eapply (explicit_Encoder_is_used opts (holding allSet)).
  - apply mem_ok_holding. reflexivity.
  - repeat constructor. simpl. eauto.
  - reflexivity.
  - split.
    + apply ready_production. apply answers_Level.
    + apply no_nil. reflexivity.
  - reflexivity.
Defined.

(** C6: for every sequence of setters of the package ([pre], anything that
    runs, then [post], setters of fields) whose choices are fit (a level
    that answers, no nil option), [NewRaw] returns a logger built as
    follows.  The sink is [AddSync] of the destination chosen, standard
    error when none is; the core is [NewCore] of a [KubeAwareEncoder] with
    [Verbose] the [Development] flag chosen, around the encoder chosen, or
    the one [NewEncoder] makes when none is, of that sink and of the level
    chosen, or the mode's when none is; the options applied are all of
    [ZapOpts] as it is at the end: those accumulated by the setters, then
    those the defaulting pass appends, then [AddCallerSkip(1)] and
    [ErrorOutput] of that same sink. *)
Theorem NewRaw_builds
        (pre post : list Opts) (m : Mem) (o : loc) (rb : Options.t) (mb : Mem) :
  mem_ok m -> Forall (valid m) pre ->
  configure pre m = Some ((o, rb), mb) ->
  Forall (fun opt => target opt <> None) post ->
  let dev := chosen picksDevelopment post (Options.Development rb) in
  let out := chosen picksDestWritter post (Options.DestWritter rb) in
  let enc := chosen picksEncoder post (Options.Encoder rb) in
  let level := chosen picksLevel post (Options.Level rb) in
  let raw := view mb (Options.ZapOpts rb) ++ flat_map rawOpts post in
  (dev = false -> answers level) -> zap.Nil ∉ raw ->
  exists r1 m1 m2 r2 zs m3 r3,
    configure (pre ++ post) m = Some ((o, r1), m1) /\
    view m1 (Options.ZapOpts r1) = raw /\
    addDefaults o m1 = Some (tt, m2) /\
    structs m2 !! o = Some r2 /\
    view m2 (Options.ZapOpts r2) = raw ++ zs /\
    Options.Development r2 = dev /\
    Options.DestWritter r2 = Some (default os.Stderr out) /\
    Options.Encoder r2 =
      orElse enc
             (fst (default (if dev then newConsoleEncoder else newJSONEncoder)
                           (Options.NewEncoder rb) (Options.EncoderConfigOptions rb))) /\
    Options.Level r2 =
      Some (default (zap.NewAtomicLevelAt (if dev then zap.DebugLevel else zap.InfoLevel))
                    level) /\
    let sink := zapcore.AddSync (Options.DestWritter r2) in
    NewRaw (pre ++ post) m =
      Some (zap.WithOptions
              (zap.New (zapcore.NewCore
                          (Some (KubeAwareEncoder (Options.Encoder r2) (Options.Development r2)))
                          sink (Options.Level r2)))
              (view m3 (Options.ZapOpts r3)),
            m3) /\
    structs m3 !! o = Some r3 /\
    view m3 (Options.ZapOpts r3) =
      raw ++ zs ++ [zap.AddCallerSkip 1; zap.ErrorOutput sink].
Proof.
  intros Hm Hv Hcfg Hf dev out enc level raw Hlevel Hnil.
  destruct (configure_ok pre m o rb mb Hm Hv Hcfg) as (_ & _ & Hrb & Hmb & _).
  destruct (configure_app pre post m o rb mb Hcfg (Hmb o rb Hrb) Hf)
    as (s1 & m1 & evs1 & Hcfg1 & U1).
  set (r1 := Options.set_ZapOpts s1 (settled post rb)) in *.
  assert (V1 : view m1 (Options.ZapOpts r1) = raw) by apply (upd_view _ _ _ _ _ _ _ U1).
  assert (Hb : buildable m1 r1).
  { split; [exact Hlevel|]. rewrite V1. exact Hnil. }
  destruct (NewRaw_tail (pre ++ post) m o r1 m1 Hcfg1 (upd_ok _ _ _ _ _ _ _ U1) Hb)
    as (m2 & r2 & zs & evs & m3 & s3 & Hadd & U2 & D & U3 & Hnew).
  destruct D as (D1 & D2 & D3 & D4 & (f & Hfn & D5 & D6 & D7) & (l & b & Hl & D8 & Db & D9)).
  pose proof (upd_view _ _ _ _ _ _ _ U2) as V2. rewrite V1 in V2.
  pose proof (upd_view _ _ _ _ _ _ _ U3) as V3. rewrite V2, <- app_assoc in V3.
  exists r1, m1, m2, r2, zs, m3, (Options.set_ZapOpts s3 r2).
  split; [exact Hcfg1|]. split; [exact V1|]. split; [exact Hadd|].
  split; [eapply updates_lookup; eassumption|]. split; [exact V2|].
  split; [exact D1|]. split; [exact D3|].
  split; [rewrite D6, Hfn; reflexivity|]. split; [rewrite D8, Hl; reflexivity|].
  cbv zeta. split; [|split].
  - rewrite Hnew, V1, V3. reflexivity.
  - eapply updates_lookup; eassumption.
  - exact V3.
Qed.

Lemma NewRaw_builds_witness :
  let pre := [UseDevMode true; UseFlagOptions 1] in
  let post := [WriteTo (Some (io.Fd 7)); RawZapOpts [zap.AddCallerSkip 3];
               Level (Some (zapcore.OfLevel zap.ErrorLevel)); UseDevMode false;
               ConsoleEncoder []; WriteTo (Some (io.Fd 1))] in
  let m := withRoom Options.zero in
  exists o rb mb,
    configure pre m = Some ((o, rb), mb) /\
    view mb (Options.ZapOpts rb) = [zap.AddCallerSkip 2] /\
    exists r1 m1 m2 r2 zs m3 r3,
      configure (pre ++ post) m = Some ((o, r1), m1) /\
      view m1 (Options.ZapOpts r1) = view mb (Options.ZapOpts rb) ++ [zap.AddCallerSkip 3] /\
      addDefaults o m1 = Some (tt, m2) /\
      structs m2 !! o = Some r2 /\
      view m2 (Options.ZapOpts r2) = (view mb (Options.ZapOpts rb) ++ [zap.AddCallerSkip 3]) ++ zs /\
      Options.Development r2 = false /\
      Options.DestWritter r2 = Some (io.Fd 1) /\
      Options.Encoder r2 = fst (newConsoleEncoder []) /\
      Options.Level r2 = Some (zapcore.OfLevel zap.ErrorLevel) /\
      let sink := zapcore.AddSync (Options.DestWritter r2) in
      NewRaw (pre ++ post) m =
        Some (zap.WithOptions
                (zap.New (zapcore.NewCore
                            (Some (KubeAwareEncoder (Options.Encoder r2)
                                                    (Options.Development r2)))
                            sink (Options.Level r2)))
                (view m3 (Options.ZapOpts r3)),
              m3) /\
      structs m3 !! o = Some r3 /\
      view m3 (Options.ZapOpts r3) =
        (view mb (Options.ZapOpts rb) ++ [zap.AddCallerSkip 3]) ++ zs
          ++ [zap.AddCallerSkip 1; zap.ErrorOutput sink].
Proof.
  intros pre post m. eexists _, _, _. split; [reflexivity|]. split; [reflexivity|].
  eapply (NewRaw_builds pre post m).
  - apply mem_ok_withRoom.
  - repeat constructor. simpl. eauto.
  - reflexivity.
  - repeat constructor; discriminate.
  - intros _. apply answers_Level.
  - apply no_nil. reflexivity.
Defined.

Lemma behind_refl (t : Slice) : behind t t.
Proof. intros _ _. lia. Qed.

Lemma slice_ok_same_arrays (m m' : Mem) (s : Slice) :
  arrays m' = arrays m -> slice_ok m s -> slice_ok m' s.
Proof. intros H. unfold slice_ok. rewrite H. auto. Qed.

Lemma view_same_arrays (m m' : Mem) (s : Slice) :
  arrays m' = arrays m -> view m' s = view m s.
Proof. intros H. unfold view. rewrite H. reflexivity. Qed.

Lemma configure_UseFlagOptions (m : Mem) (in_ : loc) (r : Options.t) :
  structs m !! in_ = Some r ->
  let o := fresh (dom (structs m)) in
  configure [UseFlagOptions in_] m =
    Some ((o, r), set_structs (insert o r) (set_structs (insert o Options.zero) m)).
Proof.
  intros Hin o.
  assert (Ho : structs m !! o = None) by (apply not_elem_of_dom, is_fresh).
  assert (Hne : o <> in_) by congruence.
  unfold configure, bind, new. fold o. simpl.
  unfold bind, load, modify, ret. simpl.
  rewrite lookup_insert_ne by assumption. rewrite Hin.
  cbn [structs set_structs]. rewrite lookup_insert_eq.
  cbn [structs set_structs]. rewrite lookup_insert_eq. reflexivity.
Qed.

(** C9, as the spec words it, fails: [NewRaw(UseFlagOptions(in))] does not
    mutate its own struct only.  The copy shares the backing array of the
    caller's [ZapOpts], and the appends of the defaulting pass write into
    the spare capacity of that array.  Here a second struct of the caller
    shows three options of the same array; after the call it shows two
    options of [NewRaw] in the place of two of its own. *)
Lemma UseFlagOptions_copy_writes_shared_array :
  exists log m' other,
    NewRaw [UseFlagOptions 1] sharing = Some (log, m') /\
    structs sharing !! 2 = Some other /\
    structs m' !! 2 = Some other /\
    view sharing (Options.ZapOpts other)
    = [zap.AddCallerSkip 2; zap.AddCallerSkip 7; zap.AddCallerSkip 8] /\
    view m' (Options.ZapOpts other)
    = [zap.AddCallerSkip 2; sampler;
       zap.AddStacktrace (Some (zap.NewAtomicLevelAt zap.ErrorLevel))] /\
    arrays m' !! 1 <> arrays sharing !! 1.
Proof.
  eexists _, _, _. split; [vm_compute; reflexivity|].
  split; [reflexivity|]. split; [vm_compute; reflexivity|].
  split; [reflexivity|]. split; [vm_compute; reflexivity|].
  vm_compute. discriminate.
Qed.

(** C9, amended: when a logger can be built from the caller's struct,
    [NewRaw(UseFlagOptions(in))] returns; it works on a struct of its own,
    newly allocated, that starts as a copy of the caller's; when it has
    returned, the caller's struct has the value it had, field by field, its
    [ZapOpts] shows the elements it showed, and every other struct that
    existed is untouched as well.  What [NewRaw] writes besides its own
    struct is in backing arrays: every slice that does not reach, in the
    array of the caller's [ZapOpts], past the end of that slice shows the
    elements it showed. *)
Theorem UseFlagOptions_leaves_caller_record (m : Mem) (in_ : loc) (r : Options.t) :
  mem_ok m -> structs m !! in_ = Some r -> buildable m r ->
  exists o m1 log m',
    configure [UseFlagOptions in_] m = Some ((o, r), m1) /\
    o <> in_ /\ structs m !! o = None /\
    NewRaw [UseFlagOptions in_] m = Some (log, m') /\
    structs m' !! in_ = Some r /\
    view m' (Options.ZapOpts r) = view m (Options.ZapOpts r) /\
    (forall p, p <> o -> structs m' !! p = structs m !! p) /\
    (forall t, slice_ok m t -> behind t (Options.ZapOpts r) -> view m' t = view m t).
Proof.
  intros Hm Hin Hb.
  pose proof (configure_UseFlagOptions m in_ r Hin) as Hcfg. simpl in Hcfg.
  set (o := fresh (dom (structs m))) in *.
  set (m1 := set_structs (insert o r) (set_structs (insert o Options.zero) m)) in *.
  assert (Hv : Forall (valid m) [UseFlagOptions in_]).
  { constructor; [|constructor]. simpl. eauto. }
  assert (Hb1 : buildable m1 r).
  { destruct Hb as [Hready Hnil]. split; [exact Hready|].
    rewrite (view_same_arrays m) by reflexivity. exact Hnil. }
  destruct (NewRaw_from _ m o r m1 Hm Hv Hcfg Hb1)
    as ((_ & Hfresh & Hr1 & Hm1 & Hkept)
        & m2 & r2 & zs & evs & m3 & s3 & Hadd & U2 & D & U3 & Hnew).
  assert (Hne : o <> in_) by congruence.
  assert (Hothers : forall p, p <> o -> structs m3 !! p = structs m !! p).
  { intros p Hp.
    rewrite (updates_others _ _ _ _ _ _ _ p U3 Hp), (updates_others _ _ _ _ _ _ _ p U2 Hp).
    apply Hkept. assumption. }
  assert (Hframe : forall t, slice_ok m t -> behind t (Options.ZapOpts r) ->
                             view m3 t = view m t).
  { intros t Ht Hbeh.
    assert (Ht1 : slice_ok m1 t) by (apply (slice_ok_same_arrays m); [reflexivity|exact Ht]).
    destruct (upd_frame _ _ _ _ _ _ _ U2 _ Ht1 Hbeh) as [V2 B2].
    destruct (upd_frame _ _ _ _ _ _ _ U3 _ (upd_slices _ _ _ _ _ _ _ U2 _ Ht1) B2) as [V3 _].
    rewrite V3, V2. apply view_same_arrays. reflexivity. }
  exists o, m1. eexists _, m3.
  split; [exact Hcfg|]. split; [assumption|]. split; [assumption|].
  split; [exact Hnew|]. split; [|split; [|split]].
  - rewrite Hothers by congruence. assumption.
  - apply Hframe; [exact (Hm in_ r Hin)|apply behind_refl].
  - exact Hothers.
  - exact Hframe.
Qed.

Lemma UseFlagOptions_leaves_caller_record_witness :
  let m := withRoom allSet in
  let r := Options.set_ZapOpts {| arr := 1; off := 0; len := 1; cap := 4 |} allSet in
  exists o m1 log m',
    configure [UseFlagOptions 1] m = Some ((o, r), m1) /\
    o <> 1 /\ structs m !! o = None /\
    NewRaw [UseFlagOptions 1] m = Some (log, m') /\
    structs m' !! 1 = Some r /\
    view m' (Options.ZapOpts r) = view m (Options.ZapOpts r) /\
    (forall p, p <> o -> structs m' !! p = structs m !! p) /\
    (forall t, slice_ok m t -> behind t (Options.ZapOpts r) -> view m' t = view m t).
Proof.
  intros m r. apply (UseFlagOptions_leaves_caller_record m 1 r).
  - apply mem_ok_withRoom.
  - reflexivity.
  - split.
    + apply ready_development. reflexivity.
    + apply no_nil. reflexivity.
Defined.

(** C10: when the setters of [NewRaw] leave a struct whose [DestWritter] is
    nil (and from which a logger can be built: a level that answers, no nil
    among the options), the defaulting pass sets it to [os.Stderr], whatever
    [Development] is, and the logger writes to the sink
    [AddSync(os.Stderr)], which is also the error output named by the last
    option applied. *)
Theorem DestWritter_defaults_to_Stderr
        (opts : list Opts) (m : Mem) (o : loc) (r1 : Options.t) (m1 : Mem) :
  mem_ok m -> Forall (valid m) opts ->
  configure opts m = Some ((o, r1), m1) -> buildable m1 r1 ->
  Options.DestWritter r1 = None ->
  exists m2 r2 enc lvl zs m3,
    addDefaults o m1 = Some (tt, m2) /\
    structs m2 !! o = Some r2 /\
    Options.Development r2 = Options.Development r1 /\
    Options.DestWritter r2 = Some os.Stderr /\
    NewRaw opts m =
      Some (zap.WithOptions
              (zap.New (zapcore.NewCore enc (zapcore.AddSync (Some os.Stderr)) lvl))
              (zs ++ [zap.AddCallerSkip 1;
                      zap.ErrorOutput (zapcore.AddSync (Some os.Stderr))]),
            m3).
Proof.
  intros Hm Hv Hcfg Hb Hw.
  destruct (NewRaw_from opts m o r1 m1 Hm Hv Hcfg Hb)
    as (_ & m2 & r2 & zs & evs & m3 & s3 & Hadd & U2 & D & U3 & Hnew).
  destruct D as (D1 & D2 & D3 & D4 & _ & _).
  rewrite Hw in D3. simpl in D3. rewrite D3 in Hnew.
  eexists m2, r2, _, _, (view m1 (Options.ZapOpts r1) ++ zs), m3.
  split; [assumption|]. split; [eapply updates_lookup; eassumption|].
  split; [assumption|]. split; [assumption|].
  rewrite Hnew, <- app_assoc. reflexivity.
Qed.

Lemma DestWritter_defaults_to_Stderr_witness :
  let opts := [UseDevMode false; Level (Some (zapcore.OfLevel zap.InfoLevel))] in
  exists o r1 m1,
    configure opts startup = Some ((o, r1), m1) /\
    exists m2 r2 enc lvl zs m3,
      addDefaults o m1 = Some (tt, m2) /\
      structs m2 !! o = Some r2 /\
      Options.Development r2 = Options.Development r1 /\
      Options.DestWritter r2 = Some os.Stderr /\
      NewRaw opts startup =
        Some (zap.WithOptions
                (zap.New (zapcore.NewCore enc (zapcore.AddSync (Some os.Stderr)) lvl))
                (zs ++ [zap.AddCallerSkip 1;
                        zap.ErrorOutput (zapcore.AddSync (Some os.Stderr))]),
              m3).
Proof.
  intros opts. eexists _, _, _. split; [reflexivity|].
  eapply (DestWritter_defaults_to_Stderr opts startup).
  - apply mem_ok_startup.
  - repeat constructor.
  - reflexivity.
  - split.
    + apply ready_production. apply answers_Level.
    + apply no_nil. reflexivity.
  - reflexivity.
Defined.

(** ** The claims about the flags *)

Lemma defined_app (fs gs : FlagSet) (name : string) :
  defined (fs ++ gs) name = defined fs name || defined gs name.
Proof. unfold defined. apply existsb_app. Qed.

Lemma find_undefined (fs gs : FlagSet) (name : string) :
  defined fs name = false ->
  find (fun f => String.eqb (Name f) name) (fs ++ gs)
  = find (fun f => String.eqb (Name f) name) gs.
Proof.
  unfold defined. induction fs as [|f fs IH]; simpl; [reflexivity|].
  destruct (String.eqb (Name f) name); simpl; [discriminate|]. exact IH.
Qed.

Lemma set_Development_same (r : Options.t) :
  Options.set_Development (Options.Development r) r = r.
Proof. destruct r. reflexivity. Qed.

Lemma Var_run (fs : FlagSet) (v : Value) (name usage : string) (m : Mem) :
  defined fs name = false ->
  Var fs v name usage m = Some (fs ++ [{| Name := name; Usage := usage; value := v |}], m).
Proof. intros H. unfold Var. rewrite H. reflexivity. Qed.

(** [BindFlags] on a flag set that has none of the four names: the flag set
    it returns, and the memory, in which the struct is what it was. *)
Lemma BindFlags_run (m : Mem) (o : loc) (r : Options.t) (fs : FlagSet) :
  structs m !! o = Some r ->
  defined fs "zap-devel" = false ->
  defined fs "zap-encoder" = false ->
  defined fs "zap-log-level" = false ->
  defined fs "zap-stacktrace-level" = false ->
  exists u1 u2 u3 u4,
    BindFlags o fs m =
      Some (fs ++ [ {| Name := "zap-devel"; Usage := u1; value := boolValue o |};
                    {| Name := "zap-encoder"; Usage := u2;
                       value := encoderFlag
                                  (fun fromFlag => modify o (Options.set_NewEncoder fromFlag)) |};
                    {| Name := "zap-log-level"; Usage := u3;
                       value := levelFlag
                                  (fun fromFlag => modify o (Options.set_Level fromFlag)) |};
                    {| Name := "zap-stacktrace-level"; Usage := u4;
                       value := stackTraceFlag
                                  (fun fromFlag =>
                                     modify o (Options.set_StacktraceLevel fromFlag)) |} ],
            set_structs (insert o r) m).
Proof.
  intros Hr H1 H2 H3 H4. eexists _, _, _, _.
  unfold BindFlags, BoolVar.
  erewrite bind_Some by (apply load_run; eassumption).
  erewrite bind_Some.
  2:{ erewrite bind_Some by (apply modify_run; eassumption).
      apply Var_run. assumption. }
  rewrite set_Development_same. cbv zeta.
  erewrite bind_Some by (apply Var_run; rewrite defined_app, H2; reflexivity).
  erewrite bind_Some by (apply Var_run; rewrite !defined_app, H3; reflexivity).
  rewrite Var_run by (rewrite !defined_app, H4; reflexivity).
  rewrite <- !app_assoc. reflexivity.
Qed.

(** C4, as the spec words it, fails: on an empty flag set [BindFlags]
    registers four flags, not five. *)
Lemma BindFlags_registers_four_flags :
  exists fs m',
    BindFlags 1 [] (holding Options.zero) = Some (fs, m') /\
    map Name fs = ["zap-devel"; "zap-encoder"; "zap-log-level"; "zap-stacktrace-level"]%string /\
    length fs <> 5.
Proof.
  eexists _, _. split; [vm_compute; reflexivity|].
  split; [reflexivity|]. simpl. lia.
Qed.

(** C4, amended: on a flag set that has none of their names, [BindFlags]
    returns, changes no struct and registers four flags: [zap-devel],
    [zap-encoder], [zap-log-level] and [zap-stacktrace-level].  Setting one
    of them to a value it accepts writes the struct the flags were bound to,
    in place and in one field: [Development] from a boolean, [NewEncoder]
    from [json] or [console], [Level] from a level name or a positive
    integer [n] (the zap level [-n], as an [int8]), [StacktraceLevel] from a
    level name. *)
Theorem BindFlags_binds_four_flags (m : Mem) (o : loc) (r : Options.t) (fs : FlagSet) :
  structs m !! o = Some r ->
  defined fs "zap-devel" = false ->
  defined fs "zap-encoder" = false ->
  defined fs "zap-log-level" = false ->
  defined fs "zap-stacktrace-level" = false ->
  exists fs' m',
    BindFlags o fs m = Some (fs', m') /\
    structs m' = <[o := r]> (structs m) /\
    map Name fs' =
      map Name fs
        ++ ["zap-devel"; "zap-encoder"; "zap-log-level"; "zap-stacktrace-level"]%string /\
    forall m1 r1,
      structs m1 !! o = Some r1 ->
      (forall v b,
          ParseBool v = Some b ->
          FlagSet_Set fs' "zap-devel" v m1
          = Some (None, set_structs (insert o (Options.set_Development b r1)) m1)) /\
      FlagSet_Set fs' "zap-encoder" "json" m1
      = Some (None, set_structs (insert o (Options.set_NewEncoder (Some newJSONEncoder) r1)) m1) /\
      FlagSet_Set fs' "zap-encoder" "console" m1
      = Some (None,
              set_structs (insert o (Options.set_NewEncoder (Some newConsoleEncoder) r1)) m1) /\
      (forall v l,
          levelStrings v = Some l ->
          FlagSet_Set fs' "zap-log-level" v m1
          = Some (None,
                  set_structs
                    (insert o (Options.set_Level (Some (zap.NewAtomicLevelAt l)) r1)) m1)) /\
      (forall v n,
          levelStrings v = None -> numeral v = Some n -> (0 < n)%Z ->
          FlagSet_Set fs' "zap-log-level" v m1
          = Some (None,
                  set_structs
                    (insert o (Options.set_Level
                                 (Some (zap.NewAtomicLevelAt (zapcore.ofInt (- n)))) r1))
                    m1)) /\
      (forall v l,
          stackLevelStrings v = Some l ->
          FlagSet_Set fs' "zap-stacktrace-level" v m1
          = Some (None,
                  set_structs
                    (insert o (Options.set_StacktraceLevel (Some (zap.NewAtomicLevelAt l)) r1))
                    m1)).
Proof.
  intros Hr H1 H2 H3 H4.
  destruct (BindFlags_run m o r fs Hr H1 H2 H3 H4) as (u1 & u2 & u3 & u4 & Hrun).
  eexists _, _. split; [exact Hrun|]. split; [reflexivity|].
  split; [rewrite map_app; reflexivity|].
  intros m1 r1 Hr1. unfold FlagSet_Set.
  rewrite !find_undefined by assumption. simpl.
  split; [|split; [|split; [|split; [|split]]]].
  - intros v b Hb. unfold boolValue_Set. rewrite Hb.
    erewrite bind_Some by (apply modify_run; eassumption). reflexivity.
  - unfold encoderFlag_Set. simpl.
    erewrite bind_Some by (apply modify_run; eassumption). reflexivity.
  - unfold encoderFlag_Set. simpl.
    erewrite bind_Some by (apply modify_run; eassumption). reflexivity.
  - intros v l Hl. unfold levelFlag_Set. rewrite Hl.
    erewrite bind_Some by (apply modify_run; eassumption). reflexivity.
  - intros v n Hl Hn Hpos. unfold levelFlag_Set. rewrite Hl, Hn.
    destruct (Z.ltb_spec 0 n) as [_|Hle]; [|lia].
    erewrite bind_Some by (apply modify_run; eassumption). reflexivity.
  - intros v l Hl. unfold stackTraceFlag_Set. rewrite Hl.
    erewrite bind_Some by (apply modify_run; eassumption). reflexivity.
Qed.

Lemma BindFlags_binds_four_flags_witness :
  exists fs' m',
    BindFlags 1 [] (holding Options.zero) = Some (fs', m') /\
    structs m' = <[1 := Options.zero]> (structs (holding Options.zero)) /\
    map Name fs' =
      ["zap-devel"; "zap-encoder"; "zap-log-level"; "zap-stacktrace-level"]%string /\
    FlagSet_Set fs' "zap-devel" "true" m'
    = Some (None, set_structs (insert 1 (Options.set_Development true Options.zero)) m') /\
    FlagSet_Set fs' "zap-log-level" "12" m'
    = Some (None,
            set_structs
              (insert 1 (Options.set_Level (Some (zap.NewAtomicLevelAt (-12)%Z)) Options.zero))
              m').
Proof.
  destruct (BindFlags_binds_four_flags (holding Options.zero) 1 Options.zero [])
    as (fs' & m' & Hrun & Hst & Hnames & Hset);
    [reflexivity|reflexivity|reflexivity|reflexivity|reflexivity|].
  exists fs', m'. split; [exact Hrun|]. split; [exact Hst|]. split; [exact Hnames|].
  destruct (Hset m' Options.zero) as (Hb & _ & _ & _ & Hn & _).
  { rewrite Hst. apply lookup_insert_eq. }
  split.
  - apply Hb. reflexivity.
  - apply (Hn "12"%string 12%Z); [reflexivity|reflexivity|lia].
Defined.

(** C7: with the flags bound to a struct in production mode, setting
    [zap-log-level] to [5] is accepted and stores in [Level] an enabler at
    the zap level -5; that level enables the level -2, and the defaulting
    pass that follows appends the stack-trace option to [ZapOpts] and no
    sampling wrapper. *)
Theorem log_level_5_disables_sampling (m : Mem) (o : loc) (r : Options.t) :
  structs m !! o = Some r -> slice_ok m (Options.ZapOpts r) ->
  Options.Development r = false ->
  exists fs m1 m2 m3 r3,
    BindFlags o [] m = Some (fs, m1) /\
    FlagSet_Set fs "zap-log-level" "5" m1 = Some (None, m2) /\
    structs m2 !! o = Some (Options.set_Level (Some (zap.NewAtomicLevelAt (-5)%Z)) r) /\
    zapcore.Enabled (zap.NewAtomicLevelAt (-5)%Z) (-2)%Z = Some true /\
    addDefaults o m2 = Some (tt, m3) /\
    structs m3 !! o = Some r3 /\
    Options.Development r3 = false /\
    Options.Level r3 = Some (zap.NewAtomicLevelAt (-5)%Z) /\
    view m3 (Options.ZapOpts r3) =
      view m (Options.ZapOpts r) ++ [zap.AddStacktrace (Options.StacktraceLevel r3)].
Proof.
  intros Hr Hs Hdev.
  destruct (BindFlags_run m o r [] Hr) as (u1 & u2 & u3 & u4 & Hbind);
    [reflexivity|reflexivity|reflexivity|reflexivity|].
  set (m1 := set_structs (insert o r) m) in *.
  set (r2 := Options.set_Level (Some (zap.NewAtomicLevelAt (-5)%Z)) r).
  set (m2 := set_structs (insert o r2) m1).
  assert (Hr1 : structs m1 !! o = Some r) by apply lookup_insert_eq.
  assert (Hr2 : structs m2 !! o = Some r2) by apply lookup_insert_eq.
  assert (Hs2 : slice_ok m2 (Options.ZapOpts r2)).
  { apply (slice_ok_same_arrays m); [reflexivity|]. destruct r; exact Hs. }
  assert (Hready : ready r2).
  { apply ready_production. destruct r. apply answers_AtomicLevel. }
  destruct (addDefaults_run m2 o r2 Hr2 Hs2 Hready) as (m3 & r3 & zs & evs & Hadd & U & D).
  destruct D as (D1 & _ & _ & _ & _ & (l & b & Hl & D8 & Db & D9)).
  assert (Hdev2 : Options.Development r2 = false) by (destruct r; exact Hdev).
  rewrite Hdev2 in *. simpl in Hl. subst l.
  specialize (Db eq_refl). simpl in Db. injection Db as <-. simpl in D9.
  eexists _, m1, m2, m3, r3.
  split; [exact Hbind|]. split.
  { unfold FlagSet_Set. simpl. unfold levelFlag_Set. simpl.
    erewrite bind_Some by (apply modify_run; exact Hr1). reflexivity. }
  split; [exact Hr2|]. split; [reflexivity|]. split; [exact Hadd|].
  split; [eapply updates_lookup; eassumption|].
  split; [assumption|]. split; [assumption|].
  assert (Hv : view m2 (Options.ZapOpts r2) = view m (Options.ZapOpts r)).
  { rewrite (view_same_arrays m) by reflexivity. destruct r; reflexivity. }
  rewrite (upd_view _ _ _ _ _ _ _ U), D9, Hv. reflexivity.
Qed.

Lemma log_level_5_disables_sampling_witness :
  exists fs m1 m2 m3 r3,
    BindFlags 1 [] (holding Options.zero) = Some (fs, m1) /\
    FlagSet_Set fs "zap-log-level" "5" m1 = Some (None, m2) /\
    structs m2 !! 1
    = Some (Options.set_Level (Some (zap.NewAtomicLevelAt (-5)%Z)) Options.zero) /\
    zapcore.Enabled (zap.NewAtomicLevelAt (-5)%Z) (-2)%Z = Some true /\
    addDefaults 1 m2 = Some (tt, m3) /\
    structs m3 !! 1 = Some r3 /\
    Options.Development r3 = false /\
    Options.Level r3 = Some (zap.NewAtomicLevelAt (-5)%Z) /\
    view m3 (Options.ZapOpts r3) =
      view (holding Options.zero) (Options.ZapOpts Options.zero)
        ++ [zap.AddStacktrace (Options.StacktraceLevel r3)].
Proof.
  apply (log_level_5_disables_sampling (holding Options.zero) 1 Options.zero).
  - reflexivity.
  - apply slice_ok_nil.
  - reflexivity.
Defined.

(** ** The claims about the setters *)

(** C5, as the spec words it, fails: [UseFlagOptions] is a setter and writes
    more than one field.  Called on a zero struct with a fully set one as its
    argument, it changes [Development] and [Level], so no single field is the
    only one it writes. *)
Lemma UseFlagOptions_writes_many_fields :
  ~ (forall opt : Opts, exists f : Field, writes_only opt f).
Proof.
  intros H. destruct (H (UseFlagOptions 2)) as [f Hf].
  set (m := set_structs (insert 2 allSet) (holding Options.zero)).
  assert (Hcall : call (UseFlagOptions 2) 1 m
                  = Some (tt, set_structs (insert 1 allSet) m)) by reflexivity.
  assert (H1 : structs m !! 1 = Some Options.zero) by reflexivity.
  assert (H1' : structs (set_structs (insert 1 allSet) m) !! 1 = Some allSet) by reflexivity.
  pose proof (Hf m 1 _ Options.zero allSet Hcall H1 H1') as Hsame.
  destruct f;
    [ specialize (Hsame FLevel ltac:(discriminate))
    | specialize (Hsame FDevelopment ltac:(discriminate)) .. ];
    simpl in Hsame; discriminate Hsame.
Qed.

(** A setter other than [UseFlagOptions] returns and changes no field of its
    struct but its target; [RawZapOpts] leaves more elements in [ZapOpts]. *)
Lemma call_field_setter (opt : Opts) (o : loc) (m : Mem) (r : Options.t) (f : Field) :
  structs m !! o = Some r -> slice_ok m (Options.ZapOpts r) ->
  target opt = Some f ->
  exists m' r',
    call opt o m = Some (tt, m') /\
    structs m' !! o = Some r' /\
    slice_ok m' (Options.ZapOpts r') /\
    (forall g, g <> f -> same g r r') /\
    (forall zs, opt = RawZapOpts zs ->
                view m' (Options.ZapOpts r') = view m (Options.ZapOpts r) ++ zs).
Proof.
  intros Hr Hs Ht.
  assert (Hsimple : forall (h : Options.t -> Options.t) evs,
             Options.ZapOpts (h r) = Options.ZapOpts r ->
             (forall g, g <> f -> same g r (h r)) ->
             exists m' r',
               (record evs ;;; modify o h) m = Some (tt, m') /\
               structs m' !! o = Some r' /\
               slice_ok m' (Options.ZapOpts r') /\
               (forall g, g <> f -> same g r r')).
  { intros h evs Hz Hg.
    exists (set_structs (insert o (h r)) (set_calls (fun l => l ++ evs) m)), (h r).
    split; [unfold bind, record, modify; simpl; rewrite Hr; reflexivity|].
    split; [apply lookup_insert_eq|].
    split; [rewrite Hz; exact Hs|]. exact Hg. }
  assert (Hplain : forall (h : Options.t -> Options.t),
             Options.ZapOpts (h r) = Options.ZapOpts r ->
             (forall g, g <> f -> same g r (h r)) ->
             exists m' r',
               modify o h m = Some (tt, m') /\
               structs m' !! o = Some r' /\
               slice_ok m' (Options.ZapOpts r') /\
               (forall g, g <> f -> same g r r')).
  { intros h Hz Hg. exists (set_structs (insert o (h r)) m), (h r).
    split; [apply modify_run; exact Hr|].
    split; [apply lookup_insert_eq|].
    split; [rewrite Hz; exact Hs|]. exact Hg. }
  destruct opt; simpl in Ht; try discriminate Ht; injection Ht as <-; simpl.
  1-3, 6-7:
    (edestruct Hplain as (m' & r' & H1 & H2 & H3 & H4);
     [| |exists m', r'; split; [exact H1|]; split; [exact H2|]; split; [exact H3|];
         split; [exact H4|]; intros zs Hz; discriminate Hz];
     [reflexivity|intros g Hg; destruct g; try reflexivity; contradiction]).
  1-2:
    (edestruct Hsimple as (m' & r' & H1 & H2 & H3 & H4);
     [| |exists m', r'; split; [exact H1|]; split; [exact H2|]; split; [exact H3|];
         split; [exact H4|]; intros zs Hz; discriminate Hz];
     [reflexivity|intros g Hg; destruct g; try reflexivity; contradiction]).
  destruct (appendZapOpts_run m o r zapOpts Hr Hs) as (m' & s' & Hrun & U).
  exists m', (Options.set_ZapOpts s' r).
  split; [exact Hrun|]. split; [eapply updates_lookup; eassumption|].
  split; [apply (upd_ok _ _ _ _ _ _ _ U)|]. split.
  - intros g Hg. destruct g; try reflexivity. contradiction.
  - intros zs Hz. injection Hz as <-. apply (upd_view _ _ _ _ _ _ _ U).
Qed.

(** What a setter that assigns its field writes does not depend on the
    struct it finds. *)
Lemma field_setter_overwrites (opt : Opts) (f : Field) (o : loc)
      (ma ma' mb mb' : Mem) (ra' rb' : Options.t) :
  target opt = Some f -> f <> FZapOpts ->
  call opt o ma = Some (tt, ma') -> structs ma' !! o = Some ra' ->
  call opt o mb = Some (tt, mb') -> structs mb' !! o = Some rb' ->
  same f ra' rb'.
Proof.
  intros Ht Hf Ha Ha' Hb Hb'.
  destruct opt; simpl in Ht; try discriminate Ht; injection Ht as <-;
    try contradiction;
    unfold call, bind, record, modify in Ha, Hb; simpl in Ha, Hb;
    destruct (structs ma !! o) as [ra|]; try discriminate Ha;
    destruct (structs mb !! o) as [rb|]; try discriminate Hb;
    injection Ha as <-; injection Hb as <-;
    simpl in Ha', Hb'; rewrite lookup_insert_eq in Ha', Hb';
    injection Ha' as <-; injection Hb' as <-; reflexivity.
Qed.

Lemma same_refl (f : Field) (r : Options.t) : same f r r.
Proof. destruct f; reflexivity. Qed.

Lemma same_sym (f : Field) (r r' : Options.t) : same f r r' -> same f r' r.
Proof. destruct f; simpl; congruence. Qed.

Lemma same_trans (f : Field) (r r' r'' : Options.t) :
  same f r r' -> same f r' r'' -> same f r r''.
Proof. destruct f; simpl; congruence. Qed.

(** A setter of a field changes no other field, whatever the memory. *)
Lemma field_setter_writes_only (opt : Opts) (f : Field) :
  target opt = Some f -> writes_only opt f.
Proof.
  intros Ht m o m' r r' Hcall Hr Hr' g Hg.
  destruct opt; simpl in Ht; try discriminate Ht; injection Ht as <-; simpl in Hcall.
  1-7: (unfold bind, record, modify in Hcall; simpl in Hcall; rewrite Hr in Hcall;
        injection Hcall as <-; simpl in Hr'; rewrite lookup_insert_eq in Hr';
        injection Hr' as <-; destruct g; try reflexivity; contradiction).
  unfold appendZapOpts in Hcall.
  erewrite bind_Some in Hcall by (apply load_run; exact Hr).
  apply bind_inv in Hcall as (s' & m1 & Happ & Hmod).
  assert (E : structs m1 = structs m).
  { unfold append in Happ.
    destruct (decide (len (Options.ZapOpts r) + length zapOpts <= cap (Options.ZapOpts r)));
      injection Happ as _ <-; reflexivity. }
  unfold modify in Hmod. rewrite E, Hr in Hmod. injection Hmod as <-.
  simpl in Hr'. rewrite lookup_insert_eq in Hr'. injection Hr' as <-.
  destruct g; try reflexivity. contradiction.
Qed.

(** Setters of other fields keep the field [f]. *)
Lemma forEach_keeps_field (post : list Opts) (f : Field) (o : loc) :
  Forall (fun opt => exists g, target opt = Some g /\ g <> f) post ->
  forall m r,
    structs m !! o = Some r -> slice_ok m (Options.ZapOpts r) ->
    exists m' r',
      forEach post (fun opt => call opt o) m = Some (tt, m') /\
      structs m' !! o = Some r' /\
      same f r r'.
Proof.
  induction 1 as [|opt post (g & Hg & Hne) _ IH]; intros m r Hr Hs.
  - exists m, r. split; [reflexivity|]. split; [assumption|]. apply same_refl.
  - destruct (call_field_setter opt o m r g Hr Hs Hg) as (m1 & r1 & Hc & Hr1 & Hs1 & Hk & _).
    destruct (IH m1 r1 Hr1 Hs1) as (m' & r' & Hrun & Hr' & Hsame).
    exists m', r'. split; [|split; [assumption|]].
    + simpl. erewrite bind_Some by exact Hc. exact Hrun.
    + eapply same_trans; [|exact Hsame]. apply Hk. congruence.
Qed.

(** C5, amended.  Setters are applied in the order of the sequence: each is
    called on the struct that those before it have left.  A setter of the
    package other than [UseFlagOptions] writes one field of the struct, its
    target; [UseFlagOptions] replaces the whole struct by its argument.
    When two setters in a sequence have the same target and no later setter
    writes that field, whatever comes before and between them, the field
    ends with what the second one writes: for the setters that assign
    ([UseDevMode], [WriteTo], [Encoder], [JSONEncoder], [ConsoleEncoder],
    [Level], [StacktraceLevel]) that is the value the second one gives the
    field when it is the only setter, while [RawZapOpts] appends, so with
    setters of fields only [ZapOpts] shows the options of all its setters,
    in order.  Likewise the encoder flag set to [console] and then to [json]
    leaves the JSON encoder constructor in [NewEncoder]. *)
Theorem setters_last_write_wins (m : Mem) :
  mem_ok m ->
  (forall opts opt o r1 m1,
      configure opts m = Some ((o, r1), m1) ->
      configure (opts ++ [opt]) m = (call opt o ;;; let* r := load o in ret (o, r)) m1) /\
  (forall opt f, target opt = Some f -> writes_only opt f) /\
  (forall in_ rin o r m0,
      structs m0 !! in_ = Some rin -> structs m0 !! o = Some r ->
      exists m', call (UseFlagOptions in_) o m0 = Some (tt, m') /\
                 structs m' !! o = Some rin) /\
  (forall pre mid post opt1 opt2 f,
      Forall (valid m) (pre ++ opt1 :: mid ++ opt2 :: post) ->
      target opt1 = Some f -> target opt2 = Some f ->
      Forall (fun opt => exists g, target opt = Some g /\ g <> f) post ->
      exists o r1 m1 r2 m2,
        configure (pre ++ opt1 :: mid ++ opt2 :: post) m = Some ((o, r1), m1) /\
        configure [opt2] m = Some ((o, r2), m2) /\
        (f <> FZapOpts -> same f r1 r2)) /\
  (forall opts,
      Forall (fun opt => target opt <> None) opts ->
      exists o r1 m1,
        configure opts m = Some ((o, r1), m1) /\
        view m1 (Options.ZapOpts r1) = flat_map rawOpts opts) /\
  (forall o r,
      structs m !! o = Some r ->
      exists fs mb mc md,
        BindFlags o [] m = Some (fs, mb) /\
        FlagSet_Set fs "zap-encoder" "console" mb = Some (None, mc) /\
        structs mc !! o = Some (Options.set_NewEncoder (Some newConsoleEncoder) r) /\
        FlagSet_Set fs "zap-encoder" "json" mc = Some (None, md) /\
        structs md !! o = Some (Options.set_NewEncoder (Some newJSONEncoder) r)).
Proof.
  intros Hm. split; [|split; [|split; [|split; [|split]]]].
  - (* in order *)
    intros opts opt o r1 m1 Hcfg.
    destruct (configure_inv _ _ _ _ _ Hcfg) as (-> & Hfor & _).
    set (o := fresh (dom (structs m))) in *.
    assert (E : forEach (opts ++ [opt]) (fun opt => call opt o)
                        (set_structs (insert o Options.zero) m)
                = (call opt o ;;; ret tt) m1).
    { rewrite forEach_app. erewrite bind_Some by exact Hfor. reflexivity. }
    unfold configure. erewrite bind_Some by reflexivity. fold o.
    unfold bind at 1. rewrite E. unfold bind, ret.
    destruct (call opt o m1) as [[[] m2]|]; reflexivity.
  - (* one field each *)
    exact field_setter_writes_only.
  - (* the whole struct *)
    intros in_ rin o r m0 Hin Hr. exists (set_structs (insert o rin) m0). split.
    + simpl. erewrite bind_Some by (apply load_run; exact Hin).
      apply modify_run with (r := r). exact Hr.
    + apply lookup_insert_eq.
  - (* the last write wins *)
    intros pre mid post opt1 opt2 f Hv Ht1 Ht2 Hpost.
    set (o := fresh (dom (structs m))).
    set (m0 := set_structs (insert o Options.zero) m).
    replace (pre ++ opt1 :: mid ++ opt2 :: post)
      with ((pre ++ opt1 :: mid) ++ opt2 :: post) in *
      by (rewrite <- app_assoc; reflexivity).
    apply Forall_app in Hv as [Hva Hvb].
    destruct (setters_run _ m Hm Hva) as (ma & ra & Hfa & Ca & Hra).
    fold o in Hfa, Ca, Hra. fold m0 in Hfa, Ca.
    (* the second setter, after the others and alone *)
    destruct (call_field_setter opt2 o ma ra f Hra (cfg_ok _ _ _ Ca _ _ Hra) Ht2)
      as (mb & rb & Hcb & Hrb & Hsb & _ & _).
    assert (Hr0 : structs m0 !! o = Some Options.zero) by apply lookup_insert_eq.
    destruct (call_field_setter opt2 o m0 Options.zero f Hr0 (slice_ok_nil _) Ht2)
      as (m2 & r2 & Hc2 & Hr2 & _ & _ & _).
    (* the setters after it *)
    destruct (forEach_keeps_field post f o Hpost mb rb Hrb Hsb) as (m1 & r1 & Hf1 & Hr1 & Hk).
    exists o, r1, m1, r2, m2. split; [|split].
    + apply configure_eq; [|exact Hr1]. fold o. fold m0.
      rewrite forEach_app. erewrite bind_Some by exact Hfa.
      simpl. erewrite bind_Some by exact Hcb. exact Hf1.
    + apply configure_eq; [|exact Hr2]. fold o. fold m0.
      simpl. erewrite bind_Some by exact Hc2. reflexivity.
    + intros Hne. eapply same_trans; [apply same_sym; exact Hk|].
      eapply (field_setter_overwrites opt2 f o ma mb m0 m2); eassumption.
  - (* [RawZapOpts] appends *)
    intros opts Hf.
    destruct (configure_run opts m Hm (valid_field_setters m opts Hf)) as (o & r1 & m1 & Hcfg).
    exists o, r1, m1. split; [exact Hcfg|].
    apply (configure_rawOpts opts m o r1 m1 Hf Hcfg).
  - (* the encoder flag *)
    intros o r Hr.
    destruct (BindFlags_run m o r [] Hr) as (u1 & u2 & u3 & u4 & Hbind);
      [reflexivity|reflexivity|reflexivity|reflexivity|].
    set (mb := set_structs (insert o r) m) in *.
    set (rc := Options.set_NewEncoder (Some newConsoleEncoder) r).
    set (mc := set_structs (insert o rc) mb).
    set (rd := Options.set_NewEncoder (Some newJSONEncoder) rc).
    set (md := set_structs (insert o rd) mc).
    eexists _, mb, mc, md. split; [exact Hbind|].
    assert (Hrb : structs mb !! o = Some r) by apply lookup_insert_eq.
    assert (Hrc : structs mc !! o = Some rc) by apply lookup_insert_eq.
    split; [|split; [exact Hrc|split]].
    + unfold FlagSet_Set. simpl. unfold encoderFlag_Set. simpl.
      erewrite bind_Some by (apply modify_run; exact Hrb). reflexivity.
    + unfold FlagSet_Set. simpl. unfold encoderFlag_Set. simpl.
      erewrite bind_Some by (apply modify_run; exact Hrc). reflexivity.
    + unfold md. simpl. rewrite lookup_insert_eq. destruct r; reflexivity.
Qed.

Lemma setters_last_write_wins_witness :
  let e1 := zapcore.NewConsoleEncoder zap.NewDevelopmentEncoderConfig in
  let opts := [UseFlagOptions 1; Encoder (Some e1); RawZapOpts [zap.Development];
               UseFlagOptions 1; WriteTo None; JSONEncoder []; Level None;
               RawZapOpts [zap.AddCallerSkip 3]] in
  exists o r1 m1 r2 m2,
    configure opts (holding allSet) = Some ((o, r1), m1) /\
    configure [JSONEncoder []] (holding allSet) = Some ((o, r2), m2) /\
    (FEncoder <> FZapOpts -> same FEncoder r1 r2).
Proof.
  intros e1 opts.
  destruct (setters_last_write_wins (holding allSet) (mem_ok_holding allSet eq_refl))
    as (_ & _ & _ & H & _).
  apply (H [UseFlagOptions 1] [RawZapOpts [zap.Development]; UseFlagOptions 1; WriteTo None]
           [Level None; RawZapOpts [zap.AddCallerSkip 3]]
           (Encoder (Some e1)) (JSONEncoder []) FEncoder).
  - repeat constructor; simpl; eauto.
  - reflexivity.
  - reflexivity.
  - constructor; [exists FLevel; split; [reflexivity|discriminate]|].
    constructor; [exists FZapOpts; split; [reflexivity|discriminate]|]. constructor.
Defined.

(** ** More about the defaulting pass *)

(** X1: on a struct that is ready for it, the defaulting pass returns and
    leaves none of [DestWritter], [NewEncoder], [Level] and
    [StacktraceLevel] nil.  [Encoder] is what it was when it was set, and
    otherwise whatever [NewEncoder] returned, stored unchecked: it is left
    nil when the caller's [NewEncoder] returns nil, and is not nil when
    [NewEncoder] was nil, since the constructors of the package return an
    encoder. *)
Theorem addDefaults_leaves_no_nil_field (m : Mem) (o : loc) (r : Options.t) :
  structs m !! o = Some r -> slice_ok m (Options.ZapOpts r) -> ready r ->
  exists m' r' f,
    addDefaults o m = Some (tt, m') /\
    structs m' !! o = Some r' /\
    is_Some (Options.DestWritter r') /\
    Options.NewEncoder r' = Some f /\
    is_Some (Options.Level r') /\
    is_Some (Options.StacktraceLevel r') /\
    Options.Encoder r' = orElse (Options.Encoder r) (fst (f (Options.EncoderConfigOptions r))) /\
    (Options.Encoder r = None -> fst (f (Options.EncoderConfigOptions r)) = None ->
     Options.Encoder r' = None) /\
    (Options.NewEncoder r = None -> is_Some (Options.Encoder r')).
Proof.
  intros Hr Hs Hready.
  destruct (addDefaults_run m o r Hr Hs Hready) as (m' & r' & zs & evs & Hrun & U & D).
  destruct D as (_ & _ & D3 & D4 & (f & Hf & D5 & D6 & _) & (l & b & _ & D8 & _)).
  exists m', r', f. split; [assumption|].
  split; [eapply updates_lookup; eassumption|].
  split; [rewrite D3; eauto|]. split; [assumption|].
  split; [rewrite D8; eauto|]. split; [rewrite D4; eauto|].
  split; [assumption|]. split.
  - intros He Hnil. rewrite D6, He, Hnil. reflexivity.
  - intros Hn. rewrite D6, Hf, Hn. simpl.
    destruct (Options.Encoder r); simpl; [eauto|].
    destruct (Options.Development r); simpl; eauto.
Qed.

Lemma addDefaults_leaves_no_nil_field_witness :
  let none : NewEncoderFunc := fun _ => (None, []) in
  let r := Options.set_NewEncoder (Some none) Options.zero in
  exists m' r' f,
    addDefaults 1 (holding r) = Some (tt, m') /\
    structs m' !! 1 = Some r' /\
    is_Some (Options.DestWritter r') /\
    Options.NewEncoder r' = Some f /\
    is_Some (Options.Level r') /\
    is_Some (Options.StacktraceLevel r') /\
    Options.Encoder r' = orElse (Options.Encoder r) (fst (f (Options.EncoderConfigOptions r))) /\
    (Options.Encoder r = None -> fst (f (Options.EncoderConfigOptions r)) = None ->
     Options.Encoder r' = None) /\
    (Options.NewEncoder r = None -> is_Some (Options.Encoder r')).
Proof.
  intros none r. apply (addDefaults_leaves_no_nil_field (holding r) 1 r).
  - reflexivity.
  - apply slice_ok_nil.
  - apply ready_production. apply answers_None.
Defined.

(** X2: on a struct that is ready for it, the defaulting pass never changes
    [Development] or [EncoderConfigOptions], changes no other struct, and
    only appends to [ZapOpts]: the elements that were there stay in front,
    followed by one or two new options. *)
Theorem addDefaults_frame (m : Mem) (o : loc) (r : Options.t) :
  structs m !! o = Some r -> slice_ok m (Options.ZapOpts r) -> ready r ->
  exists m' r' zs,
    addDefaults o m = Some (tt, m') /\
    structs m' !! o = Some r' /\
    Options.Development r' = Options.Development r /\
    Options.EncoderConfigOptions r' = Options.EncoderConfigOptions r /\
    (forall p, p <> o -> structs m' !! p = structs m !! p) /\
    view m' (Options.ZapOpts r') = view m (Options.ZapOpts r) ++ zs /\
    1 <= length zs <= 2.
Proof.
  intros Hr Hs Hready.
  destruct (addDefaults_run m o r Hr Hs Hready) as (m' & r' & zs & evs & Hrun & U & D).
  destruct D as (D1 & D2 & _ & _ & _ & (l & b & _ & _ & _ & D9)).
  exists m', r', zs. split; [assumption|].
  split; [eapply updates_lookup; eassumption|].
  split; [assumption|]. split; [assumption|].
  split; [intros p Hp; eapply updates_others; eassumption|].
  split; [apply (upd_view _ _ _ _ _ _ _ U)|].
  subst zs. rewrite length_app. simpl.
  destruct (Options.Development r); simpl; [lia|].
  destruct b; simpl; lia.
Qed.

Lemma addDefaults_frame_witness :
  exists m' r' zs,
    addDefaults 1 (withRoom allSet) = Some (tt, m') /\
    structs m' !! 1 = Some r' /\
    Options.Development r' = true /\
    Options.EncoderConfigOptions r' = Options.EncoderConfigOptions allSet /\
    (forall p, p <> 1 -> structs m' !! p = structs (withRoom allSet) !! p) /\
    view m' (Options.ZapOpts r') = [zap.AddCallerSkip 2] ++ zs /\
    1 <= length zs <= 2.
Proof.
  apply (addDefaults_frame (withRoom allSet) 1
           (Options.set_ZapOpts {| arr := 1; off := 0; len := 1; cap := 4 |} allSet)).
  - reflexivity.
  - split; simpl; [lia|]. intros _.
    exists {| cells := [zap.AddCallerSkip 2]; capacity := 4 |}.
    split; [reflexivity|]. simpl. lia.
  - apply ready_development. reflexivity.
Defined.

(** X3: the defaulting pass is not idempotent.  Run a second time on the
    struct it left, it returns and changes no field other than [ZapOpts]
    and, when it is still nil, [Encoder], but it appends to [ZapOpts] the
    same options once more.  It calls [NewEncoder] again exactly when the
    first run left [Encoder] nil. *)
Theorem addDefaults_twice_appends_twice (m : Mem) (o : loc) (r : Options.t) :
  structs m !! o = Some r -> slice_ok m (Options.ZapOpts r) -> ready r ->
  exists m1 r1 m2 r2 zs f,
    addDefaults o m = Some (tt, m1) /\ structs m1 !! o = Some r1 /\
    addDefaults o m1 = Some (tt, m2) /\ structs m2 !! o = Some r2 /\
    (forall g, g <> FZapOpts -> g <> FEncoder -> same g r1 r2) /\
    Options.NewEncoder r1 = Some f /\
    (is_Some (Options.Encoder r1) ->
     Options.Encoder r2 = Options.Encoder r1 /\ calls m2 = calls m1) /\
    (Options.Encoder r1 = None ->
     calls m2 = calls m1 ++ InvokeNewEncoder :: snd (f (Options.EncoderConfigOptions r1))) /\
    zs <> [] /\
    view m1 (Options.ZapOpts r1) = view m (Options.ZapOpts r) ++ zs /\
    view m2 (Options.ZapOpts r2) = view m (Options.ZapOpts r) ++ zs ++ zs.
Proof.
  intros Hr Hs Hready.
  destruct (addDefaults_run m o r Hr Hs Hready) as (m1 & r1 & zs & evs & Hrun1 & U1 & D).
  pose proof (updates_lookup _ _ _ _ _ _ _ U1) as Hr1.
  destruct D as (D1 & D2 & D3 & D4 & (f & _ & D5 & D6 & _) & (l & b & _ & D8 & Db & D9)).
  assert (Hready1 : ready r1).
  { intros Hdev l1 Hl1. rewrite D8 in Hl1. injection Hl1 as <-.
    rewrite D1 in Hdev. rewrite (Db Hdev). eauto. }
  destruct (addDefaults_run m1 o r1 Hr1 (upd_ok _ _ _ _ _ _ _ U1) Hready1)
    as (m2 & r2 & zs2 & evs2 & Hrun2 & U2 & E).
  destruct E as (E1 & E2 & E3 & E4 & (f2 & Hf2 & E5 & E6 & E7)
                 & (l2 & b2 & Hl2 & E8 & Eb & E9)).
  rewrite D1 in *. rewrite D3 in E3. rewrite D4 in E4. rewrite D5 in Hf2.
  rewrite D8 in Hl2. simpl in *.
  rewrite Hf2 in E5, E6, E7. rewrite Hl2 in E8, Eb.
  assert (Hzs : zs2 = zs).
  { rewrite E9, D9, E4, D4. destruct (Options.Development r); [reflexivity|].
    specialize (Db eq_refl). specialize (Eb eq_refl). rewrite Db in Eb.
    injection Eb as <-. reflexivity. }
  rewrite Hzs in U2.
  exists m1, r1, m2, r2, zs, f.
  split; [assumption|]. split; [assumption|]. split; [assumption|].
  split; [eapply updates_lookup; eassumption|]. split.
  { intros g Hg Hg'. destruct g; simpl; try congruence; contradiction. }
  split; [assumption|]. split.
  { intros [e He]. rewrite He in E6, E7. simpl in E6, E7. split; [congruence|].
    rewrite (upd_calls _ _ _ _ _ _ _ U2), E7. apply app_nil_r. }
  split.
  { intros He. rewrite He in E7. simpl in E7.
    rewrite (upd_calls _ _ _ _ _ _ _ U2), E7. reflexivity. }
  split.
  { rewrite D9. intros H. apply app_eq_nil in H as [_ H]. discriminate H. }
  split; [apply (upd_view _ _ _ _ _ _ _ U1)|].
  rewrite (upd_view _ _ _ _ _ _ _ U2), (upd_view _ _ _ _ _ _ _ U1), <- app_assoc.
  reflexivity.
Qed.

Lemma addDefaults_twice_appends_twice_witness :
  let none : NewEncoderFunc := fun _ => (None, []) in
  let r := Options.set_NewEncoder (Some none) Options.zero in
  exists m1 r1 m2 r2 zs f,
    addDefaults 1 (holding r) = Some (tt, m1) /\ structs m1 !! 1 = Some r1 /\
    addDefaults 1 m1 = Some (tt, m2) /\ structs m2 !! 1 = Some r2 /\
    (forall g, g <> FZapOpts -> g <> FEncoder -> same g r1 r2) /\
    Options.NewEncoder r1 = Some f /\
    (is_Some (Options.Encoder r1) ->
     Options.Encoder r2 = Options.Encoder r1 /\ calls m2 = calls m1) /\
    (Options.Encoder r1 = None ->
     calls m2 = calls m1 ++ InvokeNewEncoder :: snd (f (Options.EncoderConfigOptions r1))) /\
    zs <> [] /\
    view m1 (Options.ZapOpts r1) = [] ++ zs /\
    view m2 (Options.ZapOpts r2) = [] ++ zs ++ zs.
Proof.
  intros none r. apply (addDefaults_twice_appends_twice (holding r) 1 r).
  - reflexivity.
  - apply slice_ok_nil.
  - apply ready_production. apply answers_None.
Defined.

(** X4: when [Encoder] is nil, the defaulting pass (on a struct that is
    ready for it) calls [NewEncoder] once, on [EncoderConfigOptions], and
    stores what it returns: the caller's [NewEncoder] when there is one,
    otherwise the console constructor in development mode and the JSON
    constructor in production mode, which apply the customizers in order,
    first to last, to zap's development or production encoder
    configuration. *)
Theorem addDefaults_builds_Encoder (m : Mem) (o : loc) (r : Options.t) :
  structs m !! o = Some r -> slice_ok m (Options.ZapOpts r) -> ready r ->
  Options.Encoder r = None ->
  exists m' r' f,
    addDefaults o m = Some (tt, m') /\
    structs m' !! o = Some r' /\
    (forall g, Options.NewEncoder r = Some g -> f = g) /\
    Options.Encoder r' = fst (f (Options.EncoderConfigOptions r)) /\
    calls m' = calls m ++ InvokeNewEncoder :: snd (f (Options.EncoderConfigOptions r)) /\
    (Options.NewEncoder r = None ->
     let apply := fold_left (fun cfg (opt : EncoderConfigOption) => opt cfg)
                            (Options.EncoderConfigOptions r) in
     Options.Encoder r' =
       Some (if Options.Development r
             then zapcore.NewConsoleEncoder (apply zap.NewDevelopmentEncoderConfig)
             else zapcore.NewJSONEncoder (apply zap.NewProductionEncoderConfig)) /\
     calls m' =
       calls m ++ InvokeNewEncoder
             :: map ApplyEncoderConfigOption (Options.EncoderConfigOptions r)).
Proof.
  intros Hr Hs Hready He.
  destruct (addDefaults_run m o r Hr Hs Hready) as (m' & r' & zs & evs & Hrun & U & D).
  destruct D as (_ & _ & _ & _ & (f & Hf & D5 & D6 & D7) & _).
  rewrite He in D6, D7. simpl in D6, D7.
  pose proof (upd_calls _ _ _ _ _ _ _ U) as Hc. rewrite D7 in Hc.
  exists m', r', f. split; [assumption|].
  split; [eapply updates_lookup; eassumption|].
  split; [intros g Hg; rewrite Hg in Hf; exact Hf|].
  split; [assumption|]. split; [assumption|].
  intros Hn. rewrite Hn in Hf. simpl in Hf. subst f.
  rewrite D6, Hc. destruct (Options.Development r); split; reflexivity.
Qed.

Lemma addDefaults_builds_Encoder_witness :
  let rename : EncoderConfigOption := fun cfg =>
        {| zapcore.MessageKey := "message";
           zapcore.LevelKey := zapcore.LevelKey cfg;
           zapcore.TimeKey := zapcore.TimeKey cfg;
           zapcore.NameKey := zapcore.NameKey cfg;
           zapcore.CallerKey := zapcore.CallerKey cfg;
           zapcore.StacktraceKey := zapcore.StacktraceKey cfg;
           zapcore.LineEnding := zapcore.LineEnding cfg;
           zapcore.EncodeLevel := zapcore.EncodeLevel cfg;
           zapcore.EncodeTime := zapcore.EncodeTime cfg;
           zapcore.EncodeDuration := zapcore.EncodeDuration cfg;
           zapcore.EncodeCaller := zapcore.EncodeCaller cfg |} in
  let r := Options.mk false None [rename] None None None None nilSlice in
  exists m' r' f,
    addDefaults 1 (holding r) = Some (tt, m') /\
    structs m' !! 1 = Some r' /\
    (forall g, Options.NewEncoder r = Some g -> f = g) /\
    Options.Encoder r' = fst (f [rename]) /\
    calls m' = [] ++ InvokeNewEncoder :: snd (f [rename]) /\
    (Options.NewEncoder r = None ->
     let apply := fold_left (fun cfg (opt : EncoderConfigOption) => opt cfg) [rename] in
     Options.Encoder r' =
       Some (if Options.Development r
             then zapcore.NewConsoleEncoder (apply zap.NewDevelopmentEncoderConfig)
             else zapcore.NewJSONEncoder (apply zap.NewProductionEncoderConfig)) /\
     calls m' = [] ++ InvokeNewEncoder :: map ApplyEncoderConfigOption [rename]).
Proof.
  intros rename r. apply (addDefaults_builds_Encoder (holding r) 1 r).
  - reflexivity.
  - apply slice_ok_nil.
  - apply ready_production. apply answers_None.
  - reflexivity.
Defined.

(** ** More about the setters *)

Lemma call_None (opt : Opts) (f : Field) (o : loc) (m : Mem) :
  target opt = Some f -> structs m !! o = None -> call opt o m = None.
Proof.
  intros Ht Ho. destruct opt; simpl in Ht; try discriminate Ht; simpl;
    unfold appendZapOpts, bind, record, modify, load; simpl; rewrite Ho; reflexivity.
Qed.

Lemma call_assigns (opt : Opts) (f : Field) (o : loc) (m : Mem) (r : Options.t) :
  target opt = Some f -> f <> FZapOpts -> structs m !! o = Some r ->
  call opt o m =
    Some (tt, {| structs := <[o := assigned opt r]> (structs m);
                 arrays := arrays m;
                 calls := calls m ++ announced opt;
                 growth := growth m |}).
Proof.
  intros Ht Hf Hr.
  destruct opt; simpl in Ht; try discriminate Ht; injection Ht as <-;
    try contradiction; simpl;
    unfold bind, record, modify; simpl; rewrite Hr; unfold set_structs; simpl;
    rewrite ?app_nil_r; reflexivity.
Qed.

(** What [append] returns depends on the arrays and on the runtime only. *)
Lemma append_arrays (s : Slice) (xs : list zap.Option) (m : Mem) :
  exists s' A',
    forall m2, arrays m2 = arrays m -> growth m2 = growth m ->
               append s xs m2 = Some (s', set_arrays (fun _ => A') m2).
Proof.
  unfold append. destruct (decide (len s + length xs <= cap s)).
  - eexists _, _. intros m2 Ha Hg. unfold set_arrays. rewrite Ha. reflexivity.
  - eexists _, _. intros m2 Ha Hg. unfold set_arrays, view. rewrite Ha, Hg. reflexivity.
Qed.

Lemma assigned_keeps_ZapOpts (opt : Opts) (r : Options.t) :
  Options.ZapOpts (assigned opt r) = Options.ZapOpts r.
Proof. destruct opt; reflexivity. Qed.

Lemma assigned_set_ZapOpts (opt : Opts) (s : Slice) (r : Options.t) :
  assigned opt (Options.set_ZapOpts s r) = Options.set_ZapOpts s (assigned opt r).
Proof. destruct opt; reflexivity. Qed.

Lemma assigned_commute (opt1 opt2 : Opts) (f1 f2 : Field) (r : Options.t) :
  target opt1 = Some f1 -> target opt2 = Some f2 -> f1 <> f2 ->
  assigned opt1 (assigned opt2 r) = assigned opt2 (assigned opt1 r) /\
  calls_commute opt1 opt2.
Proof.
  intros H1 H2 Hne. unfold calls_commute.
  destruct opt1; simpl in H1; try discriminate H1; injection H1 as <-;
    destruct opt2; simpl in H2; try discriminate H2; injection H2 as <-;
    try contradiction; (split; [reflexivity|]); intros l; simpl;
    rewrite ?app_nil_r; reflexivity.
Qed.

Lemma appendZapOpts_eq (o : loc) (zs : list zap.Option) (m : Mem) (r : Options.t)
      (s' : Slice) (A' : gmap loc Array) :
  structs m !! o = Some r ->
  append (Options.ZapOpts r) zs m = Some (s', set_arrays (fun _ => A') m) ->
  appendZapOpts o zs m =
    Some (tt, {| structs := <[o := Options.set_ZapOpts s' r]> (structs m);
                 arrays := A';
                 calls := calls m;
                 growth := growth m |}).
Proof.
  intros Hr Happ. unfold appendZapOpts.
  erewrite bind_Some by (apply load_run; exact Hr).
  erewrite bind_Some by exact Happ.
  unfold modify. simpl. rewrite Hr. reflexivity.
Qed.

(** A setter that assigns and [RawZapOpts] can be swapped. *)
Lemma assign_append_commute (opt : Opts) (f : Field) (zs : list zap.Option)
      (o : loc) (m : Mem) (r : Options.t) :
  target opt = Some f -> f <> FZapOpts -> structs m !! o = Some r ->
  exists m',
    (call (RawZapOpts zs) o ;;; call opt o) m = Some (tt, m') /\
    (call opt o ;;; call (RawZapOpts zs) o) m = Some (tt, m').
Proof.
  intros Ht Hf Hr.
  destruct (append_arrays (Options.ZapOpts r) zs m) as (s' & A' & Happ).
  eexists. split.
  - erewrite bind_Some.
    2:{ simpl. apply (appendZapOpts_eq o zs m r s' A' Hr). apply Happ; reflexivity. }
    erewrite call_assigns; [|exact Ht|exact Hf|simpl; apply lookup_insert_eq].
    simpl. rewrite insert_insert_eq, assigned_set_ZapOpts. reflexivity.
  - erewrite bind_Some by (eapply call_assigns; eassumption).
    simpl. erewrite appendZapOpts_eq.
    2:{ simpl. apply lookup_insert_eq. }
    2:{ rewrite assigned_keeps_ZapOpts. apply Happ; reflexivity. }
    simpl. rewrite insert_insert_eq. reflexivity.
Qed.

(** X5: two setters that write different fields can be applied in either
    order: both orders panic, or both return and leave the same memory. *)
Theorem setters_of_different_fields_commute
        (opt1 opt2 : Opts) (f1 f2 : Field) (o : loc) (m : Mem) :
  target opt1 = Some f1 -> target opt2 = Some f2 -> f1 <> f2 ->
  forEach [opt1; opt2] (fun opt => call opt o) m
  = forEach [opt2; opt1] (fun opt => call opt o) m.
Proof.
  intros Ht1 Ht2 Hne. simpl.
  destruct (structs m !! o) as [r|] eqn:Hr.
  2:{ unfold bind at 1 3.
      rewrite (call_None opt1 f1), (call_None opt2 f2) by assumption. reflexivity. }
  assert (Hret : forall (c1 c2 : M unit) k,
             (c1 ;;; c2 ;;; ret tt) k = (c1 ;;; c2) k).
  { intros c1 c2 k. unfold bind, ret. destruct (c1 k) as [[[] k1]|]; [|reflexivity].
    destruct (c2 k1) as [[[] k2]|]; reflexivity. }
  rewrite !Hret.
  destruct (decide (f1 = FZapOpts)) as [E1|N1]; [|destruct (decide (f2 = FZapOpts)) as [E2|N2]].
  - subst f1. destruct opt1; simpl in Ht1; try discriminate Ht1.
    destruct (assign_append_commute opt2 f2 zapOpts o m r Ht2 (fun E => Hne (eq_sym E)) Hr)
      as (m' & H1 & H2).
    rewrite H1, H2. reflexivity.
  - subst f2. destruct opt2; simpl in Ht2; try discriminate Ht2.
    destruct (assign_append_commute opt1 f1 zapOpts o m r Ht1 N1 Hr) as (m' & H1 & H2).
    rewrite H1, H2. reflexivity.
  - destruct (assigned_commute opt1 opt2 f1 f2 r Ht1 Ht2 Hne) as [Hc He].
    erewrite bind_Some by (eapply call_assigns; eassumption).
    erewrite call_assigns; [|exact Ht2|exact N2|simpl; apply lookup_insert_eq].
    symmetry.
    erewrite bind_Some by (eapply call_assigns; eassumption).
    erewrite call_assigns; [|exact Ht1|exact N1|simpl; apply lookup_insert_eq].
    simpl. rewrite !insert_insert_eq, Hc, He. reflexivity.
Qed.

Lemma setters_of_different_fields_commute_witness :
  forEach [RawZapOpts [zap.AddCallerSkip 3]; JSONEncoder []] (fun opt => call opt 1)
          (withRoom allSet)
  = forEach [JSONEncoder []; RawZapOpts [zap.AddCallerSkip 3]] (fun opt => call opt 1)
            (withRoom allSet).
Proof.
  apply (setters_of_different_fields_commute
           (RawZapOpts [zap.AddCallerSkip 3]) (JSONEncoder []) FZapOpts FEncoder).
  - reflexivity.
  - reflexivity.
  - discriminate.
Defined.

(** X6: [UseFlagOptions] placed last overrides every setter before it: when
    the setters of [NewRaw] are done, the struct is the caller's, whatever
    the earlier setters wrote. *)
Theorem UseFlagOptions_last_overrides
        (opts : list Opts) (m : Mem) (in_ : loc) (rin : Options.t) :
  mem_ok m -> Forall (valid m) opts -> structs m !! in_ = Some rin ->
  exists o m1, configure (opts ++ [UseFlagOptions in_]) m = Some ((o, rin), m1).
Proof.
  intros Hm Hv Hin.
  destruct (mem_ok_new m Hm) as (Hfresh & Hm0 & Hv0).
  set (o := fresh (dom (structs m))) in *.
  set (m0 := set_structs (insert o Options.zero) m) in *.
  assert (Hne : in_ <> o) by congruence.
  destruct (forEach_run opts m0 o Hm0) as (m1 & Hset & C).
  { unfold m0. simpl. rewrite lookup_insert_eq. eauto. }
  { eapply Forall_impl; [eassumption|]. exact Hv0. }
  destruct (cfg_here _ _ _ C) as [r1 Hr1].
  assert (Hin1 : structs m1 !! in_ = Some rin).
  { rewrite (cfg_others _ _ _ C) by assumption. unfold m0. simpl.
    rewrite lookup_insert_ne by congruence. assumption. }
  exists o, (set_structs (insert o rin) m1).
  unfold configure. erewrite bind_Some by reflexivity. fold o. fold m0.
  erewrite bind_Some.
  2:{ rewrite forEach_app. erewrite bind_Some by exact Hset. simpl.
      erewrite bind_Some.
      2:{ erewrite bind_Some by (apply load_run; exact Hin1).
          apply modify_run with (r := r1). exact Hr1. }
      reflexivity. }
  erewrite bind_Some by (apply load_run; simpl; apply lookup_insert_eq).
  reflexivity.
Qed.

Lemma UseFlagOptions_last_overrides_witness :
  exists o m1,
    configure ([UseDevMode false; WriteTo (Some (io.Fd 7)); RawZapOpts [zap.Development]]
                 ++ [UseFlagOptions 1])
              (holding allSet)
    = Some ((o, allSet), m1).
Proof.
  apply (UseFlagOptions_last_overrides _ (holding allSet) 1 allSet).
  - apply mem_ok_holding. reflexivity.
  - repeat constructor.
  - reflexivity.
Defined.

(** X7: when the setters are setters of fields whose arguments are fit (a
    level that answers, no nil option), the options applied to the logger
    are those of the [RawZapOpts] setters, in the order of the sequence,
    followed by the options of the package: the mode's option if any, the
    stack-trace option, the caller skip and the error output.  The caller's
    options come first, the package's last. *)
Theorem RawZapOpts_come_before_defaults (opts : list Opts) (m : Mem) :
  mem_ok m -> Forall (fun opt => target opt <> None) opts -> Forall honours opts ->
  exists core mode st sink m',
    NewRaw opts m =
      Some (zap.WithOptions
              (zap.New core)
              (flat_map rawOpts opts ++ mode
                 ++ [zap.AddStacktrace st; zap.AddCallerSkip 1; zap.ErrorOutput sink]),
            m') /\
    (mode = [] \/ mode = [zap.Development] \/ mode = [sampler]).
Proof.
  intros Hm Hf Hh. pose proof (valid_field_setters m opts Hf) as Hv.
  destruct (configure_run opts m Hm Hv) as (o & r1 & m1 & Hcfg).
  pose proof (setters_buildable opts m o r1 m1 Hf Hh Hcfg) as Hb.
  destruct (NewRaw_from opts m o r1 m1 Hm Hv Hcfg Hb)
    as (_ & m2 & r2 & zs & evs & m3 & s3 & Hadd & U2 & D & U3 & Hnew).
  destruct D as (_ & _ & _ & _ & _ & (l & b & _ & _ & _ & D9)).
  destruct (configure_rawOpts opts m o r1 m1 Hf Hcfg) as (_ & _ & V1).
  rewrite V1, D9 in Hnew.
  eexists _, _, _, _, m3. split.
  - rewrite Hnew. rewrite <- (app_assoc _ [zap.AddStacktrace _]). reflexivity.
  - destruct (Options.Development r1); [auto|]. destruct b; auto.
Qed.

Lemma RawZapOpts_come_before_defaults_witness :
  let opts := [RawZapOpts [zap.AddCallerSkip 2]; UseDevMode true;
               RawZapOpts [zap.ErrorOutput (zapcore.AddSync (Some (io.Fd 9)))]] in
  exists core mode st sink m',
    NewRaw opts startup =
      Some (zap.WithOptions
              (zap.New core)
              (flat_map rawOpts opts ++ mode
                 ++ [zap.AddStacktrace st; zap.AddCallerSkip 1; zap.ErrorOutput sink]),
            m') /\
    (mode = [] \/ mode = [zap.Development] \/ mode = [sampler]).
Proof.
  intros opts. apply (RawZapOpts_come_before_defaults opts startup).
  - apply mem_ok_startup.
  - repeat constructor; discriminate.
  - repeat constructor; apply no_nil; reflexivity.
Defined.

(** ** More about [NewRaw] *)

(** X8: the logger [NewRaw] returns, as a function of the struct its setters
    leave, when a logger can be built from it.  Each nil field counts as its
    default: [os.Stderr], the mode's level and stack-trace level, and for
    the encoder what the constructor (the caller's, or the mode's) returns
    on [EncoderConfigOptions].  The options are those already in [ZapOpts],
    then [zap.Development()] in development mode or, in production mode, the
    sampler unless the level enables -2, then the stack-trace option, the
    caller skip and the error output to the sink. *)
Theorem NewRaw_closed_form
        (opts : list Opts) (m : Mem) (o : loc) (r1 : Options.t) (m1 : Mem) :
  mem_ok m -> Forall (valid m) opts ->
  configure opts m = Some ((o, r1), m1) -> buildable m1 r1 ->
  let dev := Options.Development r1 in
  let w := default os.Stderr (Options.DestWritter r1) in
  let lvl := default (zap.NewAtomicLevelAt (if dev then zap.DebugLevel else zap.InfoLevel))
                     (Options.Level r1) in
  let st := default (zap.NewAtomicLevelAt (if dev then zap.WarnLevel else zap.ErrorLevel))
                    (Options.StacktraceLevel r1) in
  let f := default (if dev then newConsoleEncoder else newJSONEncoder)
                   (Options.NewEncoder r1) in
  let enc := orElse (Options.Encoder r1) (fst (f (Options.EncoderConfigOptions r1))) in
  let sink := zapcore.AddSync (Some w) in
  exists enabled m',
    (dev = false -> zapcore.Enabled lvl (-2)%Z = Some enabled) /\
    NewRaw opts m =
      Some (zap.WithOptions
              (zap.New (zapcore.NewCore (Some (KubeAwareEncoder enc dev)) sink (Some lvl)))
              (view m1 (Options.ZapOpts r1)
                 ++ (if dev then [zap.Development]
                     else if enabled then [] else [sampler])
                 ++ [zap.AddStacktrace (Some st); zap.AddCallerSkip 1; zap.ErrorOutput sink]),
            m').
Proof.
  intros Hm Hv Hcfg Hb dev w lvl st f enc sink.
  destruct (NewRaw_from opts m o r1 m1 Hm Hv Hcfg Hb)
    as (_ & m2 & r2 & zs & evs & m3 & s3 & Hadd & U2 & D & U3 & Hnew).
  destruct D as (D1 & _ & D3 & D4 & (f' & Hf & _ & D6 & _) & (l & b & Hl & D8 & Db & D9)).
  exists b, m3. split.
  - intros Hdev. rewrite Hl in Db. apply Db. exact Hdev.
  - rewrite Hnew, D9, D1, D3, D4, D6, D8, Hf, Hl.
    rewrite <- (app_assoc _ [zap.AddStacktrace _]). reflexivity.
Qed.

Lemma NewRaw_closed_form_witness :
  let opts := [UseDevMode false; Level (Some (zapcore.OfLevel zap.ErrorLevel));
               RawZapOpts [zap.AddCallerSkip 2]] in
  exists o r1 m1,
    configure opts startup = Some ((o, r1), m1) /\
    let dev := Options.Development r1 in
    let w := default os.Stderr (Options.DestWritter r1) in
    let lvl := default (zap.NewAtomicLevelAt (if dev then zap.DebugLevel else zap.InfoLevel))
                       (Options.Level r1) in
    let st := default (zap.NewAtomicLevelAt (if dev then zap.WarnLevel else zap.ErrorLevel))
                      (Options.StacktraceLevel r1) in
    let f := default (if dev then newConsoleEncoder else newJSONEncoder)
                     (Options.NewEncoder r1) in
    let enc := orElse (Options.Encoder r1) (fst (f (Options.EncoderConfigOptions r1))) in
    let sink := zapcore.AddSync (Some w) in
    exists enabled m',
      (dev = false -> zapcore.Enabled lvl (-2)%Z = Some enabled) /\
      NewRaw opts startup =
        Some (zap.WithOptions
                (zap.New (zapcore.NewCore (Some (KubeAwareEncoder enc dev)) sink (Some lvl)))
                (view m1 (Options.ZapOpts r1)
                   ++ (if dev then [zap.Development]
                       else if enabled then [] else [sampler])
                   ++ [zap.AddStacktrace (Some st); zap.AddCallerSkip 1;
                       zap.ErrorOutput sink]),
              m').
Proof.
  intros opts. eexists _, _, _. split; [reflexivity|].
  eapply (NewRaw_closed_form opts startup).
  - apply mem_ok_startup.
  - repeat constructor.
  - reflexivity.
  - split.
    + apply ready_production. apply answers_Level.
    + apply no_nil. reflexivity.
Defined.

(** When two structs agree on every field but [ZapOpts], the defaulting pass
    leaves them with the same encoder, mode, destination and level and
    appends the same options. *)
Lemma defaulted_agree (r r' a a' : Options.t) (zs zs' : list zap.Option)
      (evs evs' : list Event) :
  defaulted r a zs evs -> defaulted r' a' zs' evs' ->
  (forall g, g <> FZapOpts -> same g r r') ->
  zs = zs' /\
  Options.Encoder a = Options.Encoder a' /\
  Options.Development a = Options.Development a' /\
  Options.DestWritter a = Options.DestWritter a' /\
  Options.Level a = Options.Level a'.
Proof.
  intros D E Hsame.
  pose proof (Hsame FDevelopment ltac:(discriminate)) as S1.
  pose proof (Hsame FEncoder ltac:(discriminate)) as S2.
  pose proof (Hsame FEncoderConfigOptions ltac:(discriminate)) as S3.
  pose proof (Hsame FNewEncoder ltac:(discriminate)) as S4.
  pose proof (Hsame FDestWritter ltac:(discriminate)) as S5.
  pose proof (Hsame FLevel ltac:(discriminate)) as S6.
  pose proof (Hsame FStacktraceLevel ltac:(discriminate)) as S7.
  simpl in S1, S2, S3, S4, S5, S6, S7.
  destruct D as (D1 & _ & D3 & D4 & (f & Hf & _ & D6 & _) & (l & b & Hl & D8 & Db & D9)).
  destruct E as (E1 & _ & E3 & E4 & (f' & Hf' & _ & E6 & _) & (l' & b' & Hl' & E8 & Eb & E9)).
  rewrite <- S1, <- S4 in Hf'. rewrite <- S1, <- S6 in Hl'.
  rewrite <- S1 in E1, E4, E9, Eb. rewrite <- S2, <- S3 in E6.
  rewrite <- S5 in E3. rewrite <- S7 in E4.
  subst f f' l l'.
  split.
  { rewrite D9, E9, D4, E4. destruct (Options.Development r); [reflexivity|].
    specialize (Db eq_refl). specialize (Eb eq_refl). rewrite Db in Eb.
    injection Eb as <-. reflexivity. }
  split; [rewrite D6, E6; reflexivity|].
  split; [rewrite D1, E1; reflexivity|].
  split; [rewrite D3, E3; reflexivity|].
  rewrite D8, E8. reflexivity.
Qed.

(** X9: a struct and the setters that say the same give the same logger.
    For a caller's struct from which a logger can be built, with
    [NewEncoder] nil and no [EncoderConfigOptions],
    [NewRaw(UseFlagOptions(in))] returns the logger that [NewRaw] returns
    for the setters of its other fields, with [RawZapOpts] of the elements
    of its [ZapOpts]. *)
Theorem UseFlagOptions_agrees_with_setters (m : Mem) (in_ : loc) (r : Options.t) :
  mem_ok m -> structs m !! in_ = Some r -> buildable m r ->
  Options.NewEncoder r = None -> Options.EncoderConfigOptions r = [] ->
  exists log m' m'',
    NewRaw [UseFlagOptions in_] m = Some (log, m') /\
    NewRaw [UseDevMode (Options.Development r);
            WriteTo (Options.DestWritter r);
            Encoder (Options.Encoder r);
            Level (Options.Level r);
            StacktraceLevel (Options.StacktraceLevel r);
            RawZapOpts (view m (Options.ZapOpts r))] m = Some (log, m'').
Proof.
  intros Hm Hin [Hready Hnil] Hne Hecos.
  set (opts := [UseDevMode (Options.Development r); WriteTo (Options.DestWritter r);
                Encoder (Options.Encoder r); Level (Options.Level r);
                StacktraceLevel (Options.StacktraceLevel r);
                RawZapOpts (view m (Options.ZapOpts r))]).
  (* the struct copied *)
  pose proof (configure_UseFlagOptions m in_ r Hin) as Hc1. simpl in Hc1.
  assert (Hv1 : Forall (valid m) [UseFlagOptions in_]).
  { constructor; [|constructor]. simpl. eauto. }
  assert (Hb1 : buildable
                  (set_structs (insert (fresh (dom (structs m))) r)
                     (set_structs (insert (fresh (dom (structs m))) Options.zero) m)) r).
  { split; [exact Hready|]. rewrite (view_same_arrays m) by reflexivity. exact Hnil. }
  destruct (NewRaw_from _ m _ r _ Hm Hv1 Hc1 Hb1)
    as (_ & m2 & r2 & zs & evs & m3 & s3 & _ & _ & D & _ & Hnew1).
  (* the struct set field by field *)
  assert (Hf : Forall (fun opt => target opt <> None) opts).
  { unfold opts. repeat constructor; discriminate. }
  pose proof (valid_field_setters m opts Hf) as Hv2.
  destruct (configure_run opts m Hm Hv2) as (o & r1 & m1 & Hc2).
  destruct (configure_rawOpts opts m o r1 m1 Hf Hc2) as (E1 & _ & Hview).
  assert (Hsame : forall g, g <> FZapOpts -> same g r r1).
  { intros g Hg. rewrite E1. destruct r, g; simpl in *; subst; try reflexivity.
    contradiction. }
  assert (Hb2 : buildable m1 r1).
  { split.
    - intros Hdev. rewrite <- (Hsame FLevel ltac:(discriminate)). apply Hready.
      rewrite (Hsame FDevelopment ltac:(discriminate)). exact Hdev.
    - rewrite Hview. unfold opts. simpl. rewrite app_nil_r. exact Hnil. }
  destruct (NewRaw_from opts m o r1 m1 Hm Hv2 Hc2 Hb2)
    as (_ & m2' & r2' & zs' & evs' & m3' & s3' & _ & _ & D' & _ & Hnew2).
  destruct (defaulted_agree _ _ _ _ _ _ _ _ D D' Hsame) as (Hz & H1 & H2 & H3 & H4).
  exists (zap.WithOptions
            (zap.New (zapcore.NewCore
                        (Some (KubeAwareEncoder (Options.Encoder r2) (Options.Development r2)))
                        (zapcore.AddSync (Options.DestWritter r2)) (Options.Level r2)))
            (view m (Options.ZapOpts r) ++ zs
               ++ [zap.AddCallerSkip 1;
                   zap.ErrorOutput (zapcore.AddSync (Options.DestWritter r2))])),
         m3, m3'.
  split.
  - rewrite Hnew1. rewrite (view_same_arrays m) by reflexivity. reflexivity.
  - rewrite Hnew2, Hview, <- Hz, <- H1, <- H2, <- H3, <- H4.
    unfold opts. simpl. rewrite app_nil_r. reflexivity.
Qed.

Lemma UseFlagOptions_agrees_with_setters_witness :
  let r := Options.mk true None [] None (Some (io.Fd 1)) None
                      (Some (zap.NewAtomicLevelAt zap.InfoLevel))
                      {| arr := 1; off := 0; len := 1; cap := 4 |} in
  let m := withRoom r in
  exists log m' m'',
    NewRaw [UseFlagOptions 1] m = Some (log, m') /\
    NewRaw [UseDevMode (Options.Development r);
            WriteTo (Options.DestWritter r);
            Encoder (Options.Encoder r);
            Level (Options.Level r);
            StacktraceLevel (Options.StacktraceLevel r);
            RawZapOpts (view m (Options.ZapOpts r))] m = Some (log, m'').
Proof.
  intros r m. apply (UseFlagOptions_agrees_with_setters m 1 r).
  - apply mem_ok_withRoom.
  - reflexivity.
  - split.
    + apply ready_development. reflexivity.
    + apply no_nil. reflexivity.
  - reflexivity.
  - reflexivity.
Defined.

(** X10: for every sequence of setters of the package that leaves a struct
    from which a logger can be built, [NewRaw] returns and changes no
    [Options] struct that existed: the one struct it writes is the one it
    allocates, at an address that held none.  (What it may write besides is
    in backing arrays.) *)
Theorem NewRaw_changes_no_existing_struct
        (opts : list Opts) (m : Mem) (o : loc) (r1 : Options.t) (m1 : Mem) :
  mem_ok m -> Forall (valid m) opts ->
  configure opts m = Some ((o, r1), m1) -> buildable m1 r1 ->
  exists log m',
    NewRaw opts m = Some (log, m') /\
    structs m !! o = None /\
    is_Some (structs m' !! o) /\
    (forall p, p <> o -> structs m' !! p = structs m !! p).
Proof.
  intros Hm Hv Hcfg Hb.
  destruct (NewRaw_from opts m o r1 m1 Hm Hv Hcfg Hb)
    as ((Ho & Hfresh & Hr1 & Hm1 & Hkept)
        & m2 & r2 & zs & evs & m3 & s3 & Hadd & U2 & D & U3 & Hnew).
  eexists _, m3. split; [exact Hnew|]. split; [assumption|]. split.
  - rewrite (updates_lookup _ _ _ _ _ _ _ U3). eauto.
  - intros p Hp.
    rewrite (updates_others _ _ _ _ _ _ _ p U3 Hp), (updates_others _ _ _ _ _ _ _ p U2 Hp).
    apply Hkept. assumption.
Qed.

Lemma NewRaw_changes_no_existing_struct_witness :
  let opts := [UseFlagOptions 1; UseDevMode false; RawZapOpts [zap.Development];
               UseFlagOptions 2] in
  exists o r1 m1,
    configure opts sharing = Some ((o, r1), m1) /\
    exists log m',
      NewRaw opts sharing = Some (log, m') /\
      structs sharing !! o = None /\
      is_Some (structs m' !! o) /\
      (forall p, p <> o -> structs m' !! p = structs sharing !! p).
Proof.
  intros opts. eexists _, _, _. split; [reflexivity|].
  eapply (NewRaw_changes_no_existing_struct opts sharing).
  - intros p x Hx. unfold sharing in Hx. simpl in Hx.
    destruct (decide (p = 2)) as [->|H2];
      [rewrite lookup_insert_eq in Hx|rewrite lookup_insert_ne in Hx by congruence;
       destruct (decide (p = 1)) as [->|H1];
       [rewrite lookup_insert_eq in Hx
       |rewrite lookup_insert_ne, lookup_empty in Hx by congruence; discriminate Hx]];
      injection Hx as <-; (split; simpl; [lia|]); intros _;
      exists {| cells := [zap.AddCallerSkip 2; zap.AddCallerSkip 7; zap.AddCallerSkip 8];
                capacity := 4 |};
      (split; [reflexivity|]); simpl; lia.
  - repeat constructor; simpl; eauto.
  - reflexivity.
  - split.
    + apply ready_production. apply answers_None.
    + apply no_nil. reflexivity.
Defined.

(** ** A relation kept along the appends *)

Section Tracked.

Variable R : nat -> Mem -> Slice -> Mem -> Slice -> Prop.
Hypothesis R_still : forall m m' s, arrays m' = arrays m -> R 0 m s m' s.
Hypothesis R_trans :
  forall k1 k2 m s m1 s1 m2 s2,
    R k1 m s m1 s1 -> R k2 m1 s1 m2 s2 -> R (k1 + k2) m s m2 s2.
Hypothesis R_append :
  forall m s xs s' m',
    slice_ok m s -> append s xs m = Some (s', m') -> R (length xs) m s m' s'.

Lemma tracked_ret (o : loc) (r : Options.t) : tracked R (ret tt) o r r [] [].
Proof.
  intros m s Hr Hs. exists m, s. split; [reflexivity|].
  split; [apply updates_refl; assumption|]. apply R_still. reflexivity.
Qed.

Lemma tracked_seq (c1 c2 : M unit) (o : loc) (r r1 r2 : Options.t)
      (zs1 zs2 : list zap.Option) (e1 e2 : list Event) :
  tracked R c1 o r r1 zs1 e1 -> tracked R c2 o r1 r2 zs2 e2 ->
  tracked R (c1 ;;; c2) o r r2 (zs1 ++ zs2) (e1 ++ e2).
Proof.
  intros H1 H2 m s Hr Hs.
  destruct (H1 m s Hr Hs) as (m1 & s1 & Hc1 & U1 & G1).
  destruct (H2 m1 s1) as (m2 & s2 & Hc2 & U2 & G2).
  { eapply updates_lookup; eassumption. }
  { apply (upd_ok _ _ _ _ _ _ _ U1). }
  exists m2, s2. split; [erewrite bind_Some by exact Hc1; exact Hc2|].
  split; [eapply updates_trans; eassumption|].
  rewrite length_app. eapply R_trans; eassumption.
Qed.

Lemma tracked_load (k : Options.t -> M unit) (o : loc) (r r' : Options.t)
      (zs : list zap.Option) (evs : list Event) :
  (forall s, tracked R (k (Options.set_ZapOpts s r)) o r r' zs evs) ->
  tracked R (let* x := load o in k x) o r r' zs evs.
Proof.
  intros Hk m s Hr Hs. erewrite bind_Some by (apply load_run; exact Hr).
  apply (Hk s m s Hr Hs).
Qed.

Lemma tracked_update (f : Options.t -> Options.t) (o : loc) (r : Options.t) :
  (forall s x, f (Options.set_ZapOpts s x) = Options.set_ZapOpts s (f x)) ->
  tracked R (modify o f) o r (f r) [] [].
Proof.
  intros Hf m s Hr Hs.
  exists (set_structs (insert o (f (Options.set_ZapOpts s r))) m), s.
  split; [apply modify_run; exact Hr|]. rewrite Hf. split.
  - split; simpl; auto; symmetry; apply app_nil_r.
  - apply R_still. reflexivity.
Qed.

Lemma tracked_record (o : loc) (r : Options.t) (evs : list Event) :
  tracked R (record evs) o r r [] evs.
Proof.
  intros m s Hr Hs. exists (set_calls (fun l => l ++ evs) m), s.
  split; [reflexivity|]. split.
  - split; simpl; auto.
    + symmetry. apply insert_id. assumption.
    + symmetry. apply app_nil_r.
  - apply R_still. reflexivity.
Qed.

Lemma tracked_appendZapOpts (o : loc) (r : Options.t) (xs : list zap.Option) :
  tracked R (appendZapOpts o xs) o r r xs [].
Proof.
  intros m s Hr Hs.
  destruct (append_spec m s xs Hs) as (s' & m1 & Happ & E1 & E2 & E3 & Hok & Hv & Hsl & Hfr).
  exists (set_structs (insert o (Options.set_ZapOpts s' r)) m1), s'. split.
  - unfold appendZapOpts. erewrite bind_Some by (apply load_run; exact Hr).
    simpl. erewrite bind_Some by exact Happ.
    apply modify_run with (r := Options.set_ZapOpts s r). rewrite E1. exact Hr.
  - split.
    + split; simpl; auto.
      * congruence.
      * rewrite E2. symmetry. apply app_nil_r.
    + rewrite <- (Nat.add_0_r (length xs)).
      eapply R_trans; [eapply R_append; eassumption|]. apply R_still. reflexivity.
Qed.

Lemma tracked_lift {A} (a : A) (k : A -> M unit) (o : loc) (r r' : Options.t)
      (zs : list zap.Option) (evs : list Event) :
  tracked R (k a) o r r' zs evs -> tracked R (let* x := lift (Some a) in k x) o r r' zs evs.
Proof. intros H. exact H. Qed.

Lemma tracked_eq (c : M unit) (o : loc) (r r' : Options.t)
      (zs zs' : list zap.Option) (evs : list Event) :
  tracked R c o r r' zs evs -> zs = zs' -> tracked R c o r r' zs' evs.
Proof. intros H <-. exact H. Qed.

Ltac run_tracked :=
  repeat first
    [ apply tracked_ret
    | apply tracked_appendZapOpts
    | apply tracked_record
    | (apply tracked_update; intros ? ?; reflexivity)
    | (apply tracked_load; intros ?; simpl)
    | (apply tracked_lift; simpl)
    | eapply tracked_seq ].

Lemma addDefaults_tracked (o : loc) (r : Options.t) :
  ready r ->
  exists r' zs evs, tracked R (addDefaults o) o r r' zs evs /\ defaulted r r' zs evs.
Proof.
  intros Hready. destruct r as [dev enc ecos ne dw lvl st s0].
  destruct dev, enc as [e|], ne as [f|], dw as [w|], lvl as [l|], st as [t|];
    try (destruct (Hready eq_refl l eq_refl) as [[|] El]);
    (eexists _, _, _; split;
     [ unfold addDefaults; run_tracked; simpl; try rewrite El; run_tracked
     | unfold defaulted; simpl;
       do 4 (split; [reflexivity|]);
       split; [eexists; do 3 (split; [reflexivity|]); simpl; rewrite ?app_nil_r; reflexivity|];
       lazymatch goal with
       | El : zapcore.Enabled _ _ = Some ?b |- _ => eexists _, b
       | _ => eexists _, false
       end;
       split; [reflexivity|]; split; [reflexivity|];
       split; [first [discriminate | intros _; assumption | intros _; reflexivity]|];
       simpl; rewrite ?app_nil_r; reflexivity ]).
Qed.

Lemma call_tracked (opt : Opts) (o : loc) (r : Options.t) :
  target opt <> None ->
  exists r1 evs, tracked R (call opt o) o r r1 (rawOpts opt) evs.
Proof.
  intros Ht. destruct opt; simpl in Ht; try contradiction;
    eexists _, _; (eapply tracked_eq; [simpl; run_tracked|reflexivity]).
Qed.

Lemma forEach_tracked (opts : list Opts) (o : loc) :
  Forall (fun opt => target opt <> None) opts ->
  forall r, exists r1 evs,
      tracked R (forEach opts (fun opt => call opt o)) o r r1 (flat_map rawOpts opts) evs.
Proof.
  induction 1 as [|opt opts Hopt _ IH]; intros r.
  - exists r, []. apply tracked_ret.
  - destruct (call_tracked opt o r Hopt) as (r1 & e1 & H1).
    destruct (IH r1) as (r2 & e2 & H2).
    exists r2, (e1 ++ e2). simpl. apply tracked_seq with (r1 := r1); assumption.
Qed.

End Tracked.

(** ** Appends within the capacity of a caller's slice *)

Lemma grown_in_place_refl (s : Slice) : grown_in_place s s 0.
Proof. intros _. destruct s. simpl. rewrite Nat.add_0_r. reflexivity. Qed.

Lemma grown_in_place_trans (s s1 s2 : Slice) (k1 k2 : nat) :
  grown_in_place s s1 k1 -> grown_in_place s1 s2 k2 -> grown_in_place s s2 (k1 + k2).
Proof.
  intros G1 G2 Hfit. unfold grown_in_place in G1, G2.
  assert (E1 : len s + k1 <= cap s) by lia. specialize (G1 E1). subst s1.
  simpl in G2. assert (E2 : len s + k1 + k2 <= cap s) by lia.
  rewrite (G2 E2). f_equal. lia.
Qed.

Lemma append_in_place (s s' : Slice) (xs : list zap.Option) (m m' : Mem) :
  append s xs m = Some (s', m') -> grown_in_place s s' (length xs).
Proof.
  intros Happ Hfit. unfold append in Happ.
  destruct (decide (len s + length xs <= cap s)); [|contradiction].
  injection Happ as <- _. reflexivity.
Qed.

Lemma in_place_still (m m' : Mem) (s : Slice) : arrays m' = arrays m -> in_place 0 m s m' s.
Proof. intros _. apply grown_in_place_refl. Qed.

Lemma in_place_trans (k1 k2 : nat) (m : Mem) (s : Slice) (m1 : Mem) (s1 : Slice)
      (m2 : Mem) (s2 : Slice) :
  in_place k1 m s m1 s1 -> in_place k2 m1 s1 m2 s2 -> in_place (k1 + k2) m s m2 s2.
Proof. apply grown_in_place_trans. Qed.

Lemma in_place_append (m : Mem) (s : Slice) (xs : list zap.Option) (s' : Slice) (m' : Mem) :
  slice_ok m s -> append s xs m = Some (s', m') -> in_place (length xs) m s m' s'.
Proof. intros _. apply append_in_place. Qed.

(** X11: [NewRaw(UseFlagOptions(in))], for a caller's struct from which a
    logger can be built, leaves the caller's struct as it was, yet it writes
    the caller's backing array.  When the caller's [ZapOpts] has room for
    four more elements, the three or four options that [NewRaw] appends go
    into that array, right behind the caller's elements: a longer slice
    over the same array shows them. *)
Theorem NewRaw_writes_spare_capacity (m : Mem) (in_ : loc) (r : Options.t) :
  mem_ok m -> structs m !! in_ = Some r -> buildable m r ->
  len (Options.ZapOpts r) + 4 <= cap (Options.ZapOpts r) ->
  exists core zs m',
    NewRaw [UseFlagOptions in_] m
    = Some (zap.WithOptions (zap.New core) (view m (Options.ZapOpts r) ++ zs), m') /\
    3 <= length zs <= 4 /\
    structs m' !! in_ = Some r /\
    view m' {| arr := arr (Options.ZapOpts r);
               off := off (Options.ZapOpts r);
               len := len (Options.ZapOpts r) + length zs;
               cap := cap (Options.ZapOpts r) |}
    = view m (Options.ZapOpts r) ++ zs.
Proof.
  intros Hm Hin [Hready Hnil] Hroom.
  pose proof (configure_UseFlagOptions m in_ r Hin) as Hcfg. simpl in Hcfg.
  set (o := fresh (dom (structs m))) in *.
  set (m1 := set_structs (insert o r) (set_structs (insert o Options.zero) m)) in *.
  assert (Hv : Forall (valid m) [UseFlagOptions in_]).
  { constructor; [|constructor]. simpl. eauto. }
  destruct (configure_ok _ m o r m1 Hm Hv Hcfg) as (_ & Hfresh & Hr1 & Hm1 & Hkept).
  assert (Hne : in_ <> o) by congruence.
  pose proof (Hm1 o r Hr1) as Hs1.
  (* the defaulting pass *)
  destruct (addDefaults_tracked in_place in_place_still in_place_trans in_place_append o r
              Hready)
    as (r2 & zs & evs & Hd & D).
  destruct (Hd m1 (Options.ZapOpts r)) as (m2 & s2 & Hadd & U2 & G2).
  { rewrite set_ZapOpts_same. exact Hr1. }
  { exact Hs1. }
  rewrite set_ZapOpts_same in U2.
  pose proof (defaulted_no_nil _ _ _ _ D) as Hzs.
  destruct D as (_ & _ & D3 & _ & _ & (l & b & _ & _ & _ & D9)).
  assert (Hlen : 1 <= length zs <= 2).
  { subst zs. rewrite length_app. simpl.
    destruct (Options.Development r); simpl; [lia|].
    destruct b; simpl; lia. }
  (* the two options of [NewRaw] *)
  set (sink := zapcore.AddSync (Options.DestWritter (Options.set_ZapOpts s2 r2))).
  destruct (tracked_appendZapOpts in_place in_place_still in_place_trans in_place_append
              o r2 [zap.AddCallerSkip 1; zap.ErrorOutput sink] m2 s2)
    as (m3 & s3 & Happ & U3 & G3).
  { eapply updates_lookup; eassumption. }
  { apply (upd_ok _ _ _ _ _ _ _ U2). }
  pose proof (grown_in_place_trans _ _ _ _ _ G2 G3) as G.
  simpl in G. unfold grown_in_place in G.
  assert (E3 : s3 = {| arr := arr (Options.ZapOpts r); off := off (Options.ZapOpts r);
                       len := len (Options.ZapOpts r) + (length zs + 2);
                       cap := cap (Options.ZapOpts r) |}) by (apply G; lia).
  pose proof (upd_view _ _ _ _ _ _ _ U2) as V2.
  pose proof (upd_view _ _ _ _ _ _ _ U3) as V3. simpl in V2, V3.
  assert (V1 : view m1 (Options.ZapOpts r) = view m (Options.ZapOpts r))
    by (apply view_same_arrays; reflexivity).
  eexists _, (zs ++ [zap.AddCallerSkip 1; zap.ErrorOutput sink]), m3.
  split; [|split; [|split]].
  - rewrite (NewRaw_after_configure _ _ _ _ _ Hcfg).
    erewrite bind_Some by exact Hadd.
    erewrite bind_Some by (apply load_run; eapply updates_lookup; eassumption).
    erewrite bind_Some by exact Happ.
    erewrite bind_Some by (apply load_run; eapply updates_lookup; eassumption).
    erewrite bind_Some by reflexivity. simpl.
    rewrite V3, V2, V1, <- app_assoc. unfold lift.
    rewrite WithOptions_run; [reflexivity|].
    rewrite !not_elem_of_app. split; [exact Hnil|]. split; [exact Hzs|].
    rewrite !not_elem_of_cons. repeat split; try discriminate. apply not_elem_of_nil.
  - rewrite length_app. simpl. lia.
  - rewrite (updates_others _ _ _ _ _ _ _ in_ U3 Hne),
      (updates_others _ _ _ _ _ _ _ in_ U2 Hne).
    unfold m1. simpl. rewrite !lookup_insert_ne by congruence. exact Hin.
  - rewrite length_app. simpl. rewrite <- E3, V3, V2, V1, <- app_assoc. reflexivity.
Qed.

Lemma NewRaw_writes_spare_capacity_witness :
  let r := Options.set_ZapOpts {| arr := 1; off := 0; len := 0; cap := 4 |} Options.zero in
  let m := set_arrays (insert 1 {| cells := []; capacity := 4 |}) (holding r) in
  exists core zs m',
    NewRaw [UseFlagOptions 1] m
    = Some (zap.WithOptions (zap.New core) (view m (Options.ZapOpts r) ++ zs), m') /\
    3 <= length zs <= 4 /\
    structs m' !! 1 = Some r /\
    view m' {| arr := arr (Options.ZapOpts r);
               off := off (Options.ZapOpts r);
               len := len (Options.ZapOpts r) + length zs;
               cap := cap (Options.ZapOpts r) |}
    = view m (Options.ZapOpts r) ++ zs.
Proof.
  intros r m. apply (NewRaw_writes_spare_capacity m 1 r).
  - intros p x Hx. unfold m, holding in Hx. simpl in Hx.
    destruct (decide (p = 1)) as [->|Hp].
    + rewrite lookup_insert_eq in Hx. injection Hx as <-.
      split; simpl; [lia|]. intros _.
      exists {| cells := []; capacity := 4 |}.
      split; [reflexivity|]. simpl. lia.
    + rewrite lookup_insert_ne, lookup_empty in Hx by congruence. discriminate Hx.
  - reflexivity.
  - split.
    + apply ready_production. apply answers_None.
    + apply no_nil. reflexivity.
  - simpl. lia.
Defined.

(** X12: [RawZapOpts] with no options changes nothing: called on a struct
    with a usable [ZapOpts], the setter returns and leaves the memory as it
    found it, slice header and backing array included. *)
Theorem RawZapOpts_of_nothing_is_neutral (o : loc) (m : Mem) (r : Options.t) :
  structs m !! o = Some r -> slice_ok m (Options.ZapOpts r) ->
  call (RawZapOpts []) o m = Some (tt, m).
Proof.
  intros Hr [Hlen _]. simpl. unfold appendZapOpts.
  erewrite bind_Some by (apply load_run; exact Hr).
  unfold append. simpl.
  destruct (decide (len (Options.ZapOpts r) + 0 <= cap (Options.ZapOpts r))) as [_|Hn];
    [|lia].
  unfold bind, modify. simpl. rewrite Hr. f_equal. f_equal.
  destruct m as [S A C G]. unfold set_structs, set_arrays. simpl in *. f_equal.
  - rewrite Nat.add_0_r.
    replace {| arr := arr (Options.ZapOpts r); off := off (Options.ZapOpts r);
               len := len (Options.ZapOpts r); cap := cap (Options.ZapOpts r) |}
      with (Options.ZapOpts r) by (destruct (Options.ZapOpts r); reflexivity).
    rewrite set_ZapOpts_same. apply insert_id. exact Hr.
  - apply alter_id. intros [c n] _. simpl. rewrite overwrite_nil. reflexivity.
Qed.

Lemma RawZapOpts_of_nothing_is_neutral_witness :
  let r := Options.set_ZapOpts {| arr := 1; off := 0; len := 1; cap := 4 |} allSet in
  call (RawZapOpts []) 1 (withRoom allSet) = Some (tt, withRoom allSet).
Proof.
  intros r. apply (RawZapOpts_of_nothing_is_neutral 1 (withRoom allSet) r).
  - reflexivity.
  - split; simpl; [lia|]. intros _.
    exists {| cells := [zap.AddCallerSkip 2]; capacity := 4 |}.
    split; [reflexivity|]. simpl. lia.
Defined.

(** ** Arrays that the package leaves alone *)

Lemma keeps_apart_still (m m' : Mem) (s : Slice) :
  arrays m' = arrays m -> keeps_apart 0 m s m' s.
Proof.
  intros H A Ha Hh. split; [exact Ha|]. intros a x Hx. rewrite H. apply Hh. exact Hx.
Qed.

Lemma keeps_apart_trans (k1 k2 : nat) (m : Mem) (s : Slice) (m1 : Mem) (s1 : Slice)
      (m2 : Mem) (s2 : Slice) :
  keeps_apart k1 m s m1 s1 -> keeps_apart k2 m1 s1 m2 s2 -> keeps_apart (k1 + k2) m s m2 s2.
Proof.
  intros K1 K2 A Ha Hh. destruct (K1 A Ha Hh) as [Ha1 Hh1]. exact (K2 A Ha1 Hh1).
Qed.

Lemma keeps_apart_append (m : Mem) (s : Slice) (xs : list zap.Option) (s' : Slice)
      (m' : Mem) :
  slice_ok m s -> append s xs m = Some (s', m') -> keeps_apart (length xs) m s m' s'.
Proof.
  intros _ Happ A Ha Hh. unfold append in Happ.
  destruct (decide (len s + length xs <= cap s)) as [Hfit|Hgrow].
  - injection Happ as <- <-. split; [exact Ha|].
    intros a x Hx. simpl. specialize (Hh a x Hx).
    destruct Ha as [Hc|Hn].
    + assert (xs = []) as ->.
      { destruct xs; [reflexivity|]. simpl in Hfit. lia. }
      rewrite lookup_alter. case_decide; [|exact Hh].
      subst a. rewrite Hh. simpl. rewrite overwrite_nil. destruct x; reflexivity.
    + rewrite lookup_alter_ne; [exact Hh|]. intros E. rewrite E in Hn. congruence.
  - injection Happ as <- <-.
    assert (Hfresh : arrays m !! fresh (dom (arrays m)) = None)
      by (apply not_elem_of_dom, is_fresh).
    split.
    + right. simpl. destruct (A !! fresh (dom (arrays m))) as [x|] eqn:Hx; [|reflexivity].
      rewrite (Hh _ _ Hx) in Hfresh. discriminate Hfresh.
    + intros a x Hx. simpl. specialize (Hh a x Hx).
      rewrite lookup_insert_ne; [exact Hh|]. intros E. rewrite E in Hfresh. congruence.
Qed.

(** X13: when the setters are setters of fields whose arguments are fit (a
    level that answers, no nil option), [NewRaw] returns and writes nothing
    that existed before the call: every backing array and every struct of
    the caller is afterwards what it was.  The slice it appends to starts
    nil, so its arrays are its own. *)
Theorem NewRaw_of_setters_writes_nothing_of_the_caller (opts : list Opts) (m : Mem) :
  mem_ok m -> Forall (fun opt => target opt <> None) opts -> Forall honours opts ->
  exists log m',
    NewRaw opts m = Some (log, m') /\
    (forall a x, arrays m !! a = Some x -> arrays m' !! a = Some x) /\
    (forall p r, structs m !! p = Some r -> structs m' !! p = Some r).
Proof.
  intros Hm Hf Hh.
  destruct (mem_ok_new m Hm) as (Hfresh & _ & _).
  set (o := fresh (dom (structs m))) in *.
  set (m0 := set_structs (insert o Options.zero) m).
  destruct (forEach_tracked keeps_apart keeps_apart_still keeps_apart_trans
              keeps_apart_append opts o Hf Options.zero) as (r1 & e1 & T1).
  destruct (T1 m0 nilSlice) as (m1 & s1 & Hfor & U1 & K1).
  { unfold m0. simpl. apply lookup_insert_eq. }
  { apply slice_ok_nil. }
  destruct (K1 (arrays m)) as [A1 H1]; [left; reflexivity|intros a x Hx; exact Hx|].
  assert (Hcfg : configure opts m = Some ((o, Options.set_ZapOpts s1 r1), m1)).
  { apply configure_eq; [exact Hfor|]. eapply updates_lookup. eassumption. }
  destruct (setters_buildable opts m o _ m1 Hf Hh Hcfg) as [Hready Hnil].
  simpl in Hnil.
  destruct (addDefaults_tracked keeps_apart keeps_apart_still keeps_apart_trans
              keeps_apart_append o r1 Hready) as (r2 & zs & evs & T2 & D).
  pose proof (defaulted_no_nil _ _ _ _ D) as Hzs.
  destruct (T2 m1 s1) as (m2 & s2 & Hadd & U2 & K2).
  { eapply updates_lookup; eassumption. }
  { apply (upd_ok _ _ _ _ _ _ _ U1). }
  destruct (K2 (arrays m) A1 H1) as [A2 H2].
  set (sink := zapcore.AddSync (Options.DestWritter (Options.set_ZapOpts s2 r2))).
  destruct (tracked_appendZapOpts keeps_apart keeps_apart_still keeps_apart_trans
              keeps_apart_append o r2 [zap.AddCallerSkip 1; zap.ErrorOutput sink] m2 s2)
    as (m3 & s3 & Happ & U3 & K3).
  { eapply updates_lookup; eassumption. }
  { apply (upd_ok _ _ _ _ _ _ _ U2). }
  destruct (K3 (arrays m) A2 H2) as [_ H3].
  eexists _, m3. split; [|split].
  - unfold NewRaw. erewrite bind_Some by reflexivity. fold o. fold m0.
    erewrite bind_Some by exact Hfor.
    erewrite bind_Some by exact Hadd.
    erewrite bind_Some by (apply load_run; eapply updates_lookup; eassumption).
    erewrite bind_Some by exact Happ.
    erewrite bind_Some by (apply load_run; eapply updates_lookup; eassumption).
    erewrite bind_Some by reflexivity. simpl. unfold lift.
    rewrite WithOptions_run; [reflexivity|].
    pose proof (upd_view _ _ _ _ _ _ _ U3) as V3.
    pose proof (upd_view _ _ _ _ _ _ _ U2) as V2.
    simpl in V3, V2. rewrite V3, V2.
    rewrite !not_elem_of_app. split; [split; [exact Hnil|exact Hzs]|].
    rewrite !not_elem_of_cons. repeat split; try discriminate. apply not_elem_of_nil.
  - exact H3.
  - intros p r Hp. assert (Hne : p <> o) by congruence.
    rewrite (updates_others _ _ _ _ _ _ _ p U3 Hne), (updates_others _ _ _ _ _ _ _ p U2 Hne),
      (updates_others _ _ _ _ _ _ _ p U1 Hne).
    unfold m0. simpl. rewrite lookup_insert_ne by congruence. exact Hp.
Qed.

Lemma NewRaw_of_setters_writes_nothing_of_the_caller_witness :
  let opts := [RawZapOpts [zap.AddCallerSkip 3]; UseDevMode true] in
  exists log m',
    NewRaw opts (withRoom allSet) = Some (log, m') /\
    (forall a x, arrays (withRoom allSet) !! a = Some x -> arrays m' !! a = Some x) /\
    (forall p r, structs (withRoom allSet) !! p = Some r -> structs m' !! p = Some r).
Proof.
  intros opts. apply (NewRaw_of_setters_writes_nothing_of_the_caller opts (withRoom allSet)).
  - intros p x Hx. unfold withRoom, holding in Hx. simpl in Hx.
    destruct (decide (p = 1)) as [->|Hp].
    + rewrite lookup_insert_eq in Hx. injection Hx as <-.
      split; simpl; [lia|]. intros _.
      exists {| cells := [zap.AddCallerSkip 2]; capacity := 4 |}.
      split; [reflexivity|]. simpl. lia.
    + rewrite lookup_insert_ne, lookup_empty in Hx by congruence. discriminate Hx.
  - repeat constructor; discriminate.
  - repeat constructor; apply no_nil; reflexivity.
Defined.

(** ** More about the flags *)

(** X14: [BindFlags] panics when the flag set already has a flag of one of
    its four names, as it does when it is called a second time on the same
    flag set. *)
Theorem BindFlags_panics_on_taken_name (o : loc) (fs : FlagSet) (m : Mem) :
  defined fs "zap-devel" || defined fs "zap-encoder"
  || defined fs "zap-log-level" || defined fs "zap-stacktrace-level" = true ->
  BindFlags o fs m = None.
Proof.
  intros Htaken. unfold BindFlags, BoolVar.
  destruct (structs m !! o) as [r|] eqn:Hr.
  2:{ unfold bind at 1, load. rewrite Hr. reflexivity. }
  erewrite bind_Some by (apply load_run; exact Hr).
  destruct (defined fs "zap-devel") eqn:H1.
  { unfold bind, modify, Var. rewrite Hr, H1. reflexivity. }
  erewrite bind_Some.
  2:{ erewrite bind_Some by (apply modify_run; exact Hr). apply Var_run. exact H1. }
  cbv zeta. destruct (defined fs "zap-encoder") eqn:H2.
  { unfold bind at 1, Var. rewrite defined_app, H2. reflexivity. }
  erewrite bind_Some by (apply Var_run; rewrite defined_app, H2; reflexivity).
  destruct (defined fs "zap-log-level") eqn:H3.
  { unfold bind at 1, Var. rewrite !defined_app, H3. reflexivity. }
  erewrite bind_Some by (apply Var_run; rewrite !defined_app, H3; reflexivity).
  simpl in Htaken. unfold Var. rewrite !defined_app, Htaken. reflexivity.
Qed.

Lemma BindFlags_panics_on_taken_name_witness :
  exists fs m',
    BindFlags 1 [] (holding Options.zero) = Some (fs, m') /\
    BindFlags 1 fs m' = None.
Proof.
  eexists _, _. split; [vm_compute; reflexivity|].
  apply BindFlags_panics_on_taken_name. reflexivity.
Defined.

(** ** Where the package panics *)

(** X15: [NewRaw] calls each of its arguments unchecked: when one of them is
    the nil function, and those before it are setters of the package,
    [NewRaw] panics. *)
Theorem NewRaw_panics_on_nil_Opts (pre post : list Opts) (m : Mem) :
  mem_ok m -> Forall (valid m) pre ->
  NewRaw (pre ++ NilOpts :: post) m = None.
Proof.
  intros Hm Hv. destruct (setters_run pre m Hm Hv) as (m1 & r1 & Hfor & _ & _).
  unfold NewRaw. erewrite bind_Some by reflexivity.
  unfold bind at 1. rewrite forEach_app.
  erewrite bind_Some by exact Hfor. reflexivity.
Qed.

Lemma NewRaw_panics_on_nil_Opts_witness :
  NewRaw ([UseDevMode true; UseFlagOptions 1] ++ NilOpts :: [WriteTo None]) (holding allSet)
  = None.
Proof.
  apply (NewRaw_panics_on_nil_Opts [UseDevMode true; UseFlagOptions 1] [WriteTo None]).
  - apply mem_ok_holding. reflexivity.
  - repeat constructor. simpl. eauto.
Defined.

(** X16: [NewRaw] hands [ZapOpts] to [WithOptions] unchecked: when the
    struct its setters leave is ready for the defaulting pass and its
    [ZapOpts] shows a nil option, [NewRaw] panics, after the defaulting pass
    has run. *)
Theorem NewRaw_panics_on_nil_Option
        (opts : list Opts) (m : Mem) (o : loc) (r1 : Options.t) (m1 : Mem) :
  configure opts m = Some ((o, r1), m1) ->
  slice_ok m1 (Options.ZapOpts r1) -> ready r1 ->
  zap.Nil ∈ view m1 (Options.ZapOpts r1) ->
  is_Some (addDefaults o m1) /\ NewRaw opts m = None.
Proof.
  intros Hcfg Hs Hready Hin.
  destruct (NewRaw_reaches opts m o r1 m1 Hcfg Hs Hready)
    as (m2 & r2 & zs & evs & m3 & s3 & Hadd & _ & _ & _ & Hnew).
  split; [rewrite Hadd; eauto|].
  rewrite Hnew. unfold lift, zap.Logger_WithOptions.
  replace (existsb zap.isNil _) with true; [reflexivity|].
  symmetry. apply existsb_exists. exists zap.Nil. split; [|reflexivity].
  apply in_or_app. left. apply list_elem_of_In. exact Hin.
Qed.

Lemma NewRaw_panics_on_nil_Option_witness :
  let opts := [RawZapOpts [zap.Development; zap.Nil]; UseDevMode true] in
  exists o r1 m1,
    configure opts startup = Some ((o, r1), m1) /\
    is_Some (addDefaults o m1) /\ NewRaw opts startup = None.
Proof.
  intros opts.
  destruct (configure_run opts startup mem_ok_startup) as (o & r1 & m1 & Hcfg);
    [repeat constructor|].
  exists o, r1, m1. split; [exact Hcfg|].
  destruct (configure_rawOpts opts startup o r1 m1) as (E & Hs & V);
    [repeat constructor; discriminate|exact Hcfg|].
  apply (NewRaw_panics_on_nil_Option opts startup o r1 m1 Hcfg Hs).
  - intros Hdev. rewrite E in Hdev. discriminate Hdev.
  - rewrite V. simpl. apply list_elem_of_In. simpl. auto.
Defined.

Lemma bind_None {A B} (c : M A) (k : A -> M B) (m : Mem) : c m = None -> bind c k m = None.
Proof. intros H. unfold bind. rewrite H. reflexivity. Qed.

Lemma bind_does {B} (c : M unit) (k : unit -> M B) (o : loc) (r r' : Options.t)
      (zs : list zap.Option) (evs : list Event) (m : Mem) (s : Slice) :
  does c o r r' zs evs ->
  structs m !! o = Some (Options.set_ZapOpts s r) -> slice_ok m s ->
  exists m' s',
    bind c k m = k tt m' /\
    structs m' !! o = Some (Options.set_ZapOpts s' r') /\ slice_ok m' s'.
Proof.
  intros Hd Hr Hs. destruct (Hd m s Hr Hs) as (m' & s' & Hrun & U).
  exists m', s'. split; [apply bind_Some; exact Hrun|].
  split; [eapply updates_lookup; eassumption|]. apply (upd_ok _ _ _ _ _ _ _ U).
Qed.

(** X17: in production mode the defaulting pass asks the [Level] it finds
    whether it enables the level -2, unchecked: when that call panics, as it
    does on a zero [AtomicLevel] and on a nil [LevelEnablerFunc], the
    defaulting pass panics. *)
Theorem addDefaults_panics_on_silent_Level
        (m : Mem) (o : loc) (r : Options.t) (l : zapcore.LevelEnabler) :
  structs m !! o = Some r -> slice_ok m (Options.ZapOpts r) ->
  Options.Development r = false -> Options.Level r = Some l ->
  zapcore.Enabled l (-2)%Z = None ->
  addDefaults o m = None.
Proof.
  intros Hr Hs Hdev Hl Hsilent.
  destruct r as [dev enc ecos ne dw lvl st s0]. simpl in Hs, Hdev, Hl. subst dev lvl.
  change (Options.mk false enc ecos ne dw (Some l) st s0)
    with (Options.set_ZapOpts s0 (Options.mk false enc ecos ne dw (Some l) st s0)) in Hr.
  unfold addDefaults.
  destruct dw as [w|], ne as [f|], st as [t|];
    (lazymatch goal with
     | |- bind ?c ?k m = None =>
         edestruct (bind_does c k o) as (m1 & s1 & -> & Hr1 & Hs1);
         [ |exact Hr|exact Hs|]; [run|]
     end;
     apply bind_None;
     erewrite bind_Some by (apply load_run; exact Hr1); simpl;
     do 3 (lazymatch goal with
           | |- bind ?c ?k ?m' = None =>
               let Hx := fresh "Hx" in let Hy := fresh "Hy" in
               edestruct (bind_does c k o) as (? & ? & -> & Hx & Hy);
               [ |exact Hr1|exact Hs1|]; [run|];
               clear Hr1 Hs1; rename Hx into Hr1; rename Hy into Hs1
           end);
     erewrite bind_Some by (apply load_run; exact Hr1); simpl;
     rewrite Hsilent; reflexivity).
Qed.

Lemma addDefaults_panics_on_silent_Level_witness :
  let r := Options.set_Level (Some (zapcore.OfAtomicLevel None)) Options.zero in
  addDefaults 1 (holding r) = None /\
  is_Some (addDefaults 1 (holding (Options.set_Development true r))).
Proof.
  intros r. split.
  - apply (addDefaults_panics_on_silent_Level (holding r) 1 r (zapcore.OfAtomicLevel None));
      reflexivity || apply slice_ok_nil.
  - vm_compute. eauto.
Defined.
